(** * Metis replayer ([replay.c]): a shallow embedding and its properties

    The development follows [replay.c] function by function.  The data model
    is the one of the platform the program is written for (Linux, LP64):
    [int] and [unsigned int] (and [useconds_t]) are 32 bits wide, [long],
    [size_t], [ssize_t] and [off_t] are 64 bits wide, integers are stored
    little-endian.  Every machine integer is a [Z] and each conversion or
    wrap-around is written out.

    Everything outside the program (system calls, the allocator, [rand]) is
    an oracle [env] that answers each call from the history of calls so far;
    the calls and their answers are recorded in a trace. *)

From Stdlib Require Import ZArith Lia List String Ascii.
From stdpp Require Import base gmap strings list.

Local Open Scope string_scope.
Local Open Scope list_scope.
Local Open Scope Z_scope.

(** ** Machine integers *)

Definition INT_MAX : Z := 2 ^ 31 - 1.
Definition UINT_MOD : Z := 2 ^ 32.
Definition LONG_MAX : Z := 2 ^ 63 - 1.
Definition LONG_MIN : Z := - 2 ^ 63.
Definition ULONG_MAX : Z := 2 ^ 64 - 1.
Definition SIZE_MOD : Z := 2 ^ 64.

(** Conversion to [unsigned int] / [useconds_t] / [mode_t] / [uid_t]. *)
Definition to_uint (x : Z) : Z := x mod UINT_MOD.
(** Conversion to [int] (two's complement). *)
Definition to_int (x : Z) : Z := (x + 2 ^ 31) mod UINT_MOD - 2 ^ 31.
(** Conversion to [size_t] / [unsigned long]. *)
Definition to_size (x : Z) : Z := x mod SIZE_MOD.
(** Conversion to [long] / [ssize_t] / [off_t]. *)
Definition to_long (x : Z) : Z := (x + 2 ^ 63) mod SIZE_MOD - 2 ^ 63.
(** Conversion to [unsigned char]. *)
Definition to_uchar (x : Z) : Z := x mod 256.

(** [#define min(x, y) ((x >= y) ? y : x)] *)
Definition min (x y : Z) : Z := if x >=? y then y else x.

(** ** Error numbers and constants of the headers *)

Definition ENOMEM : Z := 12.
Definition EBUSY : Z := 16.
Definition EEXIST : Z := 17.
Definition EINVAL : Z := 22.
Definition ERANGE : Z := 34.
Definition ENAMETOOLONG : Z := 36.
Definition PATH_MAX : Z := 4096.
Definition DEFAULT_INITCAP : Z := 16.
Definition MS_NOATIME : Z := 1024.
Definition MNT_FORCE : Z := 1.
Definition O_RDWR : Z := 2.
Definition EXIT_FAILURE : Z := 1.
Definition sizeof_int : Z := 4.
Definition sizeof_ptr : Z := 8.

(** ** Byte-addressed memory of one buffer

    A buffer is a finite map from byte index (relative to the buffer's first
    byte) to the byte stored there.  An index outside the map has never been
    written; the map is not bounded by the buffer's length, so a store past
    the end of the buffer is visible in the model. *)

Abbreviation memory := (gmap Z Z).

Definition store8 (m : memory) (i v : Z) : memory := <[ i := to_uchar v ]> m.

(** [*(int * )(buffer + i) = v], little-endian. *)
Definition store32 (m : memory) (i v : Z) : memory :=
  store8 (store8 (store8 (store8 m i v) (i + 1) (v / 2 ^ 8))
                 (i + 2) (v / 2 ^ 16)) (i + 3) (v / 2 ^ 24).

(** Reading an [int] back from four bytes. *)
Definition load32 (m : memory) (i : Z) : option Z :=
  match m !! i, m !! (i + 1), m !! (i + 2), m !! (i + 3) with
  | Some b0, Some b1, Some b2, Some b3 =>
      Some (to_int (b0 + b1 * 2 ^ 8 + b2 * 2 ^ 16 + b3 * 2 ^ 24))
  | _, _, _, _ => None
  end.

(** The [n] bytes starting at the buffer's first byte, as a system call reads
    them; [None] stands for a byte that was never written. *)
Definition read_bytes (m : memory) (n : Z) : list (option Z) :=
  (λ i, m !! i) <$> seqZ 0 n.

(** [memset(buffer + i, c, n)] *)
Fixpoint memset_from (m : memory) (i c : Z) (n : nat) : memory :=
  match n with
  | O => m
  | S n' => memset_from (store8 m i c) (i + 1) c n'
  end.

Definition memset (buffer : memory) (c len : Z) : memory :=
  memset_from buffer 0 c (Z.to_nat len).

(** ** The outside world *)

Inductive call : Type :=
| c_open (path : string) (flags mode : Z)
| c_creat (path : string) (mode : Z)
| c_close (fd : Z)
| c_lseek (fd offset : Z)
| c_write (fd : Z) (data : list (option Z)) (length : Z)
| c_truncate (path : string) (length : Z)
| c_unlink (path : string)
| c_symlink (target linkpath : string)
| c_link (oldpath newpath : string)
| c_mkdir (path : string) (mode : Z)
| c_rmdir (path : string)
| c_setxattr (path name value : string) (size flags : Z)
| c_removexattr (path name : string)
| c_chown (path : string) (owner group : Z)
| c_chmod (path : string) (mode : Z)
| c_mount (source target fstype : string) (flags : Z)
| c_umount2 (target : string) (flags : Z)
| c_usleep (usec : Z)
| c_fopen (path : string)
| c_malloc (size : Z)
| c_calloc (nmemb size : Z)
| c_realloc (size : Z)
| c_rand.

(** A call succeeds with a value or fails with an error number. *)
Inductive result : Type :=
| Ok (v : Z)
| Err (e : Z).

Definition event : Type := call * result.

(** The oracle: the answer to a call, given the events so far (oldest
    first). *)
Definition oracle : Type := list event → call → result.

Record world : Type := World {
  w_trace : list event;      (* calls made so far, oldest first *)
  w_errno : Z;               (* errno *)
  w_stdout : list string;    (* lines printed to stdout *)
  w_stderr : list string;    (* lines printed to stderr *)
  w_pre : Z;                 (* int pre *)
  w_seq : Z;                 (* int seq *)
  w_n_fs : Z                 (* unsigned int n_fs *)
}.

Definition initial_world : world :=
  {| w_trace := []; w_errno := 0; w_stdout := []; w_stderr := [];
     w_pre := 0; w_seq := 0; w_n_fs := 1 |}.

(** How a computation ends. *)
Inductive outcome (A : Type) : Type :=
| Ret (a : A)        (* it returns [a] *)
| Exit (code : Z)    (* [exit(code)] *)
| Abort              (* a failed [assert] *)
| Undef              (* undefined behaviour: NULL dereference, signed overflow, ... *)
| Fuel.              (* the model's fuel ran out: the loop is still running *)
Arguments Ret {A} a.
Arguments Exit {A} code.
Arguments Abort {A}.
Arguments Undef {A}.
Arguments Fuel {A}.

Definition M (A : Type) : Type := world → outcome A * world.

Definition ret {A} (a : A) : M A := λ w, (Ret a, w).

Definition bind {A B} (m : M A) (k : A → M B) : M B :=
  λ w, match m w with
       | (Ret a, w') => k a w'
       | (Exit c, w') => (Exit c, w')
       | (Abort, w') => (Abort, w')
       | (Undef, w') => (Undef, w')
       | (Fuel, w') => (Fuel, w')
       end.

Notation "x <~ c ;; k" := (bind c (λ x, k))
  (at level 100, c at next level, right associativity, only parsing).
Notation "c ;;; k" := (bind c (λ _, k))
  (at level 100, right associativity, only parsing).

Definition exit {A} (code : Z) : M A := λ w, (Exit code, w).
Definition abort {A} : M A := λ w, (Abort, w).
Definition undef {A} : M A := λ w, (Undef, w).
Definition out_of_fuel {A} : M A := λ w, (Fuel, w).

(** [assert(b)]: a failed assertion ends the run in [Abort].  The diagnostic
    that the C library then writes on stderr, in a format of its own, is not
    recorded: [w_stderr] holds the lines that the program itself prints. *)
Definition assert (b : bool) : M unit := if b then ret tt else abort.

(** Updates of the world, one per field that changes. *)
Definition with_errno (e : Z) (w : world) : world :=
  {| w_trace := w_trace w; w_errno := e; w_stdout := w_stdout w;
     w_stderr := w_stderr w; w_pre := w_pre w; w_seq := w_seq w;
     w_n_fs := w_n_fs w |}.
Definition with_seq (s : Z) (w : world) : world :=
  {| w_trace := w_trace w; w_errno := w_errno w; w_stdout := w_stdout w;
     w_stderr := w_stderr w; w_pre := w_pre w; w_seq := s;
     w_n_fs := w_n_fs w |}.
Definition with_pre (p : Z) (w : world) : world :=
  {| w_trace := w_trace w; w_errno := w_errno w; w_stdout := w_stdout w;
     w_stderr := w_stderr w; w_pre := p; w_seq := w_seq w;
     w_n_fs := w_n_fs w |}.
Definition with_n_fs (n : Z) (w : world) : world :=
  {| w_trace := w_trace w; w_errno := w_errno w; w_stdout := w_stdout w;
     w_stderr := w_stderr w; w_pre := w_pre w; w_seq := w_seq w;
     w_n_fs := n |}.
Definition to_stdout (line : string) (w : world) : world :=
  {| w_trace := w_trace w; w_errno := w_errno w;
     w_stdout := w_stdout w ++ [line]; w_stderr := w_stderr w;
     w_pre := w_pre w; w_seq := w_seq w; w_n_fs := w_n_fs w |}.
Definition to_stderr (line : string) (w : world) : world :=
  {| w_trace := w_trace w; w_errno := w_errno w; w_stdout := w_stdout w;
     w_stderr := w_stderr w ++ [line]; w_pre := w_pre w; w_seq := w_seq w;
     w_n_fs := w_n_fs w |}.
(** The event is appended to the trace; a failure stores its error number in
    [errno], a success leaves [errno] as it was. *)
Definition record_event (ev : event) (w : world) : world :=
  {| w_trace := w_trace w ++ [ev];
     w_errno := match snd ev with Ok _ => w_errno w | Err e => e end;
     w_stdout := w_stdout w; w_stderr := w_stderr w;
     w_pre := w_pre w; w_seq := w_seq w; w_n_fs := w_n_fs w |}.

Definition get_errno : M Z := λ w, (Ret (w_errno w), w).
Definition set_errno (e : Z) : M unit := λ w, (Ret tt, with_errno e w).
Definition get_seq : M Z := λ w, (Ret (w_seq w), w).
Definition set_seq (s : Z) : M unit := λ w, (Ret tt, with_seq s w).
Definition get_pre : M Z := λ w, (Ret (w_pre w), w).
Definition set_pre (p : Z) : M unit := λ w, (Ret tt, with_pre p w).
Definition get_n_fs : M Z := λ w, (Ret (w_n_fs w), w).
Definition print_stdout (line : string) : M unit := λ w, (Ret tt, to_stdout line w).
Definition print_stderr (line : string) : M unit := λ w, (Ret tt, to_stderr line w).

(** ** The growable record store ([struct vector])

    [vdata] is [None] for a NULL [data] pointer; otherwise it lists the
    elements written so far, in slot order.  The list has no size of its
    own: the model stands for the C store as long as the block has room for
    [vcapacity] elements, that is for [vlen <= vcapacity], [0 < vcapacity]
    and sizes in bytes that fit [size_t]. *)

Record vector (A : Type) : Type := Vector {
  vdata : option (list A);
  vunitsize : Z;
  vlen : Z;
  vcapacity : Z
}.
Arguments Vector {A} _ _ _ _.
Arguments vdata {A} _.
Arguments vunitsize {A} _.
Arguments vlen {A} _.
Arguments vcapacity {A} _.

Section WithOracle.

(** [env] answers the calls; [strerror] is the C library's table of error
    descriptions; [failpos] is the value found in the uninitialised local
    [failpos] of [mountall]. *)
Context (env : oracle) (strerror : Z → string) (failpos : Z).

(** One call to the outside: the oracle's answer is recorded. *)
Definition ask (c : call) : M result := λ w,
  let r := env (w_trace w) c in (Ret r, record_event (c, r) w).

(** A system call in the C convention: the value on success, -1 on failure. *)
Definition syscall (c : call) : M Z :=
  r <~ ask c ;; ret (match r with Ok v => v | Err _ => -1 end).

(** An allocation: [true] for a usable pointer, [false] for NULL. *)
Definition alloc (c : call) : M bool :=
  r <~ ask c ;; ret (match r with Ok _ => true | Err _ => false end).

(** ** [generate_data] *)

Inductive fill_type : Type := PATTERN | ONES | BYTE_REPEAT | RANDOM_EACH_BYTE.

(** [for (int i = 0; i < new_offset; i++) buffer[i] = 0;] *)
Fixpoint pattern_pad (m : memory) (i : Z) (n : nat) : memory :=
  match n with
  | O => m
  | S n' => pattern_pad (store8 m i 0) (i + 1) n'
  end.

(** [for (int i = 0; i <= len / sizeof(int); i++) ip[i] = offset / sizeof(int) + i;]
    with [ip = (int * )(buffer + new_offset)]; [n] iterations remain. *)
Fixpoint pattern_ints (m : memory) (new_offset offset i : Z) (n : nat) : memory :=
  match n with
  | O => m
  | S n' =>
      pattern_ints
        (store32 m (new_offset + sizeof_int * i)
                 (to_int (to_size (offset / sizeof_int + i))))
        new_offset offset (i + 1) n'
  end.

(** The [while (remaining > 0)] loop of the RANDOM_EACH_BYTE case. *)
Fixpoint random_loop (fuel : nat) (m : memory) (n i remaining : Z) : memory :=
  match fuel with
  | O => m
  | S fuel' =>
      if remaining >? 0 then
        let m' := store32 m i n in
        let remaining' := remaining - min sizeof_int remaining in
        let i' := i + min sizeof_int remaining' in
        random_loop fuel' m' n i' remaining'
      else m
  end.

Definition generate_data (buffer : memory) (len offset : Z) (type : fill_type)
    (value : Z) : M memory :=
  match type with
  | ONES => ret (memset buffer 1 len)
  | BYTE_REPEAT => ret (memset buffer value len)
  | PATTERN =>
      let new_offset := to_int (3 - offset mod sizeof_int) in
      let m1 := pattern_pad buffer 0 (Z.to_nat new_offset) in
      (* the int counter [i] runs up to [len / 4 + 1] *)
      if len / sizeof_int + 1 >? INT_MAX then undef
      else ret (pattern_ints m1 new_offset offset 0 (Z.to_nat (len / sizeof_int + 1)))
  | RANDOM_EACH_BYTE =>
      n <~ syscall c_rand ;;
      ret (random_loop (Z.to_nat len) buffer n 0 len)
  end.

(** ** C strings *)

Definition strlen (s : string) : Z := Z.of_nat (String.length s).

(** The C string held in a buffer: the characters before the first NUL. *)
Fixpoint c_str (s : string) : string :=
  match s with
  | EmptyString => EmptyString
  | String c s' => if Ascii.eqb c "000" then EmptyString else String c (c_str s')
  end.

(** [strncmp(a, b, n) == 0] *)
Fixpoint strncmp_eq (a b : string) (n : nat) : bool :=
  match n with
  | O => true
  | S n' =>
      match a, b with
      | EmptyString, EmptyString => true
      | String x a', String y b' =>
          if Ascii.eqb x y then strncmp_eq a' b' n' else false
      | _, _ => false
      end
  end.

(** *** [strtok] (C library)

    [strtok] keeps the unread rest of the string in a static pointer; the
    model passes that rest explicitly.  [strtok s delim] is the call on the
    string [s] (the first argument, or the saved rest when the first argument
    is NULL): the token, if any, and the new saved rest. *)

Definition is_delim (delim : string) (c : ascii) : bool :=
  existsb (Ascii.eqb c) (list_ascii_of_string delim).

(** [s += strspn(s, delim)] *)
Fixpoint skip_delims (delim s : string) : string :=
  match s with
  | EmptyString => EmptyString
  | String c s' => if is_delim delim c then skip_delims delim s' else s
  end.

(** [strpbrk] and the cut: the token up to the first delimiter and, when a
    delimiter was found, what follows it. *)
Fixpoint cut_token (delim s : string) : string * option string :=
  match s with
  | EmptyString => (EmptyString, None)
  | String c s' =>
      if is_delim delim c then (EmptyString, Some s')
      else let '(tok, rest) := cut_token delim s' in (String c tok, rest)
  end.

Definition strtok (s delim : string) : option string * string :=
  match skip_delims delim s with
  | EmptyString => (None, EmptyString)
  | String c s' =>
      let '(tok, rest) := cut_token delim (String c s') in
      (Some tok, match rest with Some r => r | None => EmptyString end)
  end.

(** *** Operations of the record store *)

Definition _vector_init {A} (unitsize initcap : Z) : M (vector A) :=
  let initcap := if initcap <? DEFAULT_INITCAP then DEFAULT_INITCAP else initcap in
  ok <~ alloc (c_calloc initcap unitsize) ;;
  ret (Vector (if ok then Some [] else None) unitsize 0 initcap).

(** The result is the returned [int] and the vector after the call. *)
Definition vector_expand {A} (vec : vector A) : M (Z * vector A) :=
  let newcap := to_size (to_size (vunitsize vec * vcapacity vec) * 2) in
  ok <~ alloc (c_realloc newcap) ;;
  if ok then
    ret (0, Vector (Some (default [] (vdata vec))) (vunitsize vec) (vlen vec)
                   (to_size (vcapacity vec * 2)))
  else ret (ENOMEM, vec).

Definition vector_add {A} (vec : vector A) (el : A) : M (Z * vector A) :=
  rv <~ (if vlen vec >=? vcapacity vec then vector_expand vec
         else ret (0, vec)) ;;
  let '(r, vec1) := rv in
  if negb (r =? 0) then ret (r, vec1)
  else
    match vdata vec1 with
    | None => undef                          (* memcpy to a NULL base *)
    | Some l =>
        ret (0, Vector (Some (take (Z.to_nat (vlen vec1)) l ++ [el]))
                       (vunitsize vec1) (to_size (vlen vec1 + 1)) (vcapacity vec1))
    end.

Definition _vector_get {A} (vec : vector A) (index : Z) : option A :=
  if (index <? 0) || (index >=? vlen vec) then None
  else match vdata vec with
       | Some l => l !! Z.to_nat index
       | None => None
       end.

(** [*vector_get(vec, type, index)]: dereferencing NULL is undefined. *)
Definition vector_get_deref {A} (vec : vector A) (index : Z) : M A :=
  match _vector_get vec index with
  | Some x => ret x
  | None => undef
  end.

Definition _vector_peek_top {A} (vec : vector A) : option A :=
  if vlen vec =? 0 then None
  else match vdata vec with
       | Some l => l !! Z.to_nat (vlen vec - 1)
       | None => None
       end.

(** ** [extract_fields] *)

(** The [while (field)] loop.  Each round consumes at least one character of
    the saved rest [olds], so a fuel of one more than the line's length is
    never used up. *)
Fixpoint extract_loop (fuel : nat) (fields_vec : vector string)
    (field : option string) (olds : string) : M (vector string) :=
  match fuel with
  | O => out_of_fuel
  | S fuel' =>
      match field with
      | None => ret fields_vec
      | Some f =>
          let flen := strlen f in
          field_copy <~ alloc (c_malloc (to_size (flen + 1))) ;;
          assert field_copy ;;;
          rv <~ vector_add fields_vec f ;;       (* the returned int is not read *)
          let '(field', olds') := strtok olds ", " in
          extract_loop fuel' (snd rv) field' olds'
      end
  end.

Definition extract_fields (line delim : string) : M (vector string) :=
  fields_vec <~ _vector_init sizeof_ptr DEFAULT_INITCAP ;;
  let '(field, olds) := strtok line delim in
  extract_loop (S (String.length line)) fields_vec field olds.

(** ** Number parsing ([strtol], [strtoul], [atol] of the C library) *)

Definition isspace (c : ascii) : bool :=
  let n := Z.of_nat (nat_of_ascii c) in (n =? 32) || ((9 <=? n) && (n <=? 13)).

Fixpoint skip_spaces (s : string) : string :=
  match s with
  | EmptyString => EmptyString
  | String c s' => if isspace c then skip_spaces s' else s
  end.

Definition digit_of (c : ascii) : option Z :=
  let n := Z.of_nat (nat_of_ascii c) in
  if (48 <=? n) && (n <=? 57) then Some (n - 48)
  else if (97 <=? n) && (n <=? 122) then Some (n - 87)
  else if (65 <=? n) && (n <=? 90) then Some (n - 55)
  else None.

(** The value of the longest prefix of digits of the base. *)
Fixpoint digits_value (base acc : Z) (s : string) : Z :=
  match s with
  | EmptyString => acc
  | String c s' =>
      match digit_of c with
      | Some d => if d <? base then digits_value base (acc * base + d) s' else acc
      | None => acc
      end
  end.

Definition is_hex_digit (s : string) : bool :=
  match s with
  | String c _ => match digit_of c with Some d => d <? 16 | None => false end
  | EmptyString => false
  end.

(** Sign and magnitude of the subject sequence: white space, an optional
    sign, an optional base prefix, digits. *)
Definition scan_number (nptr : string) (base : Z) : bool * Z :=
  let s := skip_spaces nptr in
  let '(neg, s) :=
    match s with
    | String "-" s' => (true, s')
    | String "+" s' => (false, s')
    | _ => (false, s)
    end in
  let '(base, s) :=
    match s with
    | String "0" (String x s') =>
        if ((base =? 0) || (base =? 16))
           && ((Ascii.eqb x "x") || (Ascii.eqb x "X")) && is_hex_digit s'
        then (16, s')
        else (if base =? 0 then 8 else base, s)
    | String "0" EmptyString => (if base =? 0 then 8 else base, s)
    | _ => (if base =? 0 then 10 else base, s)
    end in
  (neg, digits_value base 0 s).

Definition strtol (nptr : string) (base : Z) : M Z :=
  let '(neg, mag) := scan_number nptr base in
  let v := if neg then - mag else mag in
  if v >? LONG_MAX then (set_errno ERANGE ;;; ret LONG_MAX)
  else if v <? LONG_MIN then (set_errno ERANGE ;;; ret LONG_MIN)
  else ret v.

Definition strtoul (nptr : string) (base : Z) : M Z :=
  let '(neg, mag) := scan_number nptr base in
  if mag >? ULONG_MAX then (set_errno ERANGE ;;; ret ULONG_MAX)
  else ret (if neg then to_size (- mag) else mag).

Definition atol (nptr : string) : M Z := strtol nptr 10.

(** ** Number formatting ([printf] conversions) *)

Definition digit_char (d : Z) : ascii := ascii_of_nat (Z.to_nat (48 + d)).

Fixpoint fmt_digits (fuel : nat) (base n : Z) (acc : string) : string :=
  match fuel with
  | O => acc
  | S fuel' =>
      let acc' := String (digit_char (n mod base)) acc in
      if n / base =? 0 then acc' else fmt_digits fuel' base (n / base) acc'
  end.

Definition fmt_unsigned (base n : Z) : string := fmt_digits 64 base n EmptyString.

(** [%d] and [%ld] *)
Definition fmt_d (n : Z) : string :=
  if n <? 0 then "-" +:+ fmt_unsigned 10 (- n) else fmt_unsigned 10 n.
(** [%lu] and [%zu] *)
Definition fmt_u (n : Z) : string := fmt_unsigned 10 n.
(** [%o] *)
Definition fmt_o (n : Z) : string := fmt_unsigned 8 (to_uint n).

Definition line_of (parts : list string) : string := String.concat EmptyString parts.

(** ** Globals *)

Definition fsys : string := "jfs".
Definition basepath : string := "/mnt/test-jfs-i1-s0".
Definition device : string := "/dev/ram0".

(** ** File primitives *)

Definition create_file (path : string) (flags mode : Z) : M Z :=
  fd <~ syscall (c_open path flags (to_uint mode)) ;;
  (if fd >=? 0 then (syscall (c_close fd) ;;; ret tt) else ret tt) ;;;
  ret (if fd >=? 0 then 0 else -1).

(** The [exit_err] label of [write_file]. *)
Definition write_file_exit_err (fd err : Z) : M Z :=
  syscall (c_close fd) ;;;
  set_errno err ;;;
  ret (-1).

Definition write_file (path : string) (flags : Z) (data : memory)
    (offset length : Z) : M Z :=
  fd <~ syscall (c_open path flags O_RDWR) ;;
  if fd <? 0 then ret (-1)
  else
    res <~ syscall (c_lseek fd offset) ;;
    if res =? -1 then (err <~ get_errno ;; write_file_exit_err fd err)
    else
      writesz <~ syscall (c_write fd (read_bytes data length) length) ;;
      if writesz <? 0 then (err <~ get_errno ;; write_file_exit_err fd err)
      else
        (if to_size writesz <? length
         then print_stderr (line_of ["Note: less data written than expected (";
                                     fmt_d writesz; " < "; fmt_u length; ")"])
         else ret tt) ;;;
        syscall (c_close fd) ;;;
        ret writesz.

(** ** The handlers of the dispatch table *)

Definition do_create_file (argvec : vector string) : M Z :=
  filepath <~ vector_get_deref argvec 1 ;;
  flagstr <~ vector_get_deref argvec 2 ;;
  modestr <~ vector_get_deref argvec 3 ;;
  fl <~ strtol flagstr 8 ;;
  let flags := to_int fl in
  md <~ strtol modestr 8 ;;
  let mode := to_int md in
  res <~ create_file filepath flags mode ;;
  e <~ get_errno ;;
  print_stdout (line_of ["create_file("; filepath; ", 0"; fmt_o flags; ", 0";
                         fmt_o mode; ") -> ret="; fmt_d res; ", errno=";
                         strerror e]) ;;;
  ret res.

Definition do_write_file (argvec : vector string) (seq : Z) : M Z :=
  filepath <~ vector_get_deref argvec 1 ;;
  flagstr <~ vector_get_deref argvec 2 ;;
  offset_str <~ vector_get_deref argvec 4 ;;
  len_str <~ vector_get_deref argvec 5 ;;
  fl <~ strtol flagstr 8 ;;
  let flags := to_int fl in
  offset <~ strtol offset_str 10 ;;
  writelen <~ strtoul len_str 10 ;;
  assert (negb (offset =? LONG_MAX)) ;;;
  assert (negb (writelen =? ULONG_MAX)) ;;;
  buffer <~ alloc (c_malloc writelen) ;;
  assert buffer ;;;
  n_fs <~ get_n_fs ;;
  if n_fs =? 0 then undef                    (* division by zero *)
  else
    (* int / unsigned int: the division is done on unsigned int *)
    let integer_to_write := to_int (to_uint seq / n_fs) in
    data <~ generate_data ∅ writelen (to_size offset) BYTE_REPEAT integer_to_write ;;
    r <~ write_file filepath flags data offset writelen ;;
    let ret_ := to_int r in
    err <~ get_errno ;;
    print_stdout (line_of ["write_file("; filepath; ", "; fmt_o flags; ", ";
                           fmt_d offset; ", "; fmt_u writelen; ") -> ret=";
                           fmt_d ret_; ", errno="; strerror err]) ;;;
    ret ret_.

Definition do_truncate (argvec : vector string) : M Z :=
  filepath <~ vector_get_deref argvec 1 ;;
  len_str <~ vector_get_deref argvec 2 ;;
  flen <~ atol len_str ;;
  r <~ syscall (c_truncate filepath flen) ;;
  err <~ get_errno ;;
  print_stdout (line_of ["truncate("; filepath; ", "; fmt_d flen; ") -> ret=";
                         fmt_d r; ", errno="; strerror err]) ;;;
  ret r.

Definition do_unlink (argvec : vector string) : M Z :=
  path <~ vector_get_deref argvec 1 ;;
  r <~ syscall (c_unlink path) ;;
  err <~ get_errno ;;
  print_stdout (line_of ["unlink("; path; ") -> ret="; fmt_d r; ", errno=";
                         strerror err]) ;;;
  ret r.

Definition do_symlink (argvec : vector string) : M Z :=
  srcpath <~ vector_get_deref argvec 1 ;;
  dstpath <~ vector_get_deref argvec 2 ;;
  r <~ syscall (c_symlink srcpath dstpath) ;;
  err <~ get_errno ;;
  print_stdout (line_of ["symlink("; srcpath; ", "; dstpath; ") -> ret=";
                         fmt_d r; ", errno="; strerror err]) ;;;
  ret r.

Definition do_link (argvec : vector string) : M Z :=
  srcpath <~ vector_get_deref argvec 1 ;;
  dstpath <~ vector_get_deref argvec 2 ;;
  r <~ syscall (c_link srcpath dstpath) ;;
  err <~ get_errno ;;
  print_stdout (line_of ["link("; srcpath; ", "; dstpath; ") -> ret=";
                         fmt_d r; ", errno="; strerror err]) ;;;
  ret r.

Definition do_mkdir (argvec : vector string) : M Z :=
  path <~ vector_get_deref argvec 1 ;;
  modestr <~ vector_get_deref argvec 2 ;;
  md <~ strtol modestr 8 ;;
  let mode := to_int md in
  r <~ syscall (c_mkdir path (to_uint mode)) ;;
  err <~ get_errno ;;
  print_stdout (line_of ["mkdir("; path; ", 0"; fmt_o mode; ") -> ret=";
                         fmt_d r; ", errno="; strerror err]) ;;;
  ret r.

Definition do_rmdir (argvec : vector string) : M Z :=
  path <~ vector_get_deref argvec 1 ;;
  r <~ syscall (c_rmdir path) ;;
  err <~ get_errno ;;
  print_stdout (line_of ["rmdir("; path; ") -> ret="; fmt_d r; ", errno=";
                         strerror err]) ;;;
  ret r.

Definition do_setxattr (argvec : vector string) : M Z :=
  path <~ vector_get_deref argvec 1 ;;
  attr_name <~ vector_get_deref argvec 2 ;;
  attr_value <~ vector_get_deref argvec 3 ;;
  size <~ vector_get_deref argvec 4 ;;
  flag <~ vector_get_deref argvec 5 ;;
  attr_size <~ strtoul size 10 ;;
  fv <~ strtol flag 0 ;;
  let flag_val := to_int fv in
  r <~ syscall (c_setxattr path attr_name attr_value attr_size flag_val) ;;
  err <~ get_errno ;;
  print_stdout (line_of ["setxattr("; path; ", "; attr_name; ", "; attr_value;
                         ", "; fmt_u attr_size; ", "; fmt_d flag_val;
                         ") -> ret="; fmt_d r; ", errno="; strerror err]) ;;;
  ret r.

Definition do_removexattr (argvec : vector string) : M Z :=
  path <~ vector_get_deref argvec 1 ;;
  attr_name <~ vector_get_deref argvec 2 ;;
  r <~ syscall (c_removexattr path attr_name) ;;
  err <~ get_errno ;;
  print_stdout (line_of ["removexattr("; path; ", "; attr_name; ") -> ret=";
                         fmt_d r; ", errno="; strerror err]) ;;;
  ret r.

Definition do_chown (argvec : vector string) : M Z :=
  path <~ vector_get_deref argvec 1 ;;
  owner_name <~ vector_get_deref argvec 2 ;;
  u <~ strtoul owner_name 10 ;;
  let uid := to_uint u in
  r <~ syscall (c_chown path uid (to_uint (-1))) ;;
  err <~ get_errno ;;
  print_stdout (line_of ["chown("; path; ", "; fmt_d (to_int uid); ") -> ret=";
                         fmt_d r; ", errno="; strerror err]) ;;;
  ret r.

Definition do_chgrp (argvec : vector string) : M Z :=
  path <~ vector_get_deref argvec 1 ;;
  group_name <~ vector_get_deref argvec 2 ;;
  g <~ strtoul group_name 10 ;;
  let gid := to_uint g in
  r <~ syscall (c_chown path (to_uint (-1)) gid) ;;
  err <~ get_errno ;;
  print_stdout (line_of ["chgrp("; path; ", "; fmt_d (to_int gid); ") -> ret=";
                         fmt_d r; ", errno="; strerror err]) ;;;
  ret r.

Definition do_chmod (argvec : vector string) : M Z :=
  path <~ vector_get_deref argvec 1 ;;
  mode_val <~ vector_get_deref argvec 2 ;;
  md <~ strtol mode_val 8 ;;
  let mode := to_uint md in
  r <~ syscall (c_chmod path mode) ;;
  err <~ get_errno ;;
  print_stdout (line_of ["chmod("; path; ", 0"; fmt_o mode; ") -> ret=";
                         fmt_d r; ", errno="; strerror err]) ;;;
  ret r.

(** ** The mount-lifecycle controller *)

(** [for (int i = 0; i < failpos; ++i) umount2(basepath, MNT_FORCE);] *)
Fixpoint undo_mounts (n : nat) : M unit :=
  match n with
  | O => ret tt
  | S n' => syscall (c_umount2 basepath MNT_FORCE) ;;; undo_mounts n'
  end.

Definition mountall : M unit :=
  r <~ syscall (c_mount device basepath fsys MS_NOATIME) ;;
  if negb (r =? 0) then
    err <~ get_errno ;;
    undo_mounts (Z.to_nat failpos) ;;;
    print_stderr (line_of ["Could not mount file system "; fsys; " in "; device;
                           " at "; basepath; " ("; strerror err; ")"]) ;;;
    exit 1
  else ret tt.

(** The [while (retry_limit > 0)] loop of [unmount_all].  It returns
    [retry_limit] and [has_failure] as they are when the loop is left. *)
Fixpoint unmount_loop (fuel : nat) (retry_limit num_retries : Z)
    (has_failure : bool) : M (Z * bool) :=
  match fuel with
  | O => out_of_fuel
  | S fuel' =>
      if retry_limit >? 0 then
        r <~ syscall (c_umount2 basepath 0) ;;
        if r =? 0 then ret (retry_limit, has_failure)       (* break *)
        else
          e <~ get_errno ;;
          if e =? EBUSY then
            let waitms := to_uint (to_int (100 * to_int (Z.shiftl 1 num_retries))) in
            print_stderr (line_of ["File system "; fsys; " mounted on "; basepath;
                                   " is busy. Retry "; fmt_d (to_int (num_retries + 1));
                                   " times,unmounting after "; fmt_d (to_int waitms);
                                   "ms."]) ;;;
            syscall (c_usleep (to_uint (1000 * waitms))) ;;;
            unmount_loop fuel' (retry_limit - 1) (num_retries + 1) has_failure
          else
            print_stderr (line_of ["Could not unmount file system "; fsys; " at ";
                                   basepath; " ("; strerror e; ")"]) ;;;
            unmount_loop fuel' retry_limit num_retries true
      else ret (retry_limit, has_failure)
  end.

Definition unmount_all (fuel : nat) (strict : bool) : M unit :=
  st <~ unmount_loop fuel 19 0 false ;;
  let '(retry_limit, has_failure) := st in
  has_failure <~ (if retry_limit =? 0 then
                    print_stderr (line_of ["Failed to unmount file system "; fsys;
                                           " at "; basepath; " after retries."]) ;;;
                    ret true
                  else ret has_failure) ;;
  if has_failure && strict then exit 1 else ret tt.

Definition unmount_all_strict (fuel : nat) : M unit := unmount_all fuel true.
Definition unmount_all_relaxed (fuel : nat) : M unit := unmount_all fuel false.

(** ** [mkdir_p] *)

(** The [for (p = _path + 1; *p; p++)] loop: [before] is the part of [_path]
    before [p], [rest] the part from [p] on.  [None] stands for [return -1];
    otherwise the loop yields [next_f] and [next_d]. *)
Fixpoint mkdir_p_loop (before rest : string) (dir_mode : Z) (next_f next_d : bool)
    : M (option (bool * bool)) :=
  match rest with
  | EmptyString => ret (Some (next_f, next_d))
  | String c rest' =>
      if Ascii.eqb c "/" then
        r <~ syscall (c_mkdir before dir_mode) ;;
        e <~ get_errno ;;
        if negb (r =? 0) && negb (e =? EEXIST) then ret None
        else
          let '(next_f', next_d') :=
            match rest' with
            | String "f" _ => (true, next_d)
            | String "d" _ => (next_f, true)
            | _ => (next_f, next_d)
            end in
          mkdir_p_loop (before +:+ "/") rest' dir_mode next_f' next_d'
      else mkdir_p_loop (before +:+ String c EmptyString) rest' dir_mode next_f next_d
  end.

Definition mkdir_p (path : string) (dir_mode file_mode : Z) : M Z :=
  let len := strlen path in
  set_errno 0 ;;;
  if len >? PATH_MAX - 1 then (set_errno ENAMETOOLONG ;;; ret (-1))
  else
    match path with
    | EmptyString => undef            (* [_path + 1] is read uninitialised *)
    | String c0 rest =>
        st <~ mkdir_p_loop (String c0 EmptyString) rest dir_mode false false ;;
        match st with
        | None => ret (-1)
        | Some (next_f, next_d) =>
            r1 <~ (if next_f then
                     fd <~ syscall (c_creat path file_mode) ;;
                     if fd >=? 0 then (syscall (c_close fd) ;;; ret 0)
                     else (e <~ get_errno ;;
                           ret (if negb (e =? EEXIST) then -1 else 0))
                   else ret 0) ;;
            if r1 <? 0 then ret (-1)
            else
              r2 <~ (if next_d then
                       r <~ syscall (c_mkdir path dir_mode) ;;
                       e <~ get_errno ;;
                       ret (if negb (r =? 0) && negb (e =? EEXIST) then -1 else 0)
                     else ret 0) ;;
              if r2 <? 0 then ret (-1) else ret 0
        end
    end.

(** ** [main] *)

Definition sequence_log_file_name : string := "jfs_op_sequence.log".
Definition file_dir_array : list string :=
  ["/d-01"; "/d-01/f-00"; "/d-00/d-01"; "/d-01/d-01"].

(** [x++] on an [int]. *)
Definition incr_int (x : Z) : M Z := if x =? INT_MAX then undef else ret (x + 1).

(** The [while (i < num_elements)] loop over the entries not yet handled. *)
Fixpoint prepopulate (entries : list string) : M unit :=
  match entries with
  | [] => ret tt
  | line :: entries' =>
      pre <~ get_pre ;;
      print_stdout (line_of ["pre="; fmt_d pre; " "]) ;;;
      let pre_path_len := strlen basepath + strlen line in
      pre_path_name <~ alloc (c_calloc 1 (to_size (pre_path_len + 1))) ;;
      if negb pre_path_name then undef          (* snprintf into NULL *)
      else
        let pre_path_name := basepath +:+ line in
        print_stdout ("pre_path_name=" +:+ pre_path_name) ;;;
        r <~ mkdir_p pre_path_name 493 420 ;;        (* 0755, 0644 *)
        if r <? 0 then
          print_stderr "mkdir_p error happened!" ;;;
          exit EXIT_FAILURE
        else
          pre' <~ incr_int pre ;;
          set_pre pre' ;;;
          prepopulate entries'
  end.

(** [getline]: the lines of the log, each with its newline when it has one. *)
Fixpoint getlines (s : string) : list string :=
  match s with
  | EmptyString => []
  | String c s' =>
      if Ascii.eqb c "010" then String c EmptyString :: getlines s'
      else match getlines s' with
           | [] => [String c EmptyString]
           | l :: ls => String c l :: ls
           end
  end.

Fixpoint drop_last_newline (s : string) : string :=
  match s with
  | EmptyString => EmptyString
  | String c EmptyString => if Ascii.eqb c "010" then EmptyString else s
  | String c s' => String c (drop_last_newline s')
  end.

(** The C string in [line] after [strncpy(line, linebuf, len)] and the
    removal of the newline at [line[len - 1]]. *)
Definition line_buffer (linebuf : string) : string :=
  let s := c_str linebuf in
  if (String.length s =? String.length linebuf)%nat then drop_last_newline s
  else s.

(** The chain of [strncmp] tests. *)
Definition dispatch (funcname : string) (argvec : vector string) (seq len : Z)
    : M unit :=
  let op name := strncmp_eq funcname name (Z.to_nat len) in
  if op "create_file" then (do_create_file argvec ;;; ret tt)
  else if op "write_file" then (do_write_file argvec seq ;;; ret tt)
  else if op "truncate" then (do_truncate argvec ;;; ret tt)
  else if op "mkdir" then (do_mkdir argvec ;;; ret tt)
  else if op "rmdir" then (do_rmdir argvec ;;; ret tt)
  else if op "symlink" then (do_symlink argvec ;;; ret tt)
  else if op "link" then (do_link argvec ;;; ret tt)
  else if op "unlink" then (do_unlink argvec ;;; ret tt)
  else if op "chmod" then (do_chmod argvec ;;; ret tt)
  else if op "chgrp_file" then (do_chgrp argvec ;;; ret tt)
  else if op "chown_file" then (do_chown argvec ;;; ret tt)
  else if op "removexattr" then (do_removexattr argvec ;;; ret tt)
  else if op "setxattr" then (do_setxattr argvec ;;; ret tt)
  else print_stdout ("Unrecognized op: " +:+ funcname).

(** One round of the replay loop, for the line [linebuf] that [getline]
    returned. *)
Definition replay_line (fuel : nat) (linebuf : string) : M unit :=
  let len := strlen linebuf in
  line <~ alloc (c_malloc (to_size (len + 1))) ;;
  if negb line then undef                        (* line[len] = 0 on NULL *)
  else
    let line := line_buffer linebuf in
    seq <~ get_seq ;;
    print_stdout (line_of ["seq="; fmt_d seq; " "]) ;;;
    argvec <~ extract_fields line ", " ;;
    funcname <~ vector_get_deref argvec 0 ;;
    mountall ;;;
    dispatch funcname argvec seq len ;;;
    seq' <~ incr_int seq ;;
    set_seq seq' ;;;
    unmount_all_strict fuel ;;;
    set_errno 0.
    (* free(line) and destroy_fields(&argvec) release memory only *)

Fixpoint replay_lines (fuel : nat) (lines : list string) : M unit :=
  match lines with
  | [] => ret tt
  | linebuf :: lines' => replay_line fuel linebuf ;;; replay_lines fuel lines'
  end.

(** [log] is the content of the sequence log, read when [fopen] succeeds;
    [fuel] bounds the rounds of each unmount loop. *)
Definition main (fuel : nat) (log : string) : M Z :=
  seqfp <~ alloc (c_fopen sequence_log_file_name) ;;
  if negb seqfp then
    print_stdout (line_of ["Cannot open "; sequence_log_file_name;
                           ". Does it exist?"]) ;;;
    exit 1
  else
    mountall ;;;
    prepopulate file_dir_array ;;;
    unmount_all_strict fuel ;;;
    replay_lines fuel (getlines log) ;;;
    ret 0.

End WithOracle.

(** ** Sample oracles *)

(** Every call succeeds: [open] and [creat] yield descriptor 3, [lseek] the
    offset asked for, [write] the full length, everything else 0. *)
Definition ideal_env : oracle := λ _ c,
  match c with
  | c_open _ _ _ | c_creat _ _ => Ok 3
  | c_lseek _ offset => Ok offset
  | c_write _ _ length => Ok length
  | c_malloc _ | c_calloc _ _ | c_realloc _ | c_fopen _ => Ok 1
  | _ => Ok 0
  end.

(** As [ideal_env], with a [rand] that returns the number of calls made
    before it. *)
Definition counting_env : oracle := λ h c,
  match c with
  | c_rand => Ok (Z.of_nat (length h))
  | _ => ideal_env h c
  end.

(** A [strerror] table that only names the error number. *)
Definition errno_name (e : Z) : string := "errno " +:+ fmt_d e.

Definition is_umount2 (ev : event) : bool :=
  match ev with (c_umount2 _ _, _) => true | _ => false end.

(** The unmount attempts in a trace. *)
Definition umount_attempts (evs : list event) : Z :=
  Z.of_nat (length (filter (λ ev, is_umount2 ev = true) evs)).

(** Fails [umount2] with EBUSY for the first [k] attempts, then succeeds;
    every other call succeeds. *)
Definition busy_env (k : Z) : oracle := λ h c,
  match c with
  | c_umount2 _ _ => if umount_attempts h <? k then Err EBUSY else Ok 0
  | _ => ideal_env h c
  end.

(** Fails the first [umount2] with EINVAL; every other call succeeds. *)
Definition einval_once_env : oracle := λ h c,
  match c with
  | c_umount2 _ _ => if umount_attempts h <? 1 then Err EINVAL else Ok 0
  | _ => ideal_env h c
  end.

(** Fails every [umount2] with EINVAL. *)
Definition einval_env : oracle := λ h c,
  match c with
  | c_umount2 _ _ => Err EINVAL
  | _ => ideal_env h c
  end.

(** Cannot grow a block: [realloc] fails, every other call succeeds. *)
Definition no_realloc_env : oracle := λ h c,
  match c with
  | c_realloc _ => Err ENOMEM
  | _ => ideal_env h c
  end.

(** ** Observations on traces *)

(** The microseconds asked of [usleep], summed. *)
Definition usleep_usec (ev : event) : Z :=
  match ev with (c_usleep usec, _) => usec | _ => 0 end.

Definition total_usleep (evs : list event) : Z :=
  foldr (λ ev acc, usleep_usec ev + acc) 0 evs.

(** [sub] occurs in [s]. *)
Fixpoint contains (s sub : string) : bool :=
  String.prefix sub s ||
  match s with
  | EmptyString => false
  | String _ s' => contains s' sub
  end.

(** The calls that act on the mounted file system. *)
Definition is_fs_call (c : call) : bool :=
  match c with
  | c_open _ _ _ | c_creat _ _ | c_close _ | c_lseek _ _ | c_write _ _ _
  | c_truncate _ _ | c_unlink _ | c_symlink _ _ | c_link _ _ | c_mkdir _ _
  | c_rmdir _ | c_setxattr _ _ _ _ _ | c_removexattr _ _ | c_chown _ _ _
  | c_chmod _ _ => true
  | _ => false
  end.






(** The offsets asked of [lseek], in order. *)
Definition lseek_offsets (evs : list event) : list Z :=
  omap (λ ev, match ev with (c_lseek _ offset, _) => Some offset | _ => None end) evs.

(** The buffers handed to [write], in order. *)
Definition written_buffers (evs : list event) : list (list (option Z)) :=
  omap (λ ev, match ev with (c_write _ data _, _) => Some data | _ => None end) evs.

(** [data] is a buffer of length [len] generated under the BYTE_REPEAT policy
    with auxiliary value [aux]. *)
Definition byte_repeat_payload (aux len : Z) (data : list (option Z)) : Prop :=
  ∀ (env : oracle) offset w,
    ∃ m, generate_data env ∅ len offset BYTE_REPEAT aux w = (Ret m, w)
         ∧ data = read_bytes m len.

(** Every [write] of the trace is handed such a buffer. *)
Definition payload_ok (aux : Z) (ev : event) : Prop :=
  match ev with
  | (c_write _ data len, _) => byte_repeat_payload aux len data
  | _ => True
  end.

(** The world has instance count [n] and has seen, since the trace [tr0],
    only writes of BYTE_REPEAT buffers of auxiliary value [aux]. *)
Definition writes_repeat (tr0 : list event) (aux n : Z) (w : world) : Prop :=
  w_n_fs w = n ∧ ∃ evs, w_trace w = tr0 ++ evs ∧ Forall (payload_ok aux) evs.

(** The record of the scenario, as [getline] returns it. *)
Definition scenario_record : string :=
  "write_file, /d-01/f-00, 02, 0, 4096, 4096" +:+ String "010" EmptyString.

(** The tokenizer's contract, in the specification's words: the non-empty
    fields of [s] separated by characters of [delim], in their order. *)
Fixpoint fields (delim s : string) {struct s} : list string :=
  match s with
  | EmptyString => []
  | String c s' =>
      let rest := fields delim s' in
      if is_delim delim c then rest
      else
        match s' with
        | EmptyString => [String c EmptyString]
        | String c' _ =>
            if is_delim delim c' then String c EmptyString :: rest
            else match rest with
                 | f :: fs => String c f :: fs
                 | [] => [String c EmptyString]
                 end
        end
  end.

(** A record of seventeen fields, and the log that holds just this record. *)
Definition long_record : string :=
  "setxattr /d-01/f-00 user.k v01 v02 v03 v04 v05 v06 v07 v08 v09 v10 v11 v12 v13 v14".
Definition long_record_log : string := long_record +:+ String "010" EmptyString.

(** A path of 4096 characters. *)
Definition long_path : string :=
  string_of_list_ascii (List.repeat "a"%char 4096).

(** The oracle never reports a failure. *)
Definition never_fails (env : oracle) : Prop := ∀ h c, ∃ v, env h c = Ok v.

(** The argument of the [usleep] of retry number [i] (from 0), as
    [unmount_all] computes it. *)
Definition backoff_usec (i : Z) : Z :=
  to_uint (1000 * to_uint (to_int (100 * to_int (Z.shiftl 1 i)))).

(** The arguments of [d] retries in a row, from retry number [j] on, summed. *)
Fixpoint sum_backoff (j : Z) (d : nat) : Z :=
  match d with
  | O => 0
  | S d' => backoff_usec j + sum_backoff (j + 1) d'
  end.



(** A log of two records, the second without its newline. *)
Definition sample_log : string :=
  "mkdir, /mnt/test-jfs-i1-s0/d-02, 0755" +:+ String "010" EmptyString
  +:+ "write_file, /mnt/test-jfs-i1-s0/d-01/f-00, 02, 0, 0, 8".

(** ** Specifications of computations

    [hoare P m Q E]: from a world in [P], [m] either returns [a] in a world in
    [Q a], or ends otherwise (exit, abort, undefined behaviour, fuel) in a
    world in [E]. *)
Definition hoare {A} (P : world → Prop) (m : M A) (Q : A → world → Prop)
    (E : world → Prop) : Prop :=
  ∀ w, P w →
    match m w with
    | (Ret a, w') => Q a w'
    | (_, w') => E w'
    end.

(** A condition on worlds that the bookkeeping fields do not affect. *)
Record stable (I : world → Prop) : Prop := {
  stable_errno : ∀ e w, I w → I (with_errno e w);
  stable_pre : ∀ p w, I w → I (with_pre p w);
  stable_stdout : ∀ l w, I w → I (to_stdout l w);
  stable_stderr : ∀ l w, I w → I (to_stderr l w)
}.

(** [I] survives the call [c], whatever the answer. *)
Definition tolerates (I : world → Prop) (c : call) : Prop :=
  ∀ r w, I w → I (record_event (c, r) w).

(** [m] keeps [I], however it ends. *)
Definition keeps {A} (I : world → Prop) (m : M A) : Prop :=
  hoare I m (λ _, I) I.

(** ** Definitions for the further properties *)

(** The store [vec] holds the elements [l]: its data pointer is not NULL and
    [len] counts them. *)
Definition holds {A} (vec : vector A) (l : list A) : Prop :=
  vdata vec = Some l ∧ vlen vec = Z.of_nat (length l).

(** The [realloc] calls in a trace. *)
Definition is_realloc (ev : event) : bool :=
  match ev with (c_realloc _, _) => true | _ => false end.

Definition reallocs (evs : list event) : nat :=
  length (filter (λ ev, is_realloc ev = true) evs).

(** The operation names that [main] tests for, in the order of its tests. *)
Definition op_names : list string :=
  ["create_file"; "write_file"; "truncate"; "mkdir"; "rmdir"; "symlink"; "link";
   "unlink"; "chmod"; "chgrp_file"; "chown_file"; "removexattr"; "setxattr"].

(** The string holds none of the delimiters. *)
Definition delimiter_free (delim f : string) : bool :=
  forallb (λ c, negb (is_delim delim c)) (list_ascii_of_string f).

(** The allocator hands out blocks but cannot grow one: [malloc] and
    [calloc] succeed, [realloc] fails. *)
Definition cannot_grow (env : oracle) : Prop :=
  ∀ h c, match c with
         | c_realloc _ => ∃ e, env h c = Err e
         | c_malloc _ | c_calloc _ _ => ∃ v, env h c = Ok v
         | _ => True
         end.

Definition is_usleep (ev : event) : bool :=
  match ev with (c_usleep _, _) => true | _ => false end.

(** The waits in a trace. *)
Definition usleeps (evs : list event) : Z :=
  Z.of_nat (length (filter (λ ev, is_usleep ev = true) evs)).

(** A failed unmount attempt in the trace failed because the device was
    busy. *)
Definition busy_or_ok (ev : event) : Prop :=
  match ev with
  | (c_umount2 _ _, Err e) => e = EBUSY
  | _ => True
  end.

(** The character of [path] at index [i] is a '/'. *)
Definition slash_at (path : string) (i : nat) : bool :=
  match String.get i path with
  | Some c => Ascii.eqb c "/"
  | None => false
  end.

(** The parts of [path] before each '/' at an index from [n] on, shortest
    first. *)
Definition ancestors_from (n : nat) (path : string) : list string :=
  map (λ i, String.substring 0 i path)
      (filter (λ i, slash_at path i = true) (seq n (String.length path - n))).

(** The ancestors of [path]: one for each '/' that is not its first
    character. *)
Definition ancestors (path : string) : list string := ancestors_from 1 path.

(** Some '/' of [path] at an index from [n] on is followed by [c]. *)
Definition component_starts_from (n : nat) (path : string) (c : ascii) : bool :=
  existsb (λ i, slash_at path i
                && match String.get (S i) path with
                   | Some x => Ascii.eqb x c
                   | None => false
                   end)
          (seq n (String.length path - n)).

Definition component_starts (path : string) (c : ascii) : bool :=
  component_starts_from 1 path c.

(** Creating what exists is the only failure: [mkdir] answers 0 or EEXIST,
    [creat] a descriptor or EEXIST. *)
Definition tolerant (env : oracle) : Prop :=
  ∀ h c, match c with
         | c_mkdir _ _ => env h c = Ok 0 ∨ env h c = Err EEXIST
         | c_creat _ _ => (∃ fd, 0 ≤ fd ∧ env h c = Ok fd) ∨ env h c = Err EEXIST
         | _ => True
         end.

Definition is_close (c : call) : bool :=
  match c with c_close _ => true | _ => false end.

(** What [mkdir_p] is to create for [path]: the ancestors, then the path
    itself as a file when a component starts with 'f', and as a directory
    when a component starts with 'd'. *)
Definition mkdir_p_plan (path : string) (dir_mode file_mode : Z) : list call :=
  map (λ p, c_mkdir p dir_mode) (ancestors path)
  ++ (if component_starts path "f" then [c_creat path file_mode] else [])
  ++ (if component_starts path "d" then [c_mkdir path dir_mode] else []).

(** Refuses the [mkdir] of [p] with EINVAL; every other call succeeds. *)
Definition refuse_mkdir_env (p : string) : oracle := λ h c,
  match c with
  | c_mkdir q _ => if String.eqb q p then Err EINVAL else Ok 0
  | _ => ideal_env h c
  end.

Definition is_allocation (c : call) : bool :=
  match c with
  | c_malloc _ | c_calloc _ _ | c_realloc _ => true
  | _ => false
  end.

(** The calls that create a directory or a file. *)
Definition is_creation (c : call) : bool :=
  match c with
  | c_mkdir _ _ | c_creat _ _ => true
  | _ => false
  end.

(** The handlers that make one file-system request from the fields of a
    record (all but [do_write_file]), each with the number of fields it
    reads up to. *)
Definition simple_handlers (env : oracle) (strerror : Z → string)
    : list (nat * (vector string → M Z)) :=
  [(4%nat, do_create_file env strerror); (3%nat, do_truncate env strerror);
   (2%nat, do_unlink env strerror); (3%nat, do_symlink env strerror);
   (3%nat, do_link env strerror); (3%nat, do_mkdir env strerror);
   (2%nat, do_rmdir env strerror); (6%nat, do_setxattr env strerror);
   (3%nat, do_removexattr env strerror); (3%nat, do_chown env strerror);
   (3%nat, do_chgrp env strerror); (3%nat, do_chmod env strerror)].

(** The number of fields that the handler of [op] reads up to; none for a
    name that is not an operation. *)
Definition fields_needed (op : string) : nat :=
  if String.eqb op "create_file" then 4
  else if String.eqb op "write_file" then 6
  else if String.eqb op "truncate" then 3
  else if String.eqb op "mkdir" then 3
  else if String.eqb op "rmdir" then 2
  else if String.eqb op "symlink" then 3
  else if String.eqb op "link" then 3
  else if String.eqb op "unlink" then 2
  else if String.eqb op "chmod" then 3
  else if String.eqb op "chgrp_file" then 3
  else if String.eqb op "chown_file" then 3
  else if String.eqb op "removexattr" then 3
  else if String.eqb op "setxattr" then 6
  else 0.

(** An environment in which the replay cannot go wrong: no call fails,
    [mkdir] and [creat] answer as [tolerant] asks, and the mount and the
    unmount of the base path answer 0. *)
Definition cooperative (env : oracle) : Prop :=
  never_fails env ∧ tolerant env
  ∧ (∀ h, env h (c_mount device basepath fsys MS_NOATIME) = Ok 0)
  ∧ (∀ h, env h (c_umount2 basepath 0) = Ok 0).

(** A line of the log, as [getline] returns it, that is a complete record of
    an operation other than write_file: it has an operation name and at
    least one more field, and as many fields as the handler reads. *)
Definition complete_record (linebuf : string) : Prop :=
  ∃ op rest,
    fields ", " (line_buffer linebuf) = op :: rest
    ∧ rest ≠ []
    ∧ op ≠ "write_file"
    ∧ (fields_needed op ≤ S (length rest))%nat
    ∧ Z.of_nat (String.length linebuf) < SIZE_MOD.

(** ** What a handler reports *)





(** ** The shape of a round of the replay loop *)















(** * Properties *)

(** ** Machine integers and memory *)

Lemma to_int_mod x : to_int (x mod UINT_MOD) = to_int x.
Proof.
  unfold to_int, UINT_MOD. f_equal.
  now rewrite Zplus_mod_idemp_l.
Qed.

Lemma to_int_to_size x : to_int (to_size x) = to_int x.
Proof.
  unfold to_int, to_size, SIZE_MOD, UINT_MOD. f_equal.
  rewrite <- (Zplus_mod_idemp_l x), <- (Zplus_mod_idemp_l (x mod 2 ^ 64)).
  f_equal. f_equal.
  change (2 ^ 64) with (2 ^ 32 * 2 ^ 32).
  rewrite Z.rem_mul_r by lia.
  rewrite Z.mul_comm, Z_mod_plus_full. apply Z.mod_mod. lia.
Qed.

Lemma to_int_idem x : to_int (to_int x) = to_int x.
Proof.
  unfold to_int, UINT_MOD.
  replace ((x + 2 ^ 31) mod 2 ^ 32 - 2 ^ 31 + 2 ^ 31)
    with ((x + 2 ^ 31) mod 2 ^ 32) by lia.
  now rewrite Z.mod_mod by lia.
Qed.

Lemma to_int_small x : - 2 ^ 31 ≤ x < 2 ^ 31 → to_int x = x.
Proof. intros H. unfold to_int, UINT_MOD. rewrite Z.mod_small; lia. Qed.

Lemma to_uint_small x : 0 ≤ x < 2 ^ 32 → to_uint x = x.
Proof. intros H. unfold to_uint, UINT_MOD. apply Z.mod_small. lia. Qed.

(** Four little-endian bytes make the value modulo 2^32. *)
Lemma le_bytes v :
  v mod 256 + (v / 2 ^ 8) mod 256 * 2 ^ 8 + (v / 2 ^ 16) mod 256 * 2 ^ 16
    + (v / 2 ^ 24) mod 256 * 2 ^ 24 = v mod 2 ^ 32.
Proof.
  change (2 ^ 32) with (256 * (256 * (256 * 256))).
  rewrite !Z.rem_mul_r by lia.
  change (2 ^ 16) with (256 * 256). change (2 ^ 24) with (256 * 256 * 256).
  change (2 ^ 8) with 256.
  rewrite <- !Z.div_div by lia. lia.
Qed.

Lemma load32_store32 (m : memory) i v : load32 (store32 m i v) i = Some (to_int v).
Proof.
  unfold load32, store32, store8.
  rewrite !lookup_insert.
  repeat (case_decide; try lia).
  unfold to_uchar. rewrite le_bytes. f_equal. apply to_int_mod.
Qed.

Lemma store32_lookup_other (m : memory) i v j :
  j < i ∨ i + 4 ≤ j → store32 m i v !! j = m !! j.
Proof.
  intros H. unfold store32, store8. rewrite !lookup_insert.
  repeat (case_decide; try lia). reflexivity.
Qed.

Lemma load32_ext (m1 m2 : memory) i :
  (∀ j, i ≤ j < i + 4 → m1 !! j = m2 !! j) → load32 m1 i = load32 m2 i.
Proof.
  intros H. unfold load32.
  rewrite (H i), (H (i + 1)), (H (i + 2)), (H (i + 3)) by lia. reflexivity.
Qed.

Lemma memset_from_lookup n : ∀ (m : memory) i c j,
  memset_from m i c n !! j =
  if decide (i ≤ j < i + Z.of_nat n) then Some (to_uchar c) else m !! j.
Proof.
  induction n as [|n IH]; intros m i c j; simpl.
  - case_decide; [lia | reflexivity].
  - rewrite IH. unfold store8. rewrite lookup_insert.
    repeat case_decide; try reflexivity; lia.
Qed.

(** After [memset(buffer, c, len)] the buffer is [len] copies of the byte. *)
Lemma read_bytes_memset (m : memory) c len :
  read_bytes (memset m c len) len = replicate (Z.to_nat len) (Some (to_uchar c)).
Proof.
  apply list_eq. intros i. unfold read_bytes, memset.
  rewrite list_lookup_fmap.
  destruct (decide (Z.of_nat i < len)) as [Hlt|Hge].
  - rewrite lookup_seqZ_lt by assumption. simpl.
    rewrite memset_from_lookup. rewrite decide_True by lia.
    symmetry. apply lookup_replicate_2. lia.
  - rewrite lookup_seqZ_ge by lia. simpl.
    symmetry. apply lookup_replicate_None. lia.
Qed.

(** ** The PATTERN policy *)

Lemma pattern_pad_lookup n : ∀ (m : memory) i j,
  pattern_pad m i n !! j =
  if decide (i ≤ j < i + Z.of_nat n) then Some 0 else m !! j.
Proof.
  induction n as [|n IH]; intros m i j; simpl.
  - case_decide; [lia | reflexivity].
  - rewrite IH. unfold store8. rewrite lookup_insert.
    repeat case_decide; try reflexivity; lia.
Qed.

(** The integer loop leaves everything below its first store alone. *)
Lemma pattern_ints_below n : ∀ (m : memory) new_offset offset i j,
  j < new_offset + sizeof_int * i →
  pattern_ints m new_offset offset i n !! j = m !! j.
Proof.
  induction n as [|n IH]; intros m no off i j Hj; simpl; [reflexivity|].
  unfold sizeof_int in *.
  rewrite IH by (unfold sizeof_int; lia).
  apply store32_lookup_other. lia.
Qed.

Lemma pattern_ints_load n : ∀ (m : memory) new_offset offset i k,
  i ≤ k < i + Z.of_nat n →
  load32 (pattern_ints m new_offset offset i n) (new_offset + sizeof_int * k)
  = Some (to_int (offset / sizeof_int + k)).
Proof.
  induction n as [|n IH]; intros m no off i k Hk; simpl; [lia|].
  destruct (decide (k = i)) as [->|Hne].
  - erewrite load32_ext.
    + rewrite load32_store32, to_int_idem, to_int_to_size. reflexivity.
    + intros j Hj. apply pattern_ints_below. unfold sizeof_int in *. lia.
  - apply IH. lia.
Qed.

Lemma pattern_new_offset offset :
  to_int (3 - offset mod sizeof_int) = 3 - offset mod sizeof_int
  ∧ 0 ≤ 3 - offset mod sizeof_int ≤ 3.
Proof.
  unfold sizeof_int.
  pose proof (Z.mod_pos_bound offset 4 ltac:(lia)) as H.
  split; [apply to_int_small|]; lia.
Qed.

(** What the PATTERN case leaves in the buffer: the pad, then the integers. *)
Lemma pattern_fill (env : oracle) (buffer : memory) len offset value w :
  0 ≤ len → 0 ≤ offset → len / 4 + 1 ≤ INT_MAX →
  ∃ m, generate_data env buffer len offset PATTERN value w = (Ret m, w)
    ∧ (∀ i, 0 ≤ i < 3 - offset mod 4 → m !! i = Some 0)
    ∧ (∀ k, 0 ≤ k ≤ len / 4 →
         load32 m (3 - offset mod 4 + 4 * k) = Some (to_int (offset / 4 + k)))
    ∧ (∀ k, 0 ≤ k ≤ len / 4 → offset / 4 + k < 2 ^ 31 →
         load32 m (3 - offset mod 4 + 4 * k) = Some (offset / 4 + k)).
Proof.
  intros Hlen Hoff Hcnt.
  destruct (pattern_new_offset offset) as [Hno Hrange].
  unfold generate_data, ret. rewrite Hno.
  change sizeof_int with 4 in *.
  destruct (len / 4 + 1 >? INT_MAX) eqn:Hgt; [lia|].
  eexists. split; [reflexivity|].
  assert (Hload : ∀ k, 0 ≤ k ≤ len / 4 →
    load32 (pattern_ints (pattern_pad buffer 0 (Z.to_nat (3 - offset mod 4)))
              (3 - offset mod 4) offset 0 (Z.to_nat (len / 4 + 1)))
           (3 - offset mod 4 + 4 * k) = Some (to_int (offset / 4 + k))).
  { intros k Hk.
    apply (pattern_ints_load (Z.to_nat (len / 4 + 1)) _ (3 - offset mod 4) offset 0 k).
    pose proof (Z.div_pos len 4). lia. }
  split; [|split].
  - intros i Hi.
    rewrite pattern_ints_below by (change sizeof_int with 4; lia).
    rewrite pattern_pad_lookup. apply decide_True. lia.
  - exact Hload.
  - intros k Hk Hsmall. rewrite Hload by assumption. f_equal.
    apply to_int_small. pose proof (Z.div_pos offset 4). lia.
Qed.

(** C2 (as amended).  Under the PATTERN policy, for every offset and every
    length whose integer count [len / 4 + 1] fits the [int] loop counter, the
    generator returns a buffer in which the bytes of the pad, the first
    [3 - offset mod 4] bytes of the buffer, are zero and in which every
    4-byte integer at relative position [k] after that pad that lies within
    the buffer is [offset / 4 + k] reduced to a 32-bit two's-complement
    [int]; it is [offset / 4 + k] itself whenever that is below 2^31.
    Nothing is said of the bytes that do not belong to such an integer. *)
Theorem pattern_layout (env : oracle) (buffer : memory) len offset value w :
  0 ≤ len → 0 ≤ offset → len / 4 + 1 ≤ INT_MAX →
  ∃ m, generate_data env buffer len offset PATTERN value w = (Ret m, w)
    ∧ (∀ i, 0 ≤ i < 3 - offset mod 4 → i < len → m !! i = Some 0)
    ∧ (∀ k, 0 ≤ k → 3 - offset mod 4 + 4 * k + 4 ≤ len →
         load32 m (3 - offset mod 4 + 4 * k) = Some (to_int (offset / 4 + k)))
    ∧ (∀ k, 0 ≤ k → 3 - offset mod 4 + 4 * k + 4 ≤ len →
         offset / 4 + k < 2 ^ 31 →
         load32 m (3 - offset mod 4 + 4 * k) = Some (offset / 4 + k)).
Proof.
  intros Hlen Hoff Hcnt.
  destruct (pattern_fill env buffer len offset value w Hlen Hoff Hcnt)
    as (m & Hrun & Hpad & Hint & Hsmall).
  pose proof (Z.mod_pos_bound offset 4 ltac:(lia)) as Hmod.
  assert (Hin : ∀ k, 0 ≤ k → 3 - offset mod 4 + 4 * k + 4 ≤ len → 0 ≤ k ≤ len / 4).
  { intros k Hk Hfit. split; [exact Hk|].
    apply Z.div_le_lower_bound; lia. }
  exists m. split; [exact Hrun|]. split; [|split].
  - intros i Hi _. apply Hpad. exact Hi.
  - intros k Hk Hfit. apply Hint. apply Hin; assumption.
  - intros k Hk Hfit Hlt. apply Hsmall; [apply Hin; assumption | exact Hlt].
Qed.

Lemma pattern_layout_witness :
  ∃ m, generate_data ideal_env ∅ 10 6 PATTERN 0 initial_world = (Ret m, initial_world)
    ∧ (∀ i, 0 ≤ i < 3 - 6 mod 4 → i < 10 → m !! i = Some 0)
    ∧ (∀ k, 0 ≤ k → 3 - 6 mod 4 + 4 * k + 4 ≤ 10 →
         load32 m (3 - 6 mod 4 + 4 * k) = Some (to_int (6 / 4 + k)))
    ∧ (∀ k, 0 ≤ k → 3 - 6 mod 4 + 4 * k + 4 ≤ 10 →
         6 / 4 + k < 2 ^ 31 →
         load32 m (3 - 6 mod 4 + 4 * k) = Some (6 / 4 + k)).
Proof.
  apply (pattern_layout ideal_env ∅ 10 6 0 initial_world); [lia | lia | ].
  vm_compute. discriminate.
Defined.

(** C2 as stated fails: in a buffer of 8 bytes at offset 2^34 the first
    integer after the pad lies within the buffer, at bytes 3 to 6, and is 0,
    not [offset / 4 + 0 = 2^32], which no 4-byte integer can hold. *)
Lemma pattern_int_wraps :
  ∃ m, generate_data ideal_env ∅ 8 (2 ^ 34) PATTERN 0 initial_world
       = (Ret m, initial_world)
    ∧ 3 - 2 ^ 34 mod 4 + 4 * 0 + 4 ≤ 8
    ∧ load32 m (3 - 2 ^ 34 mod 4 + 4 * 0) = Some 0
    ∧ 2 ^ 34 / 4 + 0 = 4294967296
    ∧ load32 m (3 - 2 ^ 34 mod 4 + 4 * 0) ≠ Some (2 ^ 34 / 4 + 0).
Proof.
  eexists. split; [reflexivity|].
  split; [vm_compute; discriminate|].
  split; [vm_compute; reflexivity|].
  split; [reflexivity|].
  vm_compute. discriminate.
Qed.

(** Whatever the length, the integer loop of the PATTERN policy stores a last
    whole integer that ends at or beyond index [len]: nothing clips it. *)
Lemma pattern_last_store_past_end (env : oracle) len offset value w :
  0 ≤ len → 0 ≤ offset → len / 4 + 1 ≤ INT_MAX →
  ∃ m i, generate_data env ∅ len offset PATTERN value w = (Ret m, w)
    ∧ len ≤ i ∧ is_Some (m !! i).
Proof.
  intros Hlen Hoff Hcnt.
  destruct (pattern_fill env ∅ len offset value w Hlen Hoff Hcnt)
    as (m & Hrun & _ & Hload & _).
  exists m, (3 - offset mod 4 + 4 * (len / 4) + 3).
  split; [exact Hrun|].
  pose proof (Z.mod_pos_bound offset 4 ltac:(lia)).
  pose proof (Z.div_mod len 4 ltac:(lia)).
  pose proof (Z.mod_pos_bound len 4 ltac:(lia)).
  pose proof (Z.div_pos len 4 Hlen ltac:(lia)).
  split; [lia|].
  specialize (Hload (len / 4) ltac:(lia)).
  unfold load32 in Hload.
  destruct (m !! (3 - offset mod 4 + 4 * (len / 4) + 3)) eqn:E; [eauto|].
  repeat match type of Hload with
         | match ?x with _ => _ end = _ => destruct x
         end; discriminate.
Qed.

(** C3 at the failing input: for a 5-byte buffer at offset 0 the PATTERN
    policy stores the six bytes at indices 5 to 10, beyond the buffer; the
    second integer (value 1) lies wholly outside it. *)
Theorem pattern_overruns_buffer_of_5 :
  ∃ m, generate_data ideal_env ∅ 5 0 PATTERN 0 initial_world = (Ret m, initial_world)
    ∧ dom m = list_to_set (seqZ 0 11)
    ∧ m !! 5 = Some 0 ∧ m !! 6 = Some 0 ∧ m !! 7 = Some 1
    ∧ m !! 8 = Some 0 ∧ m !! 9 = Some 0 ∧ m !! 10 = Some 0.
Proof.
  eexists. split; [reflexivity|].
  split; [|vm_compute; tauto].
  apply set_eq. intros x. rewrite elem_of_dom, elem_of_list_to_set, elem_of_seqZ.
  split.
  - intros [v Hv].
    destruct (decide (0 ≤ x < 0 + 11)) as [|Hout]; [assumption|].
    exfalso. revert Hv.
    change (pattern_ints (pattern_pad ∅ 0 (Z.to_nat (to_int (3 - 0 mod sizeof_int))))
              (to_int (3 - 0 mod sizeof_int)) 0 0 (Z.to_nat (5 / sizeof_int + 1)))
      with (store32 (store32 (store8 (store8 (store8 (∅ : memory) 0 0) 1 0) 2 0) 3 0) 7 1).
    unfold store32, store8. rewrite !lookup_insert, lookup_empty.
    repeat (case_decide; [lia|]). discriminate.
  - intros Hx.
    assert (x = 0 ∨ x = 1 ∨ x = 2 ∨ x = 3 ∨ x = 4 ∨ x = 5 ∨ x = 6 ∨ x = 7
            ∨ x = 8 ∨ x = 9 ∨ x = 10) as Hc by lia.
    repeat destruct Hc as [->|Hc]; try subst x; vm_compute; eauto.
Qed.

(** Two buffers on which the same bytes are stored agree there afterwards. *)
Lemma store32_agree (m1 m2 : memory) i v j :
  m1 !! j = m2 !! j ∨ i ≤ j < i + 4 →
  store32 m1 i v !! j = store32 m2 i v !! j.
Proof.
  intros H. unfold store32, store8. rewrite !lookup_insert.
  repeat case_decide; try reflexivity. destruct H as [H|H]; [exact H | lia].
Qed.

Lemma pattern_ints_agree n : ∀ (m1 m2 : memory) new_offset offset i j,
  m1 !! j = m2 !! j
  ∨ new_offset + 4 * i ≤ j < new_offset + 4 * (i + Z.of_nat n) →
  pattern_ints m1 new_offset offset i n !! j
  = pattern_ints m2 new_offset offset i n !! j.
Proof.
  induction n as [|n IH]; intros m1 m2 no off i j H; cbn [pattern_ints].
  - destruct H as [H|H]; [exact H | lia].
  - apply IH. change sizeof_int with 4.
    destruct (decide (no + 4 * i ≤ j < no + 4 * i + 4)) as [Hin|Hout].
    + left. apply store32_agree. right. exact Hin.
    + destruct H as [H|H].
      * left. apply store32_agree. left. exact H.
      * right. lia.
Qed.

Lemma pattern_ints_written n : ∀ (m : memory) new_offset offset i j,
  new_offset + 4 * i ≤ j < new_offset + 4 * (i + Z.of_nat n) →
  is_Some (pattern_ints m new_offset offset i n !! j).
Proof.
  induction n as [|n IH]; intros m no off i j H; cbn [pattern_ints]; [lia|].
  change sizeof_int with 4.
  destruct (decide (no + 4 * i ≤ j < no + 4 * i + 4)) as [Hin|Hout].
  - rewrite pattern_ints_below by (change sizeof_int with 4; lia).
    unfold store32, store8. rewrite !lookup_insert.
    repeat case_decide; eauto. lia.
  - apply IH. lia.
Qed.

Lemma read_bytes_ext (m1 m2 : memory) len :
  (∀ j, 0 ≤ j < len → m1 !! j = m2 !! j) → read_bytes m1 len = read_bytes m2 len.
Proof.
  intros H. unfold read_bytes. apply list_fmap_ext.
  intros i j Hj. apply lookup_seqZ in Hj. apply H. lia.
Qed.

(** C4 (as amended).  For the three policies that do not draw a random value
    (PATTERN, ONES, BYTE_REPEAT), the [len] bytes of the buffer after the
    generator has run are determined by the tuple (length, offset, policy,
    value) alone: any two invocations, whatever the two buffers held before,
    under any oracle and from any world, return with the same [len] bytes,
    every one of them written, and leave the world as they found it.  The
    one exception is a length whose integer count [len / 4 + 1] overflows
    the [int] loop counter of the PATTERN policy, for which both invocations
    are the same undefined behaviour. *)
Theorem generate_data_deterministic (env1 env2 : oracle)
    (buffer1 buffer2 : memory) len offset type value w1 w2 :
  type ≠ RANDOM_EACH_BYTE →
  (∃ m1 m2,
     generate_data env1 buffer1 len offset type value w1 = (Ret m1, w1)
     ∧ generate_data env2 buffer2 len offset type value w2 = (Ret m2, w2)
     ∧ read_bytes m1 len = read_bytes m2 len
     ∧ Forall is_Some (read_bytes m1 len))
  ∨ (type = PATTERN ∧ len / 4 + 1 > INT_MAX
     ∧ generate_data env1 buffer1 len offset type value w1 = (Undef, w1)
     ∧ generate_data env2 buffer2 len offset type value w2 = (Undef, w2)).
Proof.
  intros Hty.
  assert (Hset : ∀ c (b1 b2 : memory),
            read_bytes (memset b1 c len) len = read_bytes (memset b2 c len) len
            ∧ Forall is_Some (read_bytes (memset b1 c len) len)).
  { intros c b1 b2. split.
    - apply read_bytes_ext. intros j Hj. unfold memset.
      rewrite !memset_from_lookup, !decide_True by lia. reflexivity.
    - unfold read_bytes. apply Forall_fmap, Forall_forall. intros j Hj.
      apply elem_of_seqZ in Hj. cbn. unfold memset.
      rewrite memset_from_lookup, decide_True by lia. eauto. }
  destruct type; try congruence; unfold generate_data, ret.
  - change sizeof_int with 4.
    destruct (len / 4 + 1 >? INT_MAX) eqn:Hgt.
    { right. unfold undef. repeat split; try reflexivity. lia. }
    left. eexists _, _. split; [reflexivity|]. split; [reflexivity|].
    destruct (pattern_new_offset offset) as [Hno Hrange].
    change sizeof_int with 4 in *. rewrite Hno.
    assert (Hcover : ∀ j, 0 ≤ j < len →
              j < 3 - offset mod 4
              ∨ 3 - offset mod 4 + 4 * 0 ≤ j
                < 3 - offset mod 4 + 4 * (0 + Z.of_nat (Z.to_nat (len / 4 + 1)))).
    { intros j Hj.
      destruct (decide (j < 3 - offset mod 4)) as [|Hge]; [left; assumption|].
      right. pose proof (Z.div_pos len 4 ltac:(lia) ltac:(lia)).
      pose proof (Z.div_mod len 4 ltac:(lia)).
      pose proof (Z.mod_pos_bound len 4 ltac:(lia)). lia. }
    split.
    + apply read_bytes_ext. intros j Hj.
      apply pattern_ints_agree.
      destruct (Hcover j Hj) as [Hpad|Hint]; [left | right; exact Hint].
      rewrite !pattern_pad_lookup, !decide_True by lia. reflexivity.
    + unfold read_bytes. apply Forall_fmap, Forall_forall. intros j Hj.
      apply elem_of_seqZ in Hj. cbn.
      destruct (Hcover j ltac:(lia)) as [Hpad|Hint].
      * rewrite pattern_ints_below by (change sizeof_int with 4; lia).
        rewrite pattern_pad_lookup, decide_True by lia. eauto.
      * apply pattern_ints_written. exact Hint.
  - left. eexists _, _. split; [reflexivity|]. split; [reflexivity|]. apply Hset.
  - left. eexists _, _. split; [reflexivity|]. split; [reflexivity|]. apply Hset.
Qed.

Lemma generate_data_deterministic_witness :
  (∃ m1 m2,
     generate_data ideal_env ∅ 10 6 PATTERN 0 initial_world = (Ret m1, initial_world)
     ∧ generate_data counting_env (memset ∅ 255 16) 10 6 PATTERN 0
         (with_seq 7 initial_world) = (Ret m2, with_seq 7 initial_world)
     ∧ read_bytes m1 10 = read_bytes m2 10
     ∧ Forall is_Some (read_bytes m1 10))
  ∨ (PATTERN = PATTERN ∧ 10 / 4 + 1 > INT_MAX
     ∧ generate_data ideal_env ∅ 10 6 PATTERN 0 initial_world
       = (Undef, initial_world)
     ∧ generate_data counting_env (memset ∅ 255 16) 10 6 PATTERN 0
         (with_seq 7 initial_world) = (Undef, with_seq 7 initial_world)).
Proof.
  apply (generate_data_deterministic ideal_env counting_env ∅ (memset ∅ 255 16)
           10 6 PATTERN 0 initial_world (with_seq 7 initial_world)).
  discriminate.
Defined.

(** C4 as stated fails for RANDOM_EACH_BYTE: two invocations in a row on the
    same tuple, with a [rand] that does not repeat itself, fill the buffer
    with different bytes. *)
Lemma random_fill_differs :
  ∃ a b w,
    (a <~ generate_data counting_env ∅ 4 0 RANDOM_EACH_BYTE 0 ;;
     b <~ generate_data counting_env ∅ 4 0 RANDOM_EACH_BYTE 0 ;;
     ret (a, b)) initial_world = (Ret (a, b), w)
    ∧ read_bytes a 4 = [Some 0; Some 0; Some 0; Some 0]
    ∧ read_bytes b 4 = [Some 1; Some 0; Some 0; Some 0]
    ∧ read_bytes a 4 ≠ read_bytes b 4.
Proof.
  eexists _, _, _. split; [reflexivity|].
  split; [vm_compute; reflexivity|].
  split; [vm_compute; reflexivity|].
  vm_compute. discriminate.
Qed.

(** ** Rules for [hoare] and [keeps] *)

Section Rules.

Context {A B : Type}.

Lemma hoare_bind (P : world → Prop) (m : M A) (k : A → M B)
    (Q' : A → world → Prop) (Q : B → world → Prop) (E : world → Prop) :
  hoare P m Q' E → (∀ a, hoare (Q' a) (k a) Q E) → hoare P (bind m k) Q E.
Proof.
  intros Hm Hk w Hw. specialize (Hm w Hw). unfold bind.
  destruct (m w) as [[a| | | |] w']; try exact Hm.
  exact (Hk a w' Hm).
Qed.



Lemma keeps_bind (I : world → Prop) (m : M A) (k : A → M B) :
  keeps I m → (∀ a, keeps I (k a)) → keeps I (bind m k).
Proof. intros Hm Hk. eapply hoare_bind; [exact Hm | exact Hk]. Qed.

Lemma keeps_ret (I : world → Prop) (a : A) : keeps I (ret a).
Proof. intros w Hw. exact Hw. Qed.

Lemma keeps_exit (I : world → Prop) code : keeps I (@exit A code).
Proof. intros w Hw. exact Hw. Qed.

Lemma keeps_abort (I : world → Prop) : keeps I (@abort A).
Proof. intros w Hw. exact Hw. Qed.

Lemma keeps_undef (I : world → Prop) : keeps I (@undef A).
Proof. intros w Hw. exact Hw. Qed.

Lemma keeps_out_of_fuel (I : world → Prop) : keeps I (@out_of_fuel A).
Proof. intros w Hw. exact Hw. Qed.

End Rules.

Lemma keeps_assert I b : keeps I (assert b).
Proof. destruct b; [apply keeps_ret | apply keeps_abort]. Qed.

Lemma keeps_get_errno I : keeps I get_errno.
Proof. intros w Hw. exact Hw. Qed.

Lemma keeps_get_seq I : keeps I get_seq.
Proof. intros w Hw. exact Hw. Qed.

Lemma keeps_get_pre I : keeps I get_pre.
Proof. intros w Hw. exact Hw. Qed.

Lemma keeps_get_n_fs I : keeps I get_n_fs.
Proof. intros w Hw. exact Hw. Qed.

Lemma keeps_set_errno I e : stable I → keeps I (set_errno e).
Proof. intros HI w Hw. simpl. now apply stable_errno. Qed.

Lemma keeps_set_pre I p : stable I → keeps I (set_pre p).
Proof. intros HI w Hw. simpl. now apply stable_pre. Qed.

Lemma keeps_print_stdout I l : stable I → keeps I (print_stdout l).
Proof. intros HI w Hw. simpl. now apply stable_stdout. Qed.

Lemma keeps_print_stderr I l : stable I → keeps I (print_stderr l).
Proof. intros HI w Hw. simpl. now apply stable_stderr. Qed.

Lemma keeps_ask env I c : tolerates I c → keeps I (ask env c).
Proof. intros Hc w Hw. simpl. now apply Hc. Qed.

Lemma keeps_syscall env I c : tolerates I c → keeps I (syscall env c).
Proof.
  intros Hc. unfold syscall. apply keeps_bind; [now apply keeps_ask|].
  intros r. apply keeps_ret.
Qed.

Lemma keeps_alloc env I c : tolerates I c → keeps I (alloc env c).
Proof.
  intros Hc. unfold alloc. apply keeps_bind; [now apply keeps_ask|].
  intros r. apply keeps_ret.
Qed.

Lemma keeps_incr_int I x : keeps I (incr_int x).
Proof. unfold incr_int. destruct (x =? INT_MAX); [apply keeps_undef | apply keeps_ret]. Qed.

(** One step of a proof that a computation keeps a condition: a rule, or a
    case split on what the computation branches on. *)
Ltac keeps_step :=
  lazymatch goal with
  | |- keeps _ (ret _) => apply keeps_ret
  | |- keeps _ (exit _) => apply keeps_exit
  | |- keeps _ abort => apply keeps_abort
  | |- keeps _ undef => apply keeps_undef
  | |- keeps _ out_of_fuel => apply keeps_out_of_fuel
  | |- keeps _ (assert _) => apply keeps_assert
  | |- keeps _ (incr_int _) => apply keeps_incr_int
  | |- keeps _ get_errno => apply keeps_get_errno
  | |- keeps _ get_seq => apply keeps_get_seq
  | |- keeps _ get_pre => apply keeps_get_pre
  | |- keeps _ get_n_fs => apply keeps_get_n_fs
  | |- keeps _ (set_errno _) => apply keeps_set_errno; assumption
  | |- keeps _ (set_pre _) => apply keeps_set_pre; assumption
  | |- keeps _ (print_stdout _) => apply keeps_print_stdout; assumption
  | |- keeps _ (print_stderr _) => apply keeps_print_stderr; assumption
  | |- keeps _ (bind _ _) => apply keeps_bind; [|intros ?]
  | |- keeps _ (if ?b then _ else _) => destruct b
  | |- keeps _ (match ?x with _ => _ end) => destruct x
  end.

Lemma keeps_strtol I nptr base : stable I → keeps I (strtol nptr base).
Proof. intros HI. unfold strtol. repeat keeps_step. Qed.

Lemma keeps_strtoul I nptr base : stable I → keeps I (strtoul nptr base).
Proof. intros HI. unfold strtoul. repeat keeps_step. Qed.

Lemma keeps_atol I nptr : stable I → keeps I (atol nptr).
Proof. apply keeps_strtol. Qed.

Lemma keeps_vector_get_deref {A} I (vec : vector A) i : keeps I (vector_get_deref vec i).
Proof. unfold vector_get_deref. repeat keeps_step. Qed.

(** ** What the handlers do to a condition on worlds *)

Section Handlers.

Context (env : oracle) (strerror : Z → string) (I : world → Prop).
Hypothesis I_stable : stable I.
(** [I] survives the allocator and every file-system call but [write]. *)
Hypothesis I_malloc : ∀ n, tolerates I (c_malloc n).
Hypothesis I_fs : ∀ c, is_fs_call c = true →
  (∀ fd data len, c ≠ c_write fd data len) → tolerates I c.

Ltac call_step :=
  lazymatch goal with
  | |- keeps _ (syscall _ _) =>
      apply keeps_syscall; apply I_fs; [reflexivity | discriminate]
  | |- keeps _ (alloc _ (c_malloc _)) => apply keeps_alloc; apply I_malloc
  | |- keeps _ (strtol _ _) => apply keeps_strtol; assumption
  | |- keeps _ (strtoul _ _) => apply keeps_strtoul; assumption
  | |- keeps _ (atol _) => apply keeps_atol; assumption
  | |- keeps _ (vector_get_deref _ _) => apply keeps_vector_get_deref
  | _ => keeps_step
  end.














(** [write_file] passes [data] on to [write] as it is. *)
Lemma keeps_write_file path flags (data : memory) offset length :
  (∀ fd, tolerates I (c_write fd (read_bytes data length) length)) →
  keeps I (write_file env path flags data offset length).
Proof.
  intros Hw. unfold write_file, write_file_exit_err.
  repeat first
    [ lazymatch goal with
      | |- keeps _ (syscall _ (c_write _ _ _)) => apply keeps_syscall; apply Hw
      end
    | call_step ].
Qed.

Lemma keeps_get_n_fs_bind {B} n (k : Z → M B) :
  (∀ w, I w → w_n_fs w = n) → keeps I (k n) → keeps I (bind get_n_fs k).
Proof.
  intros Hn Hk w Hi. unfold bind, get_n_fs. rewrite (Hn w Hi). exact (Hk w Hi).
Qed.

Lemma keeps_ret_bind {A B} (a : A) (k : A → M B) :
  keeps I (k a) → keeps I (bind (ret a) k).
Proof. intros Hk w Hi. exact (Hk w Hi). Qed.

(** [do_write_file] hands [write] a buffer of [writelen] copies of the byte
    [seq / n_fs]. *)
Lemma keeps_do_write_file argvec seq n :
  (∀ w, I w → w_n_fs w = n) →
  (∀ fd len, tolerates I
     (c_write fd (replicate (Z.to_nat len)
                    (Some (to_uchar (to_int (to_uint seq / n))))) len)) →
  keeps I (do_write_file env strerror argvec seq).
Proof.
  intros Hn Hw. unfold do_write_file.
  repeat lazymatch goal with
         | |- keeps _ (bind get_n_fs _) => fail
         | |- keeps _ (bind _ _) =>
             apply keeps_bind; [solve [repeat call_step] | intros ?]
         end.
  apply (keeps_get_n_fs_bind n); [exact Hn|].
  destruct (n =? 0); [apply keeps_undef|].
  unfold generate_data. apply keeps_ret_bind.
  apply keeps_bind.
  - apply keeps_write_file. intros fd. rewrite read_bytes_memset. apply Hw.
  - intros r. repeat call_step.
Qed.

End Handlers.

(** ** The write handler (C1) *)

Lemma byte_repeat_payload_replicate aux len :
  byte_repeat_payload aux len (replicate (Z.to_nat len) (Some (to_uchar aux))).
Proof.
  intros env offset w. eexists. split; [reflexivity|].
  symmetry. apply read_bytes_memset.
Qed.

Lemma byte_repeat_payload_inv aux len data :
  byte_repeat_payload aux len data →
  data = replicate (Z.to_nat len) (Some (to_uchar aux)).
Proof.
  intros H. destruct (H ideal_env 0 initial_world) as (m & Hm & ->).
  unfold generate_data, ret in Hm. injection Hm as <-.
  apply read_bytes_memset.
Qed.

Lemma writes_repeat_stable tr0 aux n : stable (writes_repeat tr0 aux n).
Proof. split; intros ? w H; exact H. Qed.

Lemma writes_repeat_tolerates tr0 aux n c :
  (∀ r, payload_ok aux (c, r)) → tolerates (writes_repeat tr0 aux n) c.
Proof.
  intros Hc r w (Hn & evs & Htr & Hall). split; [exact Hn|].
  exists (evs ++ [(c, r)]). simpl. rewrite Htr, app_assoc. split; [reflexivity|].
  apply Forall_app. split; [exact Hall|]. constructor; [apply Hc | constructor].
Qed.

(** The quotient computed by [seq / n_fs]. *)
Lemma integer_to_write_quotient s n :
  0 ≤ s ≤ INT_MAX → 0 < n < UINT_MOD → to_int (to_uint s / n) = s / n.
Proof.
  unfold INT_MAX, UINT_MOD. intros Hs Hn.
  rewrite to_uint_small by lia.
  apply to_int_small.
  pose proof (Z.div_pos s n ltac:(lia) ltac:(lia)).
  pose proof (Z.div_le_upper_bound s n (2 ^ 31 - 1) ltac:(lia) ltac:(nia)).
  lia.
Qed.

(** C1 (as amended).  For every write_file record replayed at sequence
    position [s] (a non-negative [int]) with instance count [n] (a positive
    [unsigned int]), every buffer that the handler passes to the write
    primitive is generated under the BYTE_REPEAT policy with auxiliary value
    [s / n].  In particular the record
    "write_file, /d-01/f-00, 02, 0, 4096, 4096" at sequence index 7 with
    instance count 1, when every call succeeds, writes 4096 bytes all equal to
    7 at offset 4096 (its fifth field; the fourth is not read) of /d-01/f-00,
    and its result line contains ret=4096. *)
Theorem write_file_payload (env : oracle) (strerror : Z → string)
    (argvec : vector string) s w :
  0 ≤ s ≤ INT_MAX → 0 < w_n_fs w < UINT_MOD →
  (∃ evs, w_trace (snd (do_write_file env strerror argvec s w)) = w_trace w ++ evs
          ∧ Forall (payload_ok (s / w_n_fs w)) evs)
  ∧ (∃ w' line,
       replay_line ideal_env errno_name 0 1 scenario_record
         (with_seq 7 initial_world) = (Ret tt, w')
       ∧ written_buffers (w_trace w') = [replicate 4096 (Some 7)]
       ∧ lseek_offsets (w_trace w') = [4096]
       ∧ (c_open "/d-01/f-00" 2 O_RDWR, Ok 3) ∈ w_trace w'
       ∧ last (w_stdout w') = Some line
       ∧ contains line "ret=4096" = true).
Proof.
  intros Hs Hn. split.
  - pose proof (keeps_do_write_file env strerror
                  (writes_repeat (w_trace w) (s / w_n_fs w) (w_n_fs w))
                  (writes_repeat_stable _ _ _)) as Hkeep.
    specialize (Hkeep
      (λ size, writes_repeat_tolerates _ _ _ (c_malloc size) (λ _, Logic.I))).
    assert (Hfs : ∀ c, is_fs_call c = true →
              (∀ fd data len, c ≠ c_write fd data len) →
              tolerates (writes_repeat (w_trace w) (s / w_n_fs w) (w_n_fs w)) c).
    { intros c _ Hc. apply writes_repeat_tolerates. intros r.
      destruct c; try exact Logic.I. exfalso. eapply Hc. reflexivity. }
    specialize (Hkeep Hfs argvec s (w_n_fs w) (λ _ H, proj1 H)).
    assert (Hwr : ∀ fd len, tolerates
              (writes_repeat (w_trace w) (s / w_n_fs w) (w_n_fs w))
              (c_write fd (replicate (Z.to_nat len)
                 (Some (to_uchar (to_int (to_uint s / w_n_fs w))))) len)).
    { intros fd len. apply writes_repeat_tolerates. intros r. simpl.
      rewrite integer_to_write_quotient by assumption.
      apply byte_repeat_payload_replicate. }
    specialize (Hkeep Hwr w).
    assert (Hinit : writes_repeat (w_trace w) (s / w_n_fs w) (w_n_fs w) w).
    { split; [reflexivity|]. exists []. rewrite app_nil_r. split; [reflexivity|constructor]. }
    specialize (Hkeep Hinit).
    destruct (do_write_file env strerror argvec s w) as [[r| | | |] w'];
      simpl; exact (proj2 Hkeep).
  - eexists _, _. split; [vm_compute; reflexivity|].
    split; [vm_compute; reflexivity|].
    split; [vm_compute; reflexivity|].
    split; [|split; [vm_compute; reflexivity | vm_compute; reflexivity]].
    apply list_elem_of_In. vm_compute. tauto.
Qed.

Lemma write_file_payload_witness :
  (∃ evs, w_trace (snd (do_write_file ideal_env errno_name
             (Vector (Some ["write_file"; "/d-01/f-00"; "02"; "0"; "8"; "8"]) 8 6 16)
             5 (with_n_fs 2 initial_world)))
          = w_trace (with_n_fs 2 initial_world) ++ evs
          ∧ Forall (payload_ok (5 / w_n_fs (with_n_fs 2 initial_world))) evs)
  ∧ (∃ w' line,
       replay_line ideal_env errno_name 0 1 scenario_record
         (with_seq 7 initial_world) = (Ret tt, w')
       ∧ written_buffers (w_trace w') = [replicate 4096 (Some 7)]
       ∧ lseek_offsets (w_trace w') = [4096]
       ∧ (c_open "/d-01/f-00" 2 O_RDWR, Ok 3) ∈ w_trace w'
       ∧ last (w_stdout w') = Some line
       ∧ contains line "ret=4096" = true).
Proof.
  apply (write_file_payload ideal_env errno_name
           (Vector (Some ["write_file"; "/d-01/f-00"; "02"; "0"; "8"; "8"]) 8 6 16)
           5 (with_n_fs 2 initial_world)).
  - vm_compute. split; discriminate.
  - vm_compute. split; reflexivity.
Defined.

(** C1 as stated fails in its scenario: the handler reads the offset from the
    fifth field, so the record seeks to offset 4096 before its only write,
    and never to offset 0. *)
Lemma scenario_writes_at_4096 :
  ∃ w',
    replay_line ideal_env errno_name 0 1 scenario_record
      (with_seq 7 initial_world) = (Ret tt, w')
    ∧ lseek_offsets (w_trace w') = [4096]
    ∧ 0 ∉ lseek_offsets (w_trace w').
Proof.
  eexists. split; [vm_compute; reflexivity|].
  split; [vm_compute; reflexivity|].
  rewrite list_elem_of_In. vm_compute. intros [H|[]]. discriminate.
Qed.

(** ** [mkdir_p] (C10) *)

Lemma keeps_snd {A} (I : world → Prop) (m : M A) w :
  keeps I m → I w → I (snd (m w)).
Proof.
  intros Hm Hw. specialize (Hm w Hw).
  destruct (m w) as [[a| | | |] w']; exact Hm.
Qed.

(** When no call fails, a system call leaves [errno] alone. *)
Lemma keeps_errno_syscall env e c :
  never_fails env → keeps (λ w, w_errno w = e) (syscall env c).
Proof.
  intros Hnf w Hw. unfold syscall, bind, ask, ret.
  destruct (Hnf (w_trace w) c) as [v Hv]. rewrite Hv. exact Hw.
Qed.

Lemma keeps_errno_mkdir_p_loop env e rest :
  never_fails env →
  ∀ before dir_mode next_f next_d,
    keeps (λ w, w_errno w = e) (mkdir_p_loop env before rest dir_mode next_f next_d).
Proof.
  intros Hnf. induction rest as [|c rest IH]; intros before dm nf nd;
    cbn [mkdir_p_loop].
  - apply keeps_ret.
  - destruct (Ascii.eqb c "/"); [|apply IH].
    apply keeps_bind; [now apply keeps_errno_syscall | intros r].
    apply keeps_bind; [apply keeps_get_errno | intros e'].
    destruct (negb (r =? 0) && negb (e' =? EEXIST)); [apply keeps_ret|].
    lazymatch goal with
    | |- keeps _ (let '(_, _) := ?x in _) => destruct x
    end.
    apply IH.
Qed.

(** C10.  For every path longer than PATH_MAX - 1 = 4095 bytes, [mkdir_p]
    returns -1 with [errno] set to ENAMETOOLONG and makes no call at all: no
    directory or file creation is attempted, the trace is unchanged.  For a
    shorter path the value [errno] had on entry is cleared to 0 first: the
    run does not depend on it, and [errno] is still 0 on return when no call
    fails. *)
Theorem mkdir_p_name_too_long (env : oracle) path dir_mode file_mode w :
  strlen path > PATH_MAX - 1 →
  mkdir_p env path dir_mode file_mode w = (Ret (-1), with_errno ENAMETOOLONG w)
  ∧ w_trace (snd (mkdir_p env path dir_mode file_mode w)) = w_trace w
  ∧ ∀ path' e, strlen path' ≤ PATH_MAX - 1 →
      mkdir_p env path' dir_mode file_mode (with_errno e w)
      = mkdir_p env path' dir_mode file_mode (with_errno 0 w)
      ∧ (never_fails env →
         w_errno (snd (mkdir_p env path' dir_mode file_mode (with_errno e w))) = 0).
Proof.
  intros Hlong.
  assert (Hrun : mkdir_p env path dir_mode file_mode w
                 = (Ret (-1), with_errno ENAMETOOLONG w)).
  { unfold mkdir_p, bind, set_errno, ret.
    destruct (strlen path >? PATH_MAX - 1) eqn:Hgt; [reflexivity | lia]. }
  split; [exact Hrun|]. split; [rewrite Hrun; reflexivity|].
  intros path' e Hshort. split; [reflexivity|].
  intros Hnf.
  change (mkdir_p env path' dir_mode file_mode (with_errno e w))
    with (mkdir_p env path' dir_mode file_mode (with_errno 0 w)).
  apply (keeps_snd (λ w, w_errno w = 0)); [|reflexivity].
  unfold mkdir_p.
  apply keeps_bind.
  { intros w0 _. reflexivity. }
  intros _. destruct (strlen path' >? PATH_MAX - 1) eqn:Hgt; [lia|].
  destruct path' as [|c0 rest]; [apply keeps_undef|].
  apply keeps_bind; [now apply keeps_errno_mkdir_p_loop | intros st].
  destruct st as [[next_f next_d]|]; [|apply keeps_ret].
  apply keeps_bind.
  { destruct next_f; [|apply keeps_ret].
    apply keeps_bind; [now apply keeps_errno_syscall | intros fd].
    destruct (fd >=? 0).
    - apply keeps_bind; [now apply keeps_errno_syscall | intros ?; apply keeps_ret].
    - apply keeps_bind; [apply keeps_get_errno | intros ?; apply keeps_ret]. }
  intros r1. destruct (r1 <? 0); [apply keeps_ret|].
  apply keeps_bind.
  { destruct next_d; [|apply keeps_ret].
    apply keeps_bind; [now apply keeps_errno_syscall | intros r].
    apply keeps_bind; [apply keeps_get_errno | intros ?; apply keeps_ret]. }
  intros r2. destruct (r2 <? 0); apply keeps_ret.
Qed.

Lemma ideal_env_never_fails : never_fails ideal_env.
Proof. intros h c. destruct c; simpl; eauto. Qed.

Lemma mkdir_p_name_too_long_witness :
  mkdir_p ideal_env long_path 493 420 initial_world
  = (Ret (-1), with_errno ENAMETOOLONG initial_world)
  ∧ w_trace (snd (mkdir_p ideal_env long_path 493 420 initial_world))
    = w_trace initial_world
  ∧ ∀ path' e, strlen path' ≤ PATH_MAX - 1 →
      mkdir_p ideal_env path' 493 420 (with_errno e initial_world)
      = mkdir_p ideal_env path' 493 420 (with_errno 0 initial_world)
      ∧ (never_fails ideal_env →
         w_errno (snd (mkdir_p ideal_env path' 493 420
                         (with_errno e initial_world))) = 0).
Proof.
  apply (mkdir_p_name_too_long ideal_env long_path 493 420 initial_world).
  vm_compute. reflexivity.
Defined.

(** ** The unmount loop (C5, C6) *)

Lemma syscall_eq env c w :
  syscall env c w
  = (Ret (match env (w_trace w) c with Ok v => v | Err _ => -1 end),
     record_event (c, env (w_trace w) c) w).
Proof. reflexivity. Qed.

Section UnmountLoop.

Context (env : oracle) (strerror : Z → string).

Lemma unmount_loop_done fuel retry_limit num_retries has_failure w :
  retry_limit ≤ 0 →
  unmount_loop env strerror (S fuel) retry_limit num_retries has_failure w
  = (Ret (retry_limit, has_failure), w).
Proof.
  intros H. cbn [unmount_loop].
  destruct (retry_limit >? 0) eqn:Hgt; [lia | reflexivity].
Qed.

Lemma unmount_loop_step_ok fuel retry_limit num_retries has_failure w :
  retry_limit > 0 →
  env (w_trace w) (c_umount2 basepath 0) = Ok 0 →
  unmount_loop env strerror (S fuel) retry_limit num_retries has_failure w
  = (Ret (retry_limit, has_failure), record_event (c_umount2 basepath 0, Ok 0) w).
Proof.
  intros H Henv. cbn [unmount_loop].
  destruct (retry_limit >? 0) eqn:Hgt; [|lia].
  unfold bind at 1. rewrite syscall_eq, Henv. reflexivity.
Qed.

Lemma unmount_loop_step_busy fuel retry_limit num_retries has_failure w :
  retry_limit > 0 →
  env (w_trace w) (c_umount2 basepath 0) = Err EBUSY →
  ∃ w2 r2 msg,
    w_trace w2 = w_trace w ++ [(c_umount2 basepath 0, Err EBUSY);
                               (c_usleep (backoff_usec num_retries), r2)]
    ∧ w_stderr w2 = w_stderr w ++ [msg]
    ∧ w_stdout w2 = w_stdout w ∧ w_seq w2 = w_seq w
    ∧ unmount_loop env strerror (S fuel) retry_limit num_retries has_failure w
      = unmount_loop env strerror fuel (retry_limit - 1) (num_retries + 1)
          has_failure w2.
Proof.
  intros H Henv. cbn [unmount_loop].
  destruct (retry_limit >? 0) eqn:Hgt; [|lia].
  unfold bind at 1. rewrite syscall_eq, Henv. cbv beta iota.
  change (-1 =? 0) with false. cbv iota.
  unfold bind at 1, get_errno at 1. cbv beta iota.
  cbn [snd fst record_event w_errno]. change (EBUSY =? EBUSY) with true.
  cbv iota. unfold bind at 1, print_stderr at 1. cbv beta iota.
  unfold bind at 1. rewrite syscall_eq. cbv beta iota.
  eexists _, _, _. split; [|split; [|split; [|split; [|reflexivity]]]].
  - cbn [w_trace record_event to_stderr]. rewrite <- app_assoc. reflexivity.
  - reflexivity.
  - reflexivity.
  - reflexivity.
Qed.

Lemma unmount_loop_step_other fuel retry_limit num_retries has_failure w e :
  retry_limit > 0 →
  env (w_trace w) (c_umount2 basepath 0) = Err e → e ≠ EBUSY →
  unmount_loop env strerror (S fuel) retry_limit num_retries has_failure w
  = unmount_loop env strerror fuel retry_limit num_retries true
      (to_stderr (line_of ["Could not unmount file system "; fsys; " at ";
                           basepath; " ("; strerror e; ")"])
         (record_event (c_umount2 basepath 0, Err e) w)).
Proof.
  intros H Henv Hne. cbn [unmount_loop].
  destruct (retry_limit >? 0) eqn:Hgt; [|lia].
  unfold bind at 1. rewrite syscall_eq, Henv. cbv beta iota.
  change (-1 =? 0) with false. cbv iota.
  unfold bind at 1, get_errno at 1. cbv beta iota.
  cbn [snd fst record_event w_errno].
  destruct (e =? EBUSY) eqn:He; [lia | reflexivity].
Qed.

Lemma umount_attempts_app evs1 evs2 :
  umount_attempts (evs1 ++ evs2) = umount_attempts evs1 + umount_attempts evs2.
Proof. unfold umount_attempts. rewrite filter_app, length_app. lia. Qed.

Lemma total_usleep_app evs1 evs2 :
  total_usleep (evs1 ++ evs2) = total_usleep evs1 + total_usleep evs2.
Proof.
  unfold total_usleep. induction evs1 as [|ev evs1 IH]; simpl; [reflexivity|].
  rewrite IH. lia.
Qed.

(** [d] busy rounds in a row: each makes one attempt and one [usleep], and
    the loop goes on with [d] retries fewer. *)
Lemma unmount_loop_busy_rounds (d : nat) : ∀ fuel j has_failure w,
  0 ≤ j → j + Z.of_nat d ≤ 19 →
  (∀ evs, umount_attempts evs < Z.of_nat d →
          env (w_trace w ++ evs) (c_umount2 basepath 0) = Err EBUSY) →
  ∃ w1 evs,
    w_trace w1 = w_trace w ++ evs
    ∧ umount_attempts evs = Z.of_nat d
    ∧ total_usleep evs = sum_backoff j d
    ∧ w_stdout w1 = w_stdout w ∧ w_seq w1 = w_seq w
    ∧ unmount_loop env strerror (d + fuel) (19 - j) j has_failure w
      = unmount_loop env strerror fuel (19 - j - Z.of_nat d) (j + Z.of_nat d)
          has_failure w1.
Proof.
  induction d as [|d IH]; intros fuel j hf w Hj Hle Hbusy.
  - exists w, []. rewrite app_nil_r, Z.sub_0_r, Z.add_0_r. repeat split; reflexivity.
  - assert (Hfirst : env (w_trace w) (c_umount2 basepath 0) = Err EBUSY).
    { rewrite <- (app_nil_r (w_trace w)). apply Hbusy.
      change (umount_attempts []) with 0. lia. }
    destruct (unmount_loop_step_busy (d + fuel) (19 - j) j hf w ltac:(lia) Hfirst)
      as (w2 & r2 & msg & Htr2 & _ & Hout2 & Hseq2 & Hstep).
    destruct (IH fuel (j + 1) hf w2 ltac:(lia) ltac:(lia)) as
      (w1 & evs & Htr1 & Hatt & Hsum & Hout1 & Hseq1 & Hrest).
    { intros evs Hevs. rewrite Htr2, <- app_assoc. apply Hbusy.
      rewrite umount_attempts_app.
      change (umount_attempts [(c_umount2 basepath 0, Err EBUSY);
                               (c_usleep (backoff_usec j), r2)]) with 1. lia. }
    exists w1, ([(c_umount2 basepath 0, Err EBUSY);
                 (c_usleep (backoff_usec j), r2)] ++ evs).
    split; [rewrite Htr1, Htr2, <- app_assoc; reflexivity|].
    split.
    { rewrite umount_attempts_app, Hatt.
      change (umount_attempts [(c_umount2 basepath 0, Err EBUSY);
                               (c_usleep (backoff_usec j), r2)]) with 1. lia. }
    split.
    { rewrite total_usleep_app, Hsum. cbn [sum_backoff].
      change (total_usleep [(c_umount2 basepath 0, Err EBUSY);
                            (c_usleep (backoff_usec j), r2)])
        with (0 + (backoff_usec j + 0)). lia. }
    split; [congruence|]. split; [congruence|].
    change (S d + fuel)%nat with (S (d + fuel)). rewrite Hstep.
    replace (19 - j - 1) with (19 - (j + 1)) by lia. rewrite Hrest.
    f_equal; lia.
Qed.

(** Up to sixteen retries in a row the microseconds asked of [usleep] are the
    milliseconds of the backoff: 100 * (2^0 + ... + 2^(k-1)) ms. *)
Lemma sum_backoff_exact (k : nat) :
  (k ≤ 16)%nat → sum_backoff 0 k = 1000 * (100 * (2 ^ Z.of_nat k - 1)).
Proof.
  intros Hk.
  do 17 (destruct k as [|k]; [vm_compute; reflexivity|]). lia.
Qed.

(** The unmount primitive is busy on the first [k] attempts (k < 19) and then
    succeeds: [unmount_all] returns after exactly [k + 1] attempts, having
    asked [usleep] for [sum_backoff 0 k] microseconds in all. *)
Lemma unmount_busy_then_ok (k : nat) fuel strict w :
  (k < 19)%nat → (k < fuel)%nat →
  (∀ evs, umount_attempts evs < Z.of_nat k →
          env (w_trace w ++ evs) (c_umount2 basepath 0) = Err EBUSY) →
  (∀ evs, umount_attempts evs = Z.of_nat k →
          env (w_trace w ++ evs) (c_umount2 basepath 0) = Ok 0) →
  ∃ w' evs,
    unmount_all env strerror fuel strict w = (Ret tt, w')
    ∧ w_trace w' = w_trace w ++ evs
    ∧ umount_attempts evs = Z.of_nat k + 1
    ∧ total_usleep evs = sum_backoff 0 k
    ∧ last evs = Some (c_umount2 basepath 0, Ok 0)
    ∧ w_seq w' = w_seq w.
Proof.
  intros Hk Hfuel Hbusy Hok.
  destruct (unmount_loop_busy_rounds k (fuel - k) 0 false w ltac:(lia) ltac:(lia) Hbusy)
    as (w1 & evs & Htr & Hatt & Hsum & _ & Hseq & Hloop).
  replace (k + (fuel - k))%nat with fuel in Hloop by lia.
  change (19 - 0) with 19 in Hloop.
  destruct (fuel - k)%nat as [|fuel'] eqn:Hf; [lia|].
  rewrite unmount_loop_step_ok in Hloop;
    [| lia | rewrite Htr; apply Hok; exact Hatt].
  exists (record_event (c_umount2 basepath 0, Ok 0) w1),
         (evs ++ [(c_umount2 basepath 0, Ok 0)]).
  split.
  - unfold unmount_all. unfold bind at 1. rewrite Hloop.
    destruct (19 - Z.of_nat k =? 0) eqn:Hz; [lia|]. reflexivity.
  - split; [cbn [w_trace record_event]; rewrite Htr, app_assoc; reflexivity|].
    split.
    { rewrite umount_attempts_app, Hatt.
      change (umount_attempts [(c_umount2 basepath 0, Ok 0)]) with 1. lia. }
    split.
    { rewrite total_usleep_app, Hsum.
      change (total_usleep [(c_umount2 basepath 0, Ok 0)]) with 0. lia. }
    split; [apply last_snoc | exact Hseq].
Qed.

(** The unmount primitive is busy nineteen times: [unmount_all] makes exactly
    nineteen attempts, reports the failure, and in strict mode exits with
    code 1. *)
Lemma unmount_busy_exhausted fuel strict w :
  (19 < fuel)%nat →
  (∀ evs, umount_attempts evs < 19 →
          env (w_trace w ++ evs) (c_umount2 basepath 0) = Err EBUSY) →
  ∃ w' evs,
    unmount_all env strerror fuel strict w
    = (if strict then Exit 1 else Ret tt, w')
    ∧ w_trace w' = w_trace w ++ evs
    ∧ umount_attempts evs = 19
    ∧ last (w_stderr w')
      = Some (line_of ["Failed to unmount file system "; fsys; " at "; basepath;
                       " after retries."]).
Proof.
  intros Hfuel Hbusy.
  destruct (unmount_loop_busy_rounds 19 (fuel - 19) 0 false w ltac:(lia) ltac:(lia) Hbusy)
    as (w1 & evs & Htr & Hatt & _ & _ & _ & Hloop).
  replace (19 + (fuel - 19))%nat with fuel in Hloop by lia.
  change (19 - 0) with 19 in Hloop.
  destruct (fuel - 19)%nat as [|fuel'] eqn:Hf; [lia|].
  rewrite unmount_loop_done in Hloop by (cbn; lia).
  eexists _, evs. split.
  - unfold unmount_all. unfold bind at 1. rewrite Hloop.
    change (19 - Z.of_nat 19 =? 0) with true. cbv iota.
    unfold bind, print_stderr, ret. destruct strict; reflexivity.
  - split; [exact Htr|]. split; [exact Hatt|].
    cbn [w_stderr to_stderr]. apply last_snoc.
Qed.

End UnmountLoop.

(** C5 at the failing input: the unmount primitive is busy on the first 17
    attempts and then succeeds.  [unmount_all] succeeds after 18 attempts,
    but the seventeenth wait, 100 * 2^16 ms, is passed to [usleep] as
    [1000 * waitms] computed on 32 bits: 2258632704 microseconds instead of
    6553600000.  The waits add up to 8812132704 microseconds, not to the
    13107100000 of 100 * (2^0 + ... + 2^16) ms. *)
Theorem unmount_busy_17_backoff_wraps :
  ∃ w',
    unmount_all (busy_env 17) errno_name 20 true initial_world = (Ret tt, w')
    ∧ umount_attempts (w_trace w') = 18
    ∧ backoff_usec 16 = 2258632704
    ∧ 1000 * (100 * 2 ^ 16) = 6553600000
    ∧ total_usleep (w_trace w') = 8812132704
    ∧ 1000 * (100 * (2 ^ 17 - 1)) = 13107100000.
Proof.
  eexists. split; [vm_compute; reflexivity|].
  repeat split; vm_compute; reflexivity.
Qed.

Lemma unmount_loop_einval strerror fuel : ∀ retry_limit num_retries has_failure w,
  retry_limit > 0 →
  ∃ w',
    unmount_loop einval_env strerror fuel retry_limit num_retries has_failure w
    = (Fuel, w')
    ∧ umount_attempts (w_trace w') = umount_attempts (w_trace w) + Z.of_nat fuel.
Proof.
  induction fuel as [|fuel IH]; intros rl nr hf w Hrl.
  - exists w. split; [reflexivity | cbn; lia].
  - rewrite (unmount_loop_step_other einval_env strerror fuel rl nr hf w EINVAL);
      [| exact Hrl | reflexivity | unfold EINVAL, EBUSY; lia].
    destruct (IH rl nr true
                (to_stderr (line_of ["Could not unmount file system "; fsys; " at ";
                                     basepath; " ("; strerror EINVAL; ")"])
                   (record_event (c_umount2 basepath 0, Err EINVAL) w)) Hrl)
      as (w' & Hrun & Hatt).
    exists w'. split; [exact Hrun|]. rewrite Hatt.
    cbn [w_trace to_stderr record_event]. rewrite umount_attempts_app.
    change (umount_attempts [(c_umount2 basepath 0, Err EINVAL)]) with 1. lia.
Qed.

(** C6 at the failing input: the first unmount attempt fails with EINVAL, an
    error other than device-busy.  [unmount_all] records the failure and
    then attempts the unmount again; here the second attempt succeeds.  When
    every attempt fails with EINVAL the loop never ends: whatever the fuel,
    it is used up, one attempt per round. *)
Theorem unmount_retries_after_einval :
  (∃ w',
     unmount_all einval_once_env errno_name 20 false initial_world = (Ret tt, w')
     ∧ w_trace w' = [(c_umount2 basepath 0, Err EINVAL);
                     (c_umount2 basepath 0, Ok 0)]
     ∧ umount_attempts (w_trace w') = 2)
  ∧ (∃ w',
       unmount_all einval_once_env errno_name 20 true initial_world = (Exit 1, w')
       ∧ umount_attempts (w_trace w') = 2)
  ∧ (∀ fuel strict, ∃ w',
       unmount_all einval_env errno_name fuel strict initial_world = (Fuel, w')
       ∧ umount_attempts (w_trace w') = Z.of_nat fuel).
Proof.
  split; [|split].
  - eexists. split; [vm_compute; reflexivity|]. split; reflexivity.
  - eexists. split; [vm_compute; reflexivity|]. reflexivity.
  - intros fuel strict.
    destruct (unmount_loop_einval errno_name fuel 19 0 false initial_world ltac:(lia))
      as (w' & Hrun & Hatt).
    exists w'. split; [|exact Hatt].
    unfold unmount_all. unfold bind at 1. rewrite Hrun. reflexivity.
Qed.

(** ** The tokenizer and the record store (C8, C9) *)

(** C8 at the failing input: the line "a;b;c" with the delimiter set ";".
    Only the first [strtok] call is given [delim]; the later calls use the
    fixed set ", ", so the tokenizer yields the two tokens "a" and "b;c",
    whereas the fields separated by ";" are "a", "b" and "c". *)
Theorem extract_fields_ignores_delim :
  ∃ vec w',
    extract_fields ideal_env "a;b;c" ";" initial_world = (Ret vec, w')
    ∧ vdata vec = Some ["a"; "b;c"]
    ∧ vlen vec = 2
    ∧ fields ";" "a;b;c" = ["a"; "b"; "c"].
Proof.
  eexists _, _. split; [vm_compute; reflexivity|].
  repeat split; vm_compute; reflexivity.
Qed.

(** The append operation itself reports the failure: when the store is full
    and [realloc] fails, [vector_add] returns ENOMEM and leaves the store as
    it was. *)
Lemma vector_add_enomem {A} (env : oracle) (vec : vector A) (el : A) w e :
  vcapacity vec ≤ vlen vec →
  env (w_trace w)
      (c_realloc (to_size (to_size (vunitsize vec * vcapacity vec) * 2))) = Err e →
  fst (vector_add env vec el w) = Ret (ENOMEM, vec).
Proof.
  intros Hfull Henv. unfold vector_add.
  destruct (vlen vec >=? vcapacity vec) eqn:Hge; [|lia].
  unfold bind at 1, vector_expand. unfold bind at 1, alloc. unfold bind at 1, ask.
  rewrite Henv. reflexivity.
Qed.

(** C9 at the failing input: a record of seventeen fields, with a [realloc]
    that fails.  The append of the seventeenth field returns ENOMEM, but
    [extract_fields] does not read the returned value: it returns normally a
    store of sixteen fields, the seventeenth dropped, and the replay of the
    log goes on to a normal end with status 0. *)
Theorem extract_fields_drops_field_on_enomem :
  length (fields ", " long_record) = 17%nat
  ∧ (∃ vec w',
       extract_fields no_realloc_env long_record ", " initial_world = (Ret vec, w')
       ∧ vdata vec = Some (take 16 (fields ", " long_record))
       ∧ vlen vec = 16
       ∧ (c_realloc 256, Err ENOMEM) ∈ w_trace w')
  ∧ fst (main no_realloc_env errno_name 0 20 long_record_log initial_world) = Ret 0.
Proof.
  split; [vm_compute; reflexivity|]. split.
  - eexists _, _. split; [vm_compute; reflexivity|].
    split; [vm_compute; reflexivity|]. split; [reflexivity|].
    apply list_elem_of_In. vm_compute. tauto.
  - vm_compute. reflexivity.
Qed.

(** ** The mount sessions of a run (C7) *)










Section Allocations.

(** Code that only allocates keeps any condition that the allocator does not
    disturb. *)
Context (env : oracle) (I : world → Prop).
Hypothesis I_malloc : ∀ n, tolerates I (c_malloc n).
Hypothesis I_calloc : ∀ n size, tolerates I (c_calloc n size).
Hypothesis I_realloc : ∀ n, tolerates I (c_realloc n).






End Allocations.

Section InsideSession.

(** Code that runs between a mount and an unmount keeps any condition that
    the allocator and the file-system calls do not disturb. *)
Context (env : oracle) (strerror : Z → string) (I : world → Prop).
Hypothesis I_stable : stable I.
Hypothesis I_malloc : ∀ n, tolerates I (c_malloc n).
Hypothesis I_calloc : ∀ n size, tolerates I (c_calloc n size).
Hypothesis I_fs : ∀ c, is_fs_call c = true → tolerates I c.



Lemma keeps_mkdir_p_loop rest : ∀ before dir_mode next_f next_d,
  keeps I (mkdir_p_loop env before rest dir_mode next_f next_d).
Proof.
  induction rest as [|c rest IH]; intros before dm nf nd; cbn [mkdir_p_loop].
  - apply keeps_ret.
  - destruct (Ascii.eqb c "/"); [|apply IH].
    apply keeps_bind; [apply keeps_syscall, I_fs; reflexivity | intros r].
    apply keeps_bind; [apply keeps_get_errno | intros e].
    destruct (negb (r =? 0) && negb (e =? EEXIST)); [apply keeps_ret|].
    lazymatch goal with
    | |- keeps _ (let '(_, _) := ?x in _) => destruct x
    end.
    apply IH.
Qed.

Lemma keeps_mkdir_p path dir_mode file_mode :
  keeps I (mkdir_p env path dir_mode file_mode).
Proof.
  unfold mkdir_p.
  repeat lazymatch goal with
         | |- keeps _ (mkdir_p_loop _ _ _ _ _ _) => apply keeps_mkdir_p_loop
         | |- keeps _ (syscall _ _) => apply keeps_syscall, I_fs; reflexivity
         | _ => keeps_step
         end.
Qed.

Lemma keeps_prepopulate entries : keeps I (prepopulate env entries).
Proof.
  induction entries as [|line entries IH]; cbn [prepopulate].
  - apply keeps_ret.
  - repeat lazymatch goal with
           | |- keeps _ (prepopulate _ _) => apply IH
           | |- keeps _ (mkdir_p _ _ _ _) => apply keeps_mkdir_p
           | |- keeps _ (alloc _ _) => apply keeps_alloc, I_calloc
           | _ => keeps_step
           end.
Qed.

End InsideSession.

Section Driver.

Context (env : oracle) (strerror : Z → string) (failpos : Z).









End Driver.




(** ** The tokenizer on the delimiter set of the driver

    With the set ", " that [main] passes, and when no allocation fails,
    [extract_fields] computes the fields of the contract. *)

Lemma fields_skip_delims delim s : fields delim (skip_delims delim s) = fields delim s.
Proof.
  induction s as [|c s IH]; [reflexivity|].
  cbn [skip_delims]. destruct (is_delim delim c) eqn:Hc.
  - rewrite IH. cbn [fields]. rewrite Hc. reflexivity.
  - reflexivity.
Qed.

Lemma skip_delims_head delim s c s' :
  skip_delims delim s = String c s' → is_delim delim c = false.
Proof.
  induction s as [|c0 s IH]; [discriminate|].
  cbn [skip_delims]. destruct (is_delim delim c0) eqn:Hc; [exact IH|].
  intros H. injection H as <- _. exact Hc.
Qed.

Lemma skip_delims_length delim s :
  (String.length (skip_delims delim s) ≤ String.length s)%nat.
Proof.
  induction s as [|c s IH]; [reflexivity|].
  cbn [skip_delims]. destruct (is_delim delim c); cbn [String.length]; lia.
Qed.

Lemma cut_token_fields delim s' : ∀ c,
  is_delim delim c = false →
  fields delim (String c s')
  = fst (cut_token delim (String c s'))
    :: fields delim (default EmptyString (snd (cut_token delim (String c s'))))
  ∧ (String.length (default EmptyString (snd (cut_token delim (String c s'))))
     < String.length (String c s'))%nat.
Proof.
  induction s' as [|c' s'' IH]; intros c Hc.
  - cbn [cut_token fields]. rewrite Hc.
    cbn [fst snd default id String.length fields]. split; [reflexivity | lia].
  - cbn [cut_token fields]. rewrite Hc.
    destruct (is_delim delim c') eqn:Hc'.
    + cbn [fst snd default id String.length]. split; [reflexivity | lia].
    + destruct (IH c' Hc') as [Hf Hl].
      cbn [cut_token] in Hf, Hl. rewrite Hc' in Hf, Hl.
      cbn [fields] in Hf. rewrite Hc' in Hf.
      destruct (cut_token delim s'') as [tok rest] eqn:Hcut.
      cbn [fst snd] in *. rewrite Hf. split; [reflexivity|].
      cbn [String.length] in *. lia.
Qed.

Section TokenizerContract.

Context (env : oracle).
Hypothesis env_ok : never_fails env.

Lemma alloc_never_fails c w :
  alloc env c w = (Ret true, record_event (c, env (w_trace w) c) w).
Proof.
  unfold alloc, bind, ask, ret. destruct (env_ok (w_trace w) c) as [v Hv].
  rewrite Hv. reflexivity.
Qed.

Lemma vector_add_appends {A} (vec : vector A) (el : A) w l :
  vdata vec = Some l → vlen vec = Z.of_nat (length l) →
  Z.of_nat (length l) + 1 < SIZE_MOD →
  ∃ vec1 w1,
    vector_add env vec el w = (Ret (0, vec1), w1)
    ∧ vdata vec1 = Some (l ++ [el])
    ∧ vlen vec1 = Z.of_nat (length (l ++ [el])).
Proof.
  intros Hdata Hlen Hbound. unfold vector_add.
  assert (Hsz : to_size (Z.of_nat (length l) + 1) = Z.of_nat (length (l ++ [el]))).
  { unfold to_size. rewrite Z.mod_small by lia. rewrite length_app. cbn. lia. }
  destruct (vlen vec >=? vcapacity vec).
  - unfold bind at 1, vector_expand. unfold bind at 1. rewrite alloc_never_fails.
    cbv beta iota. unfold ret at 1. cbv beta iota.
    change (negb (0 =? 0)) with false. cbv iota.
    cbn [vdata vlen vunitsize vcapacity]. rewrite Hdata, Hlen. cbn [default].
    eexists _, _. split; [reflexivity|]. cbn [vdata vlen].
    rewrite Nat2Z.id, firstn_all. split; [reflexivity | exact Hsz].
  - unfold bind at 1, ret at 1. cbv beta iota.
    change (negb (0 =? 0)) with false. cbv iota.
    rewrite Hdata, Hlen.
    eexists _, _. split; [reflexivity|]. cbn [vdata vlen].
    rewrite Nat2Z.id, firstn_all. split; [reflexivity | exact Hsz].
Qed.

Lemma extract_loop_fields fuel : ∀ s (vec : vector string) w l,
  (String.length s < fuel)%nat →
  vdata vec = Some l → vlen vec = Z.of_nat (length l) →
  Z.of_nat (length l) + Z.of_nat (String.length s) < SIZE_MOD →
  ∃ vec' w',
    extract_loop env fuel vec (fst (strtok s ", ")) (snd (strtok s ", ")) w
    = (Ret vec', w')
    ∧ vdata vec' = Some (l ++ fields ", " s)
    ∧ vlen vec' = Z.of_nat (length (l ++ fields ", " s)).
Proof.
  induction fuel as [|fuel IH]; intros s vec w l Hfuel Hdata Hlen Hbound; [lia|].
  rewrite <- (fields_skip_delims ", " s). unfold strtok.
  pose proof (skip_delims_length ", " s) as Hskip.
  destruct (skip_delims ", " s) as [|c s1] eqn:Hs.
  - cbn [fst snd extract_loop fields]. rewrite app_nil_r.
    eexists _, _. split; [reflexivity|]. split; assumption.
  - pose proof (skip_delims_head _ _ _ _ Hs) as Hc.
    destruct (cut_token_fields ", " s1 c Hc) as [Hf Hl].
    destruct (cut_token ", " (String c s1)) as [tok rest] eqn:Hcut.
    cbn [fst snd] in *. cbn [extract_loop].
    unfold bind at 1. rewrite alloc_never_fails. cbv beta iota.
    unfold bind at 1, assert, ret at 1. cbv beta iota.
    unfold bind at 1.
    destruct (vector_add_appends vec tok
                (record_event (c_malloc (to_size (strlen tok + 1)),
                               env (w_trace w) (c_malloc (to_size (strlen tok + 1)))) w)
                l Hdata Hlen) as (vec1 & w1 & Hadd & Hdata1 & Hlen1).
    { cbn [String.length] in Hskip. lia. }
    rewrite Hadd. cbv beta iota. cbn [snd].
    destruct (IH (default EmptyString rest) vec1 w1 (l ++ [tok])) as
      (vec' & w' & Hrun & Hdata' & Hlen'); try assumption.
    { cbn [String.length] in *. lia. }
    { rewrite length_app. cbn [length String.length] in *. lia. }
    change (default EmptyString rest)
      with (match rest with Some r => r | None => EmptyString end) in *.
    destruct (strtok (match rest with Some r => r | None => EmptyString end) ", ")
      as [field' olds'] eqn:Htok.
    cbn [fst snd] in Hrun.
    exists vec', w'. split; [exact Hrun|].
    rewrite Hf. rewrite <- app_assoc in Hdata', Hlen'. split; assumption.
Qed.

(** For the delimiter set ", " the tokenizer yields exactly the non-empty
    fields of the line, in order, with no empty token. *)
Lemma extract_fields_comma_space line w :
  Z.of_nat (String.length line) < SIZE_MOD →
  ∃ vec w',
    extract_fields env line ", " w = (Ret vec, w')
    ∧ vdata vec = Some (fields ", " line)
    ∧ vlen vec = Z.of_nat (length (fields ", " line))
    ∧ Forall (λ f, f ≠ EmptyString) (fields ", " line).
Proof.
  intros Hbound. unfold extract_fields, _vector_init.
  unfold bind at 1. unfold bind at 1. rewrite alloc_never_fails.
  cbv beta iota. unfold ret at 1. cbv beta iota.
  destruct (extract_loop_fields (S (String.length line)) line
              (Vector (Some []) sizeof_ptr 0 DEFAULT_INITCAP)
              (record_event (c_calloc DEFAULT_INITCAP sizeof_ptr,
                             env (w_trace w) (c_calloc DEFAULT_INITCAP sizeof_ptr)) w)
              [] ltac:(lia) eq_refl eq_refl ltac:(cbn [length]; lia))
    as (vec & w' & Hrun & Hdata & Hlen).
  change (if DEFAULT_INITCAP <? DEFAULT_INITCAP then DEFAULT_INITCAP
          else DEFAULT_INITCAP) with DEFAULT_INITCAP.
  destruct (strtok line ", ") as [field olds]. cbn [fst snd] in Hrun.
  exists vec, w'. split; [exact Hrun|]. split; [exact Hdata|]. split; [exact Hlen|].
  clear. induction line as [|c s IH]; cbn [fields]; [constructor|].
  destruct (is_delim ", " c); [exact IH|].
  destruct s as [|c' s']; [repeat constructor; discriminate|].
  destruct (is_delim ", " c'); [constructor; [discriminate | exact IH]|].
  destruct (fields ", " (String c' s')) as [|f fs];
    [repeat constructor; discriminate|].
  inversion IH; subst. constructor; [discriminate | assumption].
Qed.

End TokenizerContract.

(** * Further properties *)

(** ** The record store *)

Lemma alloc_eq env c w :
  alloc env c w
  = (Ret (match env (w_trace w) c with Ok _ => true | Err _ => false end),
     record_event (c, env (w_trace w) c) w).
Proof. reflexivity. Qed.

Lemma vector_add_cases {A} (env : oracle) (vec : vector A) (el : A) w l :
  holds vec l → Z.of_nat (length l) + 1 < SIZE_MOD →
  (vlen vec < vcapacity vec
   ∧ vector_add env vec el w
     = (Ret (0, Vector (Some (l ++ [el])) (vunitsize vec) (vlen vec + 1)
                       (vcapacity vec)), w))
  ∨ (vcapacity vec ≤ vlen vec
     ∧ ∃ v, env (w_trace w)
              (c_realloc (to_size (to_size (vunitsize vec * vcapacity vec) * 2)))
            = Ok v
       ∧ vector_add env vec el w
         = (Ret (0, Vector (Some (l ++ [el])) (vunitsize vec) (vlen vec + 1)
                           (to_size (vcapacity vec * 2))),
            record_event
              (c_realloc (to_size (to_size (vunitsize vec * vcapacity vec) * 2)),
               Ok v) w))
  ∨ (vcapacity vec ≤ vlen vec
     ∧ ∃ e, env (w_trace w)
              (c_realloc (to_size (to_size (vunitsize vec * vcapacity vec) * 2)))
            = Err e
       ∧ vector_add env vec el w
         = (Ret (ENOMEM, vec),
            record_event
              (c_realloc (to_size (to_size (vunitsize vec * vcapacity vec) * 2)),
               Err e) w)).
Proof.
  intros [Hdata Hlen] Hbound.
  assert (Hsz : to_size (vlen vec + 1) = vlen vec + 1).
  { unfold to_size. apply Z.mod_small. lia. }
  assert (Htake : take (Z.to_nat (vlen vec)) l = l).
  { rewrite Hlen, Nat2Z.id. apply firstn_all. }
  unfold vector_add.
  destruct (vlen vec >=? vcapacity vec) eqn:Hfull.
  - right.
    destruct (env (w_trace w)
                (c_realloc (to_size (to_size (vunitsize vec * vcapacity vec) * 2))))
      as [v|e] eqn:Henv.
    + left. split; [lia|]. exists v. split; [reflexivity|].
      unfold bind at 1, vector_expand. unfold bind at 1.
      rewrite alloc_eq, Henv.
      cbv beta iota. unfold ret. cbv beta iota.
      change (negb (0 =? 0)) with false. cbv iota.
      cbn [vdata vlen vunitsize vcapacity]. rewrite Hdata. cbn [default id].
      rewrite Htake, Hsz. reflexivity.
    + right. split; [lia|]. exists e. split; [reflexivity|].
      unfold bind at 1, vector_expand. unfold bind at 1.
      rewrite alloc_eq, Henv. reflexivity.
  - left. split; [lia|]. unfold bind, ret. cbv beta iota.
    change (negb (0 =? 0)) with false. cbv iota.
    rewrite Hdata, Htake, Hsz. reflexivity.
Qed.

(** X1.  Appending to a well-formed store, one that holds [l] in a block of
    [capacity] slots with [len <= capacity], [0 < capacity], a positive
    element size and a doubled size in bytes that fits [size_t], always
    returns: either 0, and then the store holds [l] followed by the new
    element, which [_vector_get] finds at the old length while every earlier
    index reads as before; or ENOMEM, and then the store is unchanged. *)
Theorem vector_add_then_get {A} (env : oracle) (vec : vector A) (el : A) w l :
  holds vec l →
  vlen vec ≤ vcapacity vec → 0 < vcapacity vec → 0 < vunitsize vec →
  vunitsize vec * vcapacity vec * 2 < SIZE_MOD →
  ∃ r vec1 w1,
    vector_add env vec el w = (Ret (r, vec1), w1)
    ∧ ((r = 0 ∧ holds vec1 (l ++ [el])
        ∧ vlen vec1 = vlen vec + 1
        ∧ _vector_get vec1 (vlen vec) = Some el
        ∧ ∀ i, 0 ≤ i < vlen vec → _vector_get vec1 i = _vector_get vec i)
       ∨ (r = ENOMEM ∧ vec1 = vec)).
Proof.
  intros Hholds Hle Hcap Husz Hbytes.
  assert (Hbound : Z.of_nat (length l) + 1 < SIZE_MOD).
  { destruct Hholds as [_ Hlen]. rewrite <- Hlen. nia. }
  assert (Hgood : ∀ cap,
    holds (Vector (Some (l ++ [el])) (vunitsize vec) (vlen vec + 1) cap) (l ++ [el])
    ∧ vlen (Vector (Some (l ++ [el])) (vunitsize vec) (vlen vec + 1) cap)
      = vlen vec + 1
    ∧ _vector_get (Vector (Some (l ++ [el])) (vunitsize vec) (vlen vec + 1) cap)
        (vlen vec) = Some el
    ∧ ∀ i, 0 ≤ i < vlen vec →
        _vector_get (Vector (Some (l ++ [el])) (vunitsize vec) (vlen vec + 1) cap) i
        = _vector_get vec i).
  { intros cap. destruct Hholds as [Hdata Hlen].
    split; [|split; [reflexivity|split]].
    - split; [reflexivity|]. cbn [vlen]. rewrite length_app, Hlen. cbn. lia.
    - unfold _vector_get. cbn [vlen vdata].
      destruct (vlen vec <? 0) eqn:H1; [lia|].
      destruct (vlen vec >=? vlen vec + 1) eqn:H2; [lia|]. cbn [orb].
      rewrite Hlen, Nat2Z.id. apply list_lookup_middle. reflexivity.
    - intros i Hi. unfold _vector_get. cbn [vlen vdata]. rewrite Hdata.
      destruct (i <? 0) eqn:H1; [lia|].
      destruct (i >=? vlen vec + 1) eqn:H2; [lia|].
      destruct (i >=? vlen vec) eqn:H3; [lia|]. cbn [orb].
      apply lookup_app_l. lia. }
  destruct (vector_add_cases env vec el w l Hholds Hbound)
    as [[_ Hrun] | [(_ & v & _ & Hrun) | (_ & e & _ & Hrun)]];
    rewrite Hrun; eexists _, _, _; (split; [reflexivity|]).
  - left. split; [reflexivity | apply Hgood].
  - left. split; [reflexivity | apply Hgood].
  - right. split; reflexivity.
Qed.

Lemma vector_add_then_get_witness :
  ∃ r vec1 w1,
    vector_add ideal_env (Vector (Some ["a"; "b"]) 8 2 16) "c" initial_world
    = (Ret (r, vec1), w1)
    ∧ ((r = 0 ∧ holds vec1 (["a"; "b"] ++ ["c"])
        ∧ vlen vec1 = vlen (Vector (Some ["a"; "b"]) 8 2 16) + 1
        ∧ _vector_get vec1 (vlen (Vector (Some ["a"; "b"]) 8 2 16)) = Some "c"
        ∧ ∀ i, 0 ≤ i < vlen (Vector (Some ["a"; "b"]) 8 2 16) →
            _vector_get vec1 i = _vector_get (Vector (Some ["a"; "b"]) 8 2 16) i)
       ∨ (r = ENOMEM ∧ vec1 = Vector (Some ["a"; "b"]) 8 2 16)).
Proof.
  apply (vector_add_then_get ideal_env (Vector (Some ["a"; "b"]) 8 2 16) "c"
           initial_world ["a"; "b"]).
  - split; reflexivity.
  - vm_compute. discriminate.
  - reflexivity.
  - reflexivity.
  - vm_compute. reflexivity.
Defined.

(** X2.  Reads of a store that holds [l]: [_vector_get] yields the element at
    an index within [0, len) and NULL at any other index, and
    [_vector_peek_top] yields the last element, NULL when the store is
    empty. *)
Theorem vector_reads {A} (vec : vector A) l :
  holds vec l →
  (∀ i, 0 ≤ i < vlen vec → _vector_get vec i = l !! Z.to_nat i
                           ∧ is_Some (_vector_get vec i))
  ∧ (∀ i, i < 0 ∨ vlen vec ≤ i → _vector_get vec i = None)
  ∧ _vector_peek_top vec = last l.
Proof.
  intros [Hdata Hlen]. split; [|split].
  - intros i Hi. unfold _vector_get. rewrite Hdata.
    destruct (i <? 0) eqn:H1; [lia|]. destruct (i >=? vlen vec) eqn:H2; [lia|].
    cbn [orb]. split; [reflexivity|]. apply lookup_lt_is_Some. lia.
  - intros i Hi. unfold _vector_get.
    destruct (i <? 0) eqn:H1; [reflexivity|].
    destruct (i >=? vlen vec) eqn:H2; [reflexivity | lia].
  - unfold _vector_peek_top. rewrite Hdata, Hlen.
    clear Hdata Hlen.
    induction l as [|x l' _] using rev_ind; [reflexivity|].
    rewrite last_snoc, length_app. cbn [length].
    destruct (Z.of_nat (length l' + 1) =? 0) eqn:H0;
      [apply Z.eqb_eq in H0; lia|].
    replace (Z.to_nat (Z.of_nat (length l' + 1) - 1)) with (length l') by lia.
    apply list_lookup_middle. reflexivity.
Qed.

Lemma vector_reads_witness :
  (∀ i, 0 ≤ i < vlen (Vector (Some ["a"; "b"]) 8 2 16) →
        _vector_get (Vector (Some ["a"; "b"]) 8 2 16) i = ["a"; "b"] !! Z.to_nat i
        ∧ is_Some (_vector_get (Vector (Some ["a"; "b"]) 8 2 16) i))
  ∧ (∀ i, i < 0 ∨ vlen (Vector (Some ["a"; "b"]) 8 2 16) ≤ i →
          _vector_get (Vector (Some ["a"; "b"]) 8 2 16) i = None)
  ∧ _vector_peek_top (Vector (Some ["a"; "b"]) 8 2 16) = last ["a"; "b"].
Proof.
  apply (vector_reads (Vector (Some ["a"; "b"]) 8 2 16) ["a"; "b"]).
  split; reflexivity.
Defined.

Lemma reallocs_app evs1 evs2 : reallocs (evs1 ++ evs2) = (reallocs evs1 + reallocs evs2)%nat.
Proof. unfold reallocs. rewrite filter_app, length_app. reflexivity. Qed.

(** X3.  The store never outgrows its capacity.  If [len <= capacity] holds
    before an append that returns 0 (and doubling the capacity fits in
    [size_t]), it holds after; the capacity is unchanged when there was room
    and exactly doubled, by one [realloc], when the store was full. *)
Theorem vector_add_capacity {A} (env : oracle) (vec : vector A) (el : A) w l
    vec1 w1 :
  holds vec l → vlen vec ≤ vcapacity vec → 0 < vcapacity vec →
  vcapacity vec * 2 < SIZE_MOD →
  vector_add env vec el w = (Ret (0, vec1), w1) →
  vlen vec1 ≤ vcapacity vec1
  ∧ ∃ evs, w_trace w1 = w_trace w ++ evs
      ∧ ((vlen vec < vcapacity vec ∧ vcapacity vec1 = vcapacity vec ∧ evs = [])
         ∨ (vlen vec = vcapacity vec ∧ vcapacity vec1 = 2 * vcapacity vec
            ∧ reallocs evs = 1%nat ∧ length evs = 1%nat)).
Proof.
  intros Hholds Hle Hpos Hcap Hrun.
  assert (Hbound : Z.of_nat (length l) + 1 < SIZE_MOD).
  { destruct Hholds as [_ Hlen]. rewrite <- Hlen. lia. }
  destruct (vector_add_cases env vec el w l Hholds Hbound)
    as [[Hroom Hrun'] | [(Hfull & v & _ & Hrun') | (_ & e & _ & Hrun')]];
    rewrite Hrun' in Hrun.
  - injection Hrun as <- <-. cbn [vlen vcapacity]. split; [lia|].
    exists []. rewrite app_nil_r. split; [reflexivity|]. left. auto.
  - injection Hrun as <- <-. cbn [vlen vcapacity w_trace record_event].
    assert (Hdbl : to_size (vcapacity vec * 2) = 2 * vcapacity vec).
    { unfold to_size. rewrite Z.mod_small; lia. }
    rewrite Hdbl. split; [lia|].
    eexists. split; [reflexivity|]. right.
    split; [lia|]. split; [reflexivity|]. split; reflexivity.
  - injection Hrun as Hr _. unfold ENOMEM in Hr. discriminate.
Qed.

Lemma vector_add_capacity_witness :
  vlen (Vector (Some ["a"; "b"; "c"]) 8 3 4) ≤ vcapacity (Vector (Some ["a"; "b"; "c"]) 8 3 4)
  ∧ ∃ evs, w_trace initial_world = w_trace initial_world ++ evs
      ∧ ((vlen (Vector (Some ["a"; "b"]) 8 2 4) < vcapacity (Vector (Some ["a"; "b"]) 8 2 4)
          ∧ vcapacity (Vector (Some ["a"; "b"; "c"]) 8 3 4)
            = vcapacity (Vector (Some ["a"; "b"]) 8 2 4)
          ∧ evs = [])
         ∨ (vlen (Vector (Some ["a"; "b"]) 8 2 4) = vcapacity (Vector (Some ["a"; "b"]) 8 2 4)
            ∧ vcapacity (Vector (Some ["a"; "b"; "c"]) 8 3 4)
              = 2 * vcapacity (Vector (Some ["a"; "b"]) 8 2 4)
            ∧ reallocs evs = 1%nat ∧ length evs = 1%nat)).
Proof.
  apply (vector_add_capacity ideal_env (Vector (Some ["a"; "b"]) 8 2 4) "c"
           initial_world ["a"; "b"]
           (Vector (Some ["a"; "b"; "c"]) 8 3 4) initial_world).
  - split; reflexivity.
  - vm_compute. discriminate.
  - reflexivity.
  - reflexivity.
  - reflexivity.
Defined.

(** ** The uniform and the random fill *)

(** X4.  The ONES and BYTE_REPEAT policies write exactly the [len] bytes of
    the buffer, each the byte 1, respectively the value reduced to an
    [unsigned char]; every byte outside [0, len) is left as it was. *)
Theorem uniform_fill_exact (env : oracle) (buffer : memory) len offset type
    value w :
  type = ONES ∨ type = BYTE_REPEAT →
  ∃ m, generate_data env buffer len offset type value w = (Ret m, w)
    ∧ (∀ j, 0 ≤ j < len →
         m !! j = Some (match type with ONES => 1 | _ => value mod 256 end))
    ∧ (∀ j, j < 0 ∨ len ≤ j → m !! j = buffer !! j).
Proof.
  intros [-> | ->]; (eexists; split; [reflexivity|]); unfold memset;
    (split; intros j Hj; rewrite memset_from_lookup;
     [apply decide_True; lia | apply decide_False; lia]).
Qed.

Lemma uniform_fill_exact_witness :
  ∃ m, generate_data ideal_env ∅ 8 0 BYTE_REPEAT 263 initial_world
       = (Ret m, initial_world)
    ∧ (∀ j, 0 ≤ j < 8 → m !! j = Some (263 mod 256))
    ∧ (∀ j, j < 0 ∨ 8 ≤ j → m !! j = (∅ : memory) !! j).
Proof.
  apply (uniform_fill_exact ideal_env ∅ 8 0 BYTE_REPEAT 263 initial_world).
  right. reflexivity.
Defined.

Lemma store32_is_Some (m : memory) i v j :
  is_Some (store32 m i v !! j) ↔ i ≤ j < i + 4 ∨ is_Some (m !! j).
Proof.
  unfold store32, store8. rewrite !lookup_insert.
  destruct (decide (i ≤ j < i + 4)) as [Hin|Hout].
  - split; [intros _; left; exact Hin|]. intros _.
    repeat case_decide; eauto. lia.
  - repeat case_decide; try lia.
    split; [auto | intros [Hx|Hx]; [lia | exact Hx]].
Qed.

Lemma random_loop_stop fuel (m : memory) n i : random_loop fuel m n i 0 = m.
Proof. destruct fuel; reflexivity. Qed.

Lemma min_int_ge r : 4 ≤ r → min sizeof_int r = 4.
Proof.
  intros H. unfold min, sizeof_int. destruct (4 >=? r) eqn:E; lia.
Qed.

Lemma min_int_lt r : r < 4 → min sizeof_int r = r.
Proof.
  intros H. unfold min, sizeof_int. destruct (4 >=? r) eqn:E; lia.
Qed.

(** The last round, with fewer than four bytes to go, still stores a whole
    [int]. *)
Lemma random_loop_tail fuel (m : memory) n i remaining :
  0 < remaining < 4 →
  random_loop (S fuel) m n i remaining = store32 m i n.
Proof.
  intros H. cbn [random_loop].
  destruct (remaining >? 0) eqn:Hgt; [|lia]. cbv zeta.
  rewrite (min_int_lt remaining) by lia.
  replace (remaining - remaining) with 0 by lia. apply random_loop_stop.
Qed.

Lemma random_loop_covers fuel : ∀ (m : memory) n i remaining,
  4 ≤ remaining → (Z.to_nat remaining ≤ fuel)%nat →
  ∀ j, is_Some (random_loop fuel m n i remaining !! j)
       ↔ i ≤ j < i + remaining ∨ is_Some (m !! j).
Proof.
  induction fuel as [|fuel IH]; intros m n i remaining Hrem Hfuel j; [lia|].
  cbn [random_loop]. destruct (remaining >? 0) eqn:Hgt; [|lia]. cbv zeta.
  rewrite (min_int_ge remaining) by lia.
  destruct (decide (remaining - 4 = 0)) as [H0|H0].
  - rewrite H0, random_loop_stop, store32_is_Some. intuition lia.
  - destruct (decide (remaining - 4 < 4)) as [Hlt|Hge].
    + rewrite (min_int_lt (remaining - 4)) by lia.
      destruct fuel as [|fuel]; [lia|].
      rewrite random_loop_tail by lia.
      rewrite !store32_is_Some. intuition lia.
    + rewrite (min_int_ge (remaining - 4)) by lia.
      rewrite (IH (store32 m i n) n (i + 4) (remaining - 4)) by lia.
      rewrite store32_is_Some. intuition lia.
Qed.

(** X5.  The RANDOM_EACH_BYTE policy on a fresh buffer: for a length of at
    least 4 it writes exactly the bytes [0, len) (the last store is moved
    back so that it ends at the buffer's end), and for length 0 nothing; for
    a length of 1, 2 or 3 it stores one whole [int], bytes 0 to 3, past the
    end of the buffer. *)
Theorem random_fill_bounds (env : oracle) len offset value w :
  0 ≤ len →
  ∃ m w', generate_data env ∅ len offset RANDOM_EACH_BYTE value w = (Ret m, w')
    ∧ (len = 0 ∨ 4 ≤ len → ∀ j, is_Some (m !! j) ↔ 0 ≤ j < len)
    ∧ (0 < len < 4 → ∀ j, is_Some (m !! j) ↔ 0 ≤ j < 4).
Proof.
  intros Hlen. unfold generate_data. unfold bind. rewrite syscall_eq.
  cbv beta iota. unfold ret. eexists _, _. split; [reflexivity|]. split.
  - intros [-> | H4] j.
    + rewrite random_loop_stop, lookup_empty. split; [intros [? H]; discriminate | lia].
    + rewrite random_loop_covers by lia. rewrite lookup_empty.
      split; [intros [H|[? H]]; [lia | discriminate] | intros H; left; lia].
  - intros Hsmall j.
    destruct (Z.to_nat len) as [|fuel] eqn:Hf; [lia|].
    rewrite random_loop_tail by lia. rewrite store32_is_Some, lookup_empty.
    split; [intros [H|[? H]]; [lia | discriminate] | intros H; left; lia].
Qed.

Lemma random_fill_bounds_witness :
  ∃ m w', generate_data counting_env ∅ 6 0 RANDOM_EACH_BYTE 0 initial_world
          = (Ret m, w')
    ∧ (6 = 0 ∨ 4 ≤ 6 → ∀ j, is_Some (m !! j) ↔ 0 ≤ j < 6)
    ∧ (0 < 6 < 4 → ∀ j, is_Some (m !! j) ↔ 0 ≤ j < 4).
Proof.
  apply (random_fill_bounds counting_env 6 0 0 initial_world). lia.
Defined.

(** ** The write handler *)

Lemma memset_from_uchar n : ∀ (m : memory) i c c',
  to_uchar c = to_uchar c' → memset_from m i c n = memset_from m i c' n.
Proof.
  induction n as [|n IH]; intros m i c c' Hc; cbn [memset_from]; [reflexivity|].
  unfold store8. rewrite Hc. now apply IH.
Qed.

(** Two continuations that agree on every world of instance count [N] give
    the same run after a step that leaves the instance count alone. *)
Lemma bind_same_n_fs {A B} (m : M A) (k1 k2 : A → M B) w N :
  w_n_fs w = N →
  (∀ w0, w_n_fs (snd (m w0)) = w_n_fs w0) →
  (∀ a w', w_n_fs w' = N → k1 a w' = k2 a w') →
  bind m k1 w = bind m k2 w.
Proof.
  intros HN Hm Hk. unfold bind. specialize (Hm w).
  destruct (m w) as [[a| | | |] w1]; try reflexivity.
  apply Hk. cbn [snd] in Hm. congruence.
Qed.

Lemma n_fs_vector_get_deref {A} (vec : vector A) i w :
  w_n_fs (snd (vector_get_deref vec i w)) = w_n_fs w.
Proof. unfold vector_get_deref. destruct (_vector_get vec i); reflexivity. Qed.

Lemma n_fs_strtol nptr base w : w_n_fs (snd (strtol nptr base w)) = w_n_fs w.
Proof.
  unfold strtol. destruct (scan_number nptr base) as [neg mag].
  repeat lazymatch goal with
         | |- context [if ?b then _ else _] => destruct b
         end; reflexivity.
Qed.

Lemma n_fs_strtoul nptr base w : w_n_fs (snd (strtoul nptr base w)) = w_n_fs w.
Proof.
  unfold strtoul. destruct (scan_number nptr base) as [neg mag].
  destruct (mag >? ULONG_MAX); reflexivity.
Qed.

Lemma n_fs_assert b w : w_n_fs (snd (assert b w)) = w_n_fs w.
Proof. destruct b; reflexivity. Qed.

Lemma n_fs_alloc env c w : w_n_fs (snd (alloc env c w)) = w_n_fs w.
Proof. reflexivity. Qed.

Lemma bind_get_n_fs {B} (k : Z → M B) w : bind get_n_fs k w = k (w_n_fs w) w.
Proof. reflexivity. Qed.

(** The quotient [seq / n_fs] of a sequence position 256 * n_fs further on is
    256 more. *)
Lemma integer_to_write_shift s n :
  0 ≤ s → s + 256 * n ≤ INT_MAX → 0 < n →
  to_uchar (to_int (to_uint (s + 256 * n) / n)) = to_uchar (to_int (to_uint s / n)).
Proof.
  unfold INT_MAX. intros Hs Hmax Hn.
  rewrite !to_uint_small by lia.
  rewrite Z.div_add by lia.
  pose proof (Z.div_pos s n ltac:(lia) ltac:(lia)) as Hq.
  assert (Hup : s / n + 256 ≤ 2 ^ 31 - 1).
  { assert (Hd : (s + 256 * n) / n ≤ 2 ^ 31 - 1).
    { apply Z.div_le_upper_bound; nia. }
    rewrite Z.div_add in Hd by lia. exact Hd. }
  rewrite !to_int_small by lia.
  unfold to_uchar. rewrite <- Zplus_mod_idemp_r.
  change (256 mod 256) with 0. rewrite Z.add_0_r. reflexivity.
Qed.

(** X6.  The payload of a write repeats with period 256 * n_fs in the
    sequence position: replaying the same record 256 * n_fs positions later
    is the same run, with the same bytes written. *)
Theorem do_write_file_payload_period (env : oracle) (strerror : Z → string)
    (argvec : vector string) s w :
  0 ≤ s → s + 256 * w_n_fs w ≤ INT_MAX → 0 < w_n_fs w →
  do_write_file env strerror argvec (s + 256 * w_n_fs w) w
  = do_write_file env strerror argvec s w.
Proof.
  intros Hs Hmax Hn. unfold do_write_file.
  repeat lazymatch goal with
         | |- bind get_n_fs _ _ = _ => fail
         | |- bind _ _ _ = bind _ _ _ =>
             apply (bind_same_n_fs _ _ _ _ (w_n_fs w));
             [ assumption || reflexivity
             | first [ apply n_fs_vector_get_deref | apply n_fs_strtol
                     | apply n_fs_strtoul | apply n_fs_assert
                     | intros ?; apply n_fs_alloc ]
             | intros ? ? ? ]
         end.
  rewrite !bind_get_n_fs.
  match goal with
  | H : w_n_fs ?w' = w_n_fs w |- context [w_n_fs ?w' =? 0] => rewrite H
  end.
  destruct (w_n_fs w =? 0); [reflexivity|].
  unfold generate_data, memset.
  rewrite (memset_from_uchar _ ∅ 0 _ _ (integer_to_write_shift s (w_n_fs w) Hs Hmax Hn)).
  reflexivity.
Qed.

Lemma do_write_file_payload_period_witness :
  do_write_file ideal_env errno_name
    (Vector (Some ["write_file"; "/d-01/f-00"; "02"; "0"; "8"; "8"]) 8 6 16)
    (5 + 256 * w_n_fs (with_n_fs 2 initial_world)) (with_n_fs 2 initial_world)
  = do_write_file ideal_env errno_name
      (Vector (Some ["write_file"; "/d-01/f-00"; "02"; "0"; "8"; "8"]) 8 6 16)
      5 (with_n_fs 2 initial_world).
Proof.
  apply (do_write_file_payload_period ideal_env errno_name
           (Vector (Some ["write_file"; "/d-01/f-00"; "02"; "0"; "8"; "8"]) 8 6 16)
           5 (with_n_fs 2 initial_world)).
  - lia.
  - vm_compute. discriminate.
  - reflexivity.
Defined.


(** ** Records with missing or overflowing fields *)

Lemma vector_get_deref_missing {A} (vec : vector A) i w :
  vlen vec ≤ i → vector_get_deref vec i w = (Undef, w).
Proof.
  intros H. unfold vector_get_deref, _vector_get.
  destruct (i <? 0); [reflexivity|].
  destruct (i >=? vlen vec) eqn:E; [reflexivity | lia].
Qed.

Lemma vector_get_deref_cases {A} (vec : vector A) i w :
  (∃ x, vector_get_deref vec i w = (Ret x, w))
  ∨ vector_get_deref vec i w = (Undef, w).
Proof.
  unfold vector_get_deref. destruct (_vector_get vec i); [left; eauto | right; reflexivity].
Qed.

(** Reads the fields one after the other until the missing one. *)
Ltac deref_step :=
  unfold bind at 1;
  lazymatch goal with
  | |- context [vector_get_deref ?v ?i ?w] =>
      first
        [ rewrite (vector_get_deref_missing v i w) by lia; reflexivity
        | let x := fresh "x" in
          let E := fresh "E" in
          destruct (vector_get_deref_cases v i w) as [[x E] | E];
          rewrite E; [cbv beta iota | reflexivity] ]
  end.

(** X8.  A record with fewer fields than its handler reads is undefined
    behaviour (a NULL dereference) before anything else happens: no call is
    made and nothing is printed.  The handlers read up to field index 1
    (unlink, rmdir), 2 (truncate, symlink, link, mkdir, removexattr, chown,
    chgrp, chmod), 3 (create_file) or 5 (write_file, setxattr). *)
Theorem handlers_need_fields (env : oracle) (strerror : Z → string)
    (argvec : vector string) seq w :
  (vlen argvec ≤ 1 →
     do_unlink env strerror argvec w = (Undef, w)
     ∧ do_rmdir env strerror argvec w = (Undef, w))
  ∧ (vlen argvec ≤ 2 →
     do_truncate env strerror argvec w = (Undef, w)
     ∧ do_symlink env strerror argvec w = (Undef, w)
     ∧ do_link env strerror argvec w = (Undef, w)
     ∧ do_mkdir env strerror argvec w = (Undef, w)
     ∧ do_removexattr env strerror argvec w = (Undef, w)
     ∧ do_chown env strerror argvec w = (Undef, w)
     ∧ do_chgrp env strerror argvec w = (Undef, w)
     ∧ do_chmod env strerror argvec w = (Undef, w))
  ∧ (vlen argvec ≤ 3 → do_create_file env strerror argvec w = (Undef, w))
  ∧ (vlen argvec ≤ 5 →
     do_write_file env strerror argvec seq w = (Undef, w)
     ∧ do_setxattr env strerror argvec w = (Undef, w)).
Proof.
  split; [|split; [|split]]; intros Hlen; repeat split;
    unfold do_unlink, do_rmdir, do_truncate, do_symlink, do_link, do_mkdir,
      do_removexattr, do_chown, do_chgrp, do_chmod, do_create_file,
      do_write_file, do_setxattr;
    repeat deref_step.
Qed.

Lemma handlers_need_fields_witness :
  do_write_file ideal_env errno_name
    (Vector (Some ["write_file"; "/d-01/f-00"; "02"; "0"; "4096"]) 8 5 16) 7
    initial_world = (Undef, initial_world).
Proof.
  destruct (handlers_need_fields ideal_env errno_name
              (Vector (Some ["write_file"; "/d-01/f-00"; "02"; "0"; "4096"]) 8 5 16)
              7 initial_world) as (_ & _ & _ & H).
  apply H. vm_compute. discriminate.
Defined.

(** [strtol] and [strtoul] always return and make no call. *)
Lemma strtol_returns nptr base w :
  ∃ v w', strtol nptr base w = (Ret v, w') ∧ w_trace w' = w_trace w
          ∧ w_stdout w' = w_stdout w ∧ w_stderr w' = w_stderr w
          ∧ v = Z.max LONG_MIN
                  (Z.min LONG_MAX
                     (if fst (scan_number nptr base)
                      then - snd (scan_number nptr base)
                      else snd (scan_number nptr base))).
Proof.
  unfold strtol. destruct (scan_number nptr base) as [neg mag]. cbn [fst snd].
  unfold LONG_MAX, LONG_MIN.
  destruct ((if neg then - mag else mag) >? 2 ^ 63 - 1) eqn:H1;
    [|destruct ((if neg then - mag else mag) <? - 2 ^ 63) eqn:H2];
    eexists _, _; (split; [reflexivity|]); repeat split; try reflexivity; lia.
Qed.

Lemma strtoul_returns nptr base w :
  ∃ v w', strtoul nptr base w = (Ret v, w') ∧ w_trace w' = w_trace w
          ∧ w_stdout w' = w_stdout w ∧ w_stderr w' = w_stderr w
          ∧ (fst (scan_number nptr base) = false →
             v = Z.min ULONG_MAX (snd (scan_number nptr base))).
Proof.
  unfold strtoul. destruct (scan_number nptr base) as [neg mag]. cbn [fst snd].
  unfold ULONG_MAX.
  destruct (mag >? 2 ^ 64 - 1) eqn:H1;
    eexists _, _; (split; [reflexivity|]); repeat split; try reflexivity;
    intros ->; lia.
Qed.

(** X9.  [do_write_file] rejects the overflow sentinels: for a record of six
    fields whose offset field is a decimal number of at least LONG_MAX, or
    whose length field is one of at least ULONG_MAX, the handler aborts on
    its assertion before it allocates the buffer: it makes no call and
    writes nothing on stdout.  (What [assert] itself writes on stderr is
    not part of the model and not part of this statement.) *)
Theorem do_write_file_rejects_sentinels (env : oracle) (strerror : Z → string)
    f0 filepath flagstr f3 offset_str len_str unitsize capacity seq w mag :
  (scan_number offset_str 10 = (false, mag) ∧ LONG_MAX ≤ mag)
  ∨ (scan_number len_str 10 = (false, mag) ∧ ULONG_MAX ≤ mag) →
  ∃ w',
    do_write_file env strerror
      (Vector (Some [f0; filepath; flagstr; f3; offset_str; len_str])
         unitsize 6 capacity) seq w
    = (Abort, w')
    ∧ w_trace w' = w_trace w ∧ w_stdout w' = w_stdout w.
Proof.
  intros Hsent. unfold do_write_file.
  set (vec := Vector (Some [f0; filepath; flagstr; f3; offset_str; len_str])
                unitsize 6 capacity).
  assert (H1 : vector_get_deref vec 1 w = (Ret filepath, w)) by reflexivity.
  assert (H2 : vector_get_deref vec 2 w = (Ret flagstr, w)) by reflexivity.
  assert (H4 : vector_get_deref vec 4 w = (Ret offset_str, w)) by reflexivity.
  assert (H5 : vector_get_deref vec 5 w = (Ret len_str, w)) by reflexivity.
  unfold bind at 1. rewrite H1. cbv beta iota.
  unfold bind at 1. rewrite H2. cbv beta iota.
  unfold bind at 1. rewrite H4. cbv beta iota.
  unfold bind at 1. rewrite H5. cbv beta iota.
  unfold bind at 1.
  destruct (strtol_returns flagstr 8 w) as (fl & w1 & -> & Ht1 & Ho1 & _ & _).
  cbv beta iota. unfold bind at 1.
  destruct (strtol_returns offset_str 10 w1) as (off & w2 & -> & Ht2 & Ho2 & _ & Hoff).
  cbv beta iota. unfold bind at 1.
  destruct (strtoul_returns len_str 10 w2) as (wl & w3 & -> & Ht3 & Ho3 & _ & Hwl).
  cbv beta iota.
  destruct Hsent as [[Hscan Hmag] | [Hscan Hmag]].
  - rewrite Hscan in Hoff. cbn [fst snd] in Hoff.
    assert (off = LONG_MAX) as -> by (unfold LONG_MAX, LONG_MIN in *; lia).
    exists w3. split; [reflexivity|]. split; congruence.
  - rewrite Hscan in Hwl. cbn [fst snd] in Hwl.
    assert (wl = ULONG_MAX) as -> by (specialize (Hwl eq_refl); lia).
    destruct (negb (off =? LONG_MAX)).
    + exists w3. split; [reflexivity|]. split; congruence.
    + exists w3. split; [reflexivity|]. split; congruence.
Qed.

Lemma do_write_file_rejects_sentinels_witness :
  ∃ w',
    do_write_file ideal_env errno_name
      (Vector (Some ["write_file"; "/d-01/f-00"; "02"; "0";
                     "9223372036854775807"; "8"]) 8 6 16) 0 initial_world
    = (Abort, w')
    ∧ w_trace w' = w_trace initial_world ∧ w_stdout w' = w_stdout initial_world.
Proof.
  apply (do_write_file_rejects_sentinels ideal_env errno_name
           "write_file" "/d-01/f-00" "02" "0" "9223372036854775807" "8" 8 16 0
           initial_world 9223372036854775807).
  left. split; [vm_compute; reflexivity | vm_compute; discriminate].
Defined.

(** ** The dispatch *)

(** Beyond the length of the first string, [strncmp] is [strcmp]. *)
Lemma strncmp_eq_long a : ∀ b n,
  (String.length a < n)%nat → strncmp_eq a b n = String.eqb a b.
Proof.
  induction a as [|x a IH]; intros b n Hn; (destruct n as [|n]; [cbn in Hn; lia|]);
    destruct b as [|y b]; cbn [strncmp_eq String.eqb]; try reflexivity.
  destruct (Ascii.eqb x y); [|reflexivity].
  apply IH. cbn [String.length] in Hn. lia.
Qed.

(** Up to the length of the first string, [strncmp] only tests that it is a
    prefix of the second. *)
Lemma strncmp_eq_prefix a : ∀ b,
  strncmp_eq a b (String.length a) = String.prefix a b.
Proof.
  induction a as [|x a IH]; intros b; [destruct b; reflexivity|].
  destruct b as [|y b]; [reflexivity|].
  cbn [String.length strncmp_eq String.prefix].
  destruct (Ascii.eqb_spec x y) as [->|Hne];
    destruct (ascii_dec _ _) as [Heq|Hne']; try congruence;
    first [apply IH | reflexivity].
Qed.

(** X10.  A record whose first field is none of the thirteen operation names
    (the line being longer than that field) is reported as unrecognized and
    nothing else: [dispatch] returns, makes no call and prints the one
    line. *)
Theorem dispatch_unrecognized (env : oracle) (strerror : Z → string)
    funcname (argvec : vector string) seq len w :
  (String.length funcname < Z.to_nat len)%nat →
  ¬ In funcname op_names →
  dispatch env strerror funcname argvec seq len w
  = (Ret tt, to_stdout ("Unrecognized op: " +:+ funcname) w).
Proof.
  intros Hlen Hnot. unfold dispatch. cbv zeta.
  rewrite !strncmp_eq_long by exact Hlen.
  repeat lazymatch goal with
         | |- context [String.eqb funcname ?name] =>
             destruct (String.eqb_spec funcname name) as [Heq|_];
             [exfalso; apply Hnot; rewrite Heq; cbn; tauto|]
         end.
  reflexivity.
Qed.

Lemma dispatch_unrecognized_witness :
  dispatch ideal_env errno_name "rename"
    (Vector (Some ["rename"; "/a"; "/b"]) 8 3 16) 0 15 initial_world
  = (Ret tt, to_stdout ("Unrecognized op: " +:+ "rename") initial_world).
Proof.
  apply (dispatch_unrecognized ideal_env errno_name "rename"
           (Vector (Some ["rename"; "/a"; "/b"]) 8 3 16) 0 15 initial_world).
  - vm_compute. lia.
  - cbn. intros H. repeat destruct H as [H|H]; try discriminate H. exact H.
Defined.

(** X11.  When the line is exactly its first field (a last line without
    newline and without arguments), the name is only compared up to its own
    length: any prefix of "create_file" is dispatched to the create_file
    handler. *)
Theorem dispatch_prefix_of_create_file (env : oracle) (strerror : Z → string)
    funcname (argvec : vector string) seq w :
  String.prefix funcname "create_file" = true →
  dispatch env strerror funcname argvec seq (strlen funcname) w
  = (do_create_file env strerror argvec ;;; ret tt) w.
Proof.
  intros Hpre. unfold dispatch, strlen. cbv zeta.
  rewrite Nat2Z.id, strncmp_eq_prefix, Hpre. reflexivity.
Qed.

Lemma dispatch_prefix_of_create_file_witness :
  dispatch ideal_env errno_name "create" (Vector (Some ["create"]) 8 1 16) 0
    (strlen "create") initial_world
  = (do_create_file ideal_env errno_name (Vector (Some ["create"]) 8 1 16) ;;; ret tt)
      initial_world.
Proof.
  apply (dispatch_prefix_of_create_file ideal_env errno_name "create"
           (Vector (Some ["create"]) 8 1 16) 0 initial_world).
  reflexivity.
Defined.

(** ** The tokenizer *)

Lemma fields_clean delim s :
  Forall (λ f, f ≠ EmptyString ∧ delimiter_free delim f = true) (fields delim s).
Proof.
  induction s as [|c s IH]; cbn [fields]; [constructor|].
  destruct (is_delim delim c) eqn:Hc; [exact IH|].
  assert (Hone : String c EmptyString ≠ EmptyString
                 ∧ delimiter_free delim (String c EmptyString) = true).
  { split; [discriminate|]. unfold delimiter_free. cbn. rewrite Hc. reflexivity. }
  destruct s as [|c' s']; [repeat constructor; apply Hone|].
  destruct (is_delim delim c'); [constructor; [exact Hone | exact IH]|].
  destruct (fields delim (String c' s')) as [|f fs];
    [repeat constructor; apply Hone|].
  inversion IH as [|? ? [Hf1 Hf2] Hfs]; subst. constructor; [|assumption].
  split; [discriminate|]. unfold delimiter_free in *. cbn. rewrite Hc. exact Hf2.
Qed.

(** X12.  With the delimiter set ", " of the driver, when no allocation
    fails and the line fits in [size_t], [extract_fields] returns a store
    that holds exactly the fields of the line in order; each of them is
    non-empty and contains neither a comma nor a space. *)
Theorem extract_fields_contract (env : oracle) line w :
  never_fails env → Z.of_nat (String.length line) < SIZE_MOD →
  ∃ vec w',
    extract_fields env line ", " w = (Ret vec, w')
    ∧ holds vec (fields ", " line)
    ∧ Forall (λ f, f ≠ EmptyString ∧ delimiter_free ", " f = true)
        (fields ", " line).
Proof.
  intros Hnf Hbound.
  destruct (extract_fields_comma_space env Hnf line w Hbound)
    as (vec & w' & Hrun & Hdata & Hlen & _).
  exists vec, w'. split; [exact Hrun|]. split; [split; assumption|].
  apply fields_clean.
Qed.

Lemma extract_fields_contract_witness :
  ∃ vec w',
    extract_fields ideal_env "create_file, /d-01/f-00, 0100, 0644" ", " initial_world
    = (Ret vec, w')
    ∧ holds vec (fields ", " "create_file, /d-01/f-00, 0100, 0644")
    ∧ Forall (λ f, f ≠ EmptyString ∧ delimiter_free ", " f = true)
        (fields ", " "create_file, /d-01/f-00, 0100, 0644").
Proof.
  apply (extract_fields_contract ideal_env "create_file, /d-01/f-00, 0100, 0644"
           initial_world).
  - intros h c. destruct c; cbn; eauto.
  - vm_compute. reflexivity.
Defined.

Section CannotGrow.

Context (env : oracle).
Hypothesis env_capped : cannot_grow env.

Lemma alloc_malloc_ok n w :
  alloc env (c_malloc n) w
  = (Ret true, record_event (c_malloc n, env (w_trace w) (c_malloc n)) w).
Proof.
  rewrite alloc_eq. destruct (env_capped (w_trace w) (c_malloc n)) as [v ->].
  reflexivity.
Qed.

Lemma extract_loop_capped fuel : ∀ s (vec : vector string) w l,
  (String.length s < fuel)%nat →
  holds vec (take 16 l) → vcapacity vec = 16 →
  ∃ vec' w',
    extract_loop env fuel vec (fst (strtok s ", ")) (snd (strtok s ", ")) w
    = (Ret vec', w')
    ∧ holds vec' (take 16 (l ++ fields ", " s)) ∧ vcapacity vec' = 16.
Proof.
  induction fuel as [|fuel IH]; intros s vec w l Hfuel Hholds Hcap; [lia|].
  rewrite <- (fields_skip_delims ", " s). unfold strtok.
  pose proof (skip_delims_length ", " s) as Hskip.
  destruct (skip_delims ", " s) as [|c s1] eqn:Hs.
  - cbn [fst snd extract_loop fields]. rewrite app_nil_r.
    eexists _, _. split; [reflexivity|]. split; assumption.
  - pose proof (skip_delims_head _ _ _ _ Hs) as Hc.
    destruct (cut_token_fields ", " s1 c Hc) as [Hf Hl].
    destruct (cut_token ", " (String c s1)) as [tok rest] eqn:Hcut.
    cbn [fst snd] in *. cbn [extract_loop].
    unfold bind at 1. rewrite alloc_malloc_ok. cbv beta iota.
    unfold bind at 1, assert, ret at 1. cbv beta iota.
    unfold bind at 1.
    set (w0 := record_event _ w).
    assert (Hshort : (length (take 16 l) ≤ 16)%nat) by (rewrite length_take; lia).
    assert (Hnext : ∃ vec1 w1 r,
              vector_add env vec tok w0 = (Ret (r, vec1), w1)
              ∧ holds vec1 (take 16 (l ++ [tok])) ∧ vcapacity vec1 = 16).
    { destruct (vector_add_cases env vec tok w0 (take 16 l) Hholds)
        as [[Hroom Hrun] | [(Hfull & v & Henv & _) | (Hfull & e & _ & Hrun)]].
      - unfold SIZE_MOD. lia.
      - destruct Hholds as [Hdata Hlen]. rewrite Hcap, Hlen in Hroom.
        assert (Hl16 : (length l < 16)%nat).
        { rewrite length_take in Hroom. lia. }
        rewrite take_ge in Hrun by lia.
        eexists _, _, _. split; [exact Hrun|]. split; [|exact Hcap].
        rewrite take_ge by (rewrite length_app; cbn; lia).
        split; [reflexivity|]. cbn [vlen]. rewrite Hlen.
        rewrite take_ge by lia. rewrite length_app. cbn. lia.
      - pose proof (env_capped (w_trace w0)
                      (c_realloc (to_size (to_size (vunitsize vec * vcapacity vec) * 2))))
          as [e He]. congruence.
      - destruct Hholds as [Hdata Hlen]. rewrite Hcap, Hlen in Hfull.
        assert (Hl16 : (16 ≤ length l)%nat).
        { rewrite length_take in Hfull. lia. }
        eexists _, _, _. split; [exact Hrun|]. split; [|exact Hcap].
        rewrite take_app_le by lia. split; assumption. }
    destruct Hnext as (vec1 & w1 & r & Hadd & Hholds1 & Hcap1).
    rewrite Hadd. cbv beta iota. cbn [snd].
    destruct (IH (default EmptyString rest) vec1 w1 (l ++ [tok])) as
      (vec' & w' & Hrun & Hholds' & Hcap'); try assumption.
    { cbn [String.length] in *. lia. }
    change (default EmptyString rest)
      with (match rest with Some r => r | None => EmptyString end) in *.
    destruct (strtok (match rest with Some r => r | None => EmptyString end) ", ")
      as [field' olds'] eqn:Htok.
    cbn [fst snd] in Hrun.
    exists vec', w'. split; [exact Hrun|].
    rewrite Hf. rewrite <- app_assoc in Hholds'. split; assumption.
Qed.

End CannotGrow.

(** X13.  When a block cannot be grown ([realloc] fails while [malloc] and
    [calloc] succeed), [extract_fields] still returns normally, with a store
    that holds the first sixteen fields of the line and no more: every later
    field is dropped without a trace in the result. *)
Theorem extract_fields_keeps_sixteen (env : oracle) line w :
  cannot_grow env →
  ∃ vec w',
    extract_fields env line ", " w = (Ret vec, w')
    ∧ holds vec (take 16 (fields ", " line))
    ∧ vcapacity vec = 16.
Proof.
  intros Henv. unfold extract_fields, _vector_init.
  unfold bind at 1. unfold bind at 1. rewrite alloc_eq.
  destruct (Henv (w_trace w) (c_calloc
              (if DEFAULT_INITCAP <? DEFAULT_INITCAP then DEFAULT_INITCAP
               else DEFAULT_INITCAP) sizeof_ptr)) as [v ->].
  cbv beta iota. unfold ret at 1. cbv beta iota.
  set (w0 := record_event _ w).
  destruct (extract_loop_capped env Henv (S (String.length line)) line
              (Vector (Some []) sizeof_ptr 0 DEFAULT_INITCAP) w0 [])
    as (vec & w' & Hrun & Hholds & Hcap).
  - lia.
  - split; reflexivity.
  - reflexivity.
  - change (if DEFAULT_INITCAP <? DEFAULT_INITCAP then DEFAULT_INITCAP
            else DEFAULT_INITCAP) with DEFAULT_INITCAP.
    destruct (strtok line ", ") as [field olds]. cbn [fst snd] in Hrun.
    exists vec, w'. split; [exact Hrun|]. split; assumption.
Qed.

Lemma extract_fields_keeps_sixteen_witness :
  ∃ vec w',
    extract_fields no_realloc_env long_record ", " initial_world = (Ret vec, w')
    ∧ holds vec (take 16 (fields ", " long_record))
    ∧ vcapacity vec = 16.
Proof.
  apply (extract_fields_keeps_sixteen no_realloc_env long_record initial_world).
  intros h c. destruct c; cbn; eauto.
Defined.

Lemma strtok_shrinks delim s tok rest :
  strtok s delim = (Some tok, rest) → (String.length rest < String.length s)%nat.
Proof.
  unfold strtok. pose proof (skip_delims_length delim s) as Hskip.
  destruct (skip_delims delim s) as [|c s1] eqn:Hs; [discriminate|].
  pose proof (skip_delims_head _ _ _ _ Hs) as Hc.
  destruct (cut_token_fields delim s1 c Hc) as [_ Hl].
  destruct (cut_token delim (String c s1)) as [tok' rest'].
  intros H. injection H as _ <-. cbn [snd] in Hl.
  change (default EmptyString rest')
    with (match rest' with Some r => r | None => EmptyString end) in Hl. lia.
Qed.

Lemma strtok_none delim s rest :
  strtok s delim = (None, rest) → rest = EmptyString.
Proof.
  unfold strtok. destruct (skip_delims delim s); [congruence|].
  destruct (cut_token delim _). discriminate.
Qed.

Lemma vector_add_ends {A} (env : oracle) (vec : vector A) (el : A) w :
  match fst (vector_add env vec el w) with
  | Ret _ | Undef => True
  | _ => False
  end.
Proof.
  cbv beta zeta iota delta [vector_add vector_expand bind alloc ask ret undef].
  destruct (vlen vec >=? vcapacity vec); cbv beta zeta iota;
    [destruct (env _ _)|]; cbv beta iota;
    repeat lazymatch goal with
      | |- context [if ?b then _ else _] => destruct b
      | |- context [match vdata ?v with Some _ => _ | None => _ end] =>
          destruct (vdata v)
      end; exact Logic.I.
Qed.

Lemma extract_loop_ends (env : oracle) fuel :
  ∀ (vec : vector string) (field : option string) (olds : string) w,
  (String.length olds + match field with Some _ => 1 | None => 0 end < fuel)%nat →
  match fst (extract_loop env fuel vec field olds w) with
  | Fuel | Exit _ => False
  | _ => True
  end.
Proof.
  induction fuel as [|fuel IH]; intros vec field olds w Hfuel; [lia|].
  cbn [extract_loop]. destruct field as [f|]; [|exact Logic.I].
  unfold bind at 1. rewrite alloc_eq.
  destruct (env (w_trace w) (c_malloc (to_size (strlen f + 1)))) as [v|e];
    cbv beta iota; [|exact Logic.I].
  unfold bind at 1, assert at 1, ret at 1. cbv beta iota. unfold bind at 1.
  pose proof (vector_add_ends env vec f
                (record_event (c_malloc (to_size (strlen f + 1)), Ok v) w)) as Hadd.
  destruct (vector_add env vec f _) as [[rv| | | |] w1]; cbn [fst] in Hadd;
    try contradiction; cbv beta iota; [|exact Logic.I].
  destruct (strtok olds ", ") as [field' olds'] eqn:Htok.
  apply IH. destruct field' as [f'|].
  - pose proof (strtok_shrinks _ _ _ _ Htok). lia.
  - rewrite (strtok_none _ _ _ Htok). cbn. lia.
Qed.

(** X14.  The tokenizer's loop ends in every environment and for every
    delimiter set: [extract_fields] returns, or aborts on a failed [malloc]
    of a field copy, or dereferences a NULL store; it never keeps running
    and never exits the process. *)
Theorem extract_fields_ends (env : oracle) line delim w :
  match fst (extract_fields env line delim w) with
  | Fuel | Exit _ => False
  | _ => True
  end.
Proof.
  unfold extract_fields, _vector_init.
  unfold bind at 1. unfold bind at 1. rewrite alloc_eq. cbv beta iota.
  unfold ret at 1. cbv beta iota.
  destruct (strtok line delim) as [field olds] eqn:Htok.
  apply extract_loop_ends. destruct field as [f|].
  - pose proof (strtok_shrinks _ _ _ _ Htok). lia.
  - rewrite (strtok_none _ _ _ Htok). cbn. lia.
Qed.

(** ** The unmount loop in any environment *)

Lemma usleeps_app evs1 evs2 : usleeps (evs1 ++ evs2) = usleeps evs1 + usleeps evs2.
Proof. unfold usleeps. rewrite filter_app, length_app. lia. Qed.

Lemma unmount_loop_inv (env : oracle) strerror fuel :
  ∀ retry_limit num_retries has_failure w o w',
  0 ≤ retry_limit →
  unmount_loop env strerror fuel retry_limit num_retries has_failure w = (o, w') →
  ∃ evs,
    w_trace w' = w_trace w ++ evs
    ∧ usleeps evs ≤ retry_limit
    ∧ match o with
      | Ret (rl', hf') =>
          0 ≤ rl' ∧ usleeps evs = retry_limit - rl'
          ∧ (hf' = false → has_failure = false ∧ Forall busy_or_ok evs)
          ∧ (0 < rl' → 0 < retry_limit →
             last evs = Some (c_umount2 basepath 0, Ok 0))
      | Fuel => True
      | _ => False
      end.
Proof.
  induction fuel as [|fuel IH]; intros rl nr hf w o w' Hrl Hrun.
  - injection Hrun as <- <-. exists []. rewrite app_nil_r.
    split; [reflexivity|]. split; [exact Hrl | exact Logic.I].
  - cbn [unmount_loop] in Hrun. destruct (rl >? 0) eqn:Hgt.
    2:{ injection Hrun as <- <-. exists []. rewrite app_nil_r.
        change (usleeps []) with 0.
        split; [reflexivity|]. split; [exact Hrl|].
        split; [exact Hrl|]. split; [lia|]. split; [|lia].
        intros ->. split; [reflexivity | constructor]. }
    unfold bind at 1 in Hrun. rewrite syscall_eq in Hrun. cbv beta iota in Hrun.
    set (r := env (w_trace w) (c_umount2 basepath 0)) in *.
    set (w1 := record_event (c_umount2 basepath 0, r) w) in *.
    destruct (match r with Ok v => v | Err _ => -1 end =? 0) eqn:Hr.
    { injection Hrun as <- <-. exists [(c_umount2 basepath 0, r)].
      assert (r = Ok 0) as Hr0.
      { destruct r as [v|e]; [apply Z.eqb_eq in Hr; congruence | discriminate]. }
      change (usleeps _) with 0.
      split; [reflexivity|]. split; [exact Hrl|].
      split; [exact Hrl|]. split; [lia|]. split.
      - intros ->. split; [reflexivity|]. rewrite Hr0. repeat constructor.
      - intros _ _. rewrite Hr0. reflexivity. }
    unfold bind at 1 in Hrun. unfold get_errno at 1 in Hrun. cbv beta iota in Hrun.
    destruct (w_errno w1 =? EBUSY) eqn:Hbusy.
    + unfold bind at 1 in Hrun. unfold print_stderr at 1 in Hrun.
      cbv beta iota in Hrun.
      unfold bind at 1 in Hrun. rewrite syscall_eq in Hrun. cbv beta iota in Hrun.
      apply IH in Hrun; [|lia]. destruct Hrun as (evs & Htr & Hle & Hout).
      unfold w1 in Htr. cbn [w_trace record_event to_stderr] in Htr.
      match type of Htr with
      | _ = ((_ ++ [?a]) ++ [?b]) ++ _ => exists ([a; b] ++ evs)
      end.
      split; [rewrite Htr, <- !app_assoc; reflexivity|].
      rewrite usleeps_app.
      change (usleeps [_; _]) with 1.
      split; [lia|].
      destruct o as [[rl' hf']| | | |]; try exact Hout.
      destruct Hout as (H0 & Hcnt & Hhf & Hlast).
      split; [exact H0|]. split; [lia|]. split.
      * intros Hf. destruct (Hhf Hf) as [-> Hall]. split; [reflexivity|].
        constructor.
        { apply Z.eqb_eq in Hbusy. subst w1. cbn [busy_or_ok].
          destruct r as [v|e]; [exact Logic.I | exact Hbusy]. }
        constructor; [exact Logic.I | exact Hall].
      * intros Hpos _.
        assert (Hrl1 : 0 < rl - 1) by (unfold usleeps in Hcnt; lia).
        specialize (Hlast Hpos Hrl1).
        destruct evs as [|ev evs]; [discriminate|].
        cbn [app]. rewrite !last_cons_cons. exact Hlast.
    + unfold bind at 1 in Hrun. unfold print_stderr at 1 in Hrun.
      cbv beta iota in Hrun.
      apply IH in Hrun; [|exact Hrl]. destruct Hrun as (evs & Htr & Hle & Hout).
      unfold w1 in Htr. cbn [w_trace record_event to_stderr] in Htr.
      exists ([(c_umount2 basepath 0, r)] ++ evs).
      split; [rewrite Htr, <- !app_assoc; reflexivity|].
      rewrite usleeps_app. change (usleeps [_]) with 0.
      split; [lia|].
      destruct o as [[rl' hf']| | | |]; try exact Hout.
      destruct Hout as (H0 & Hcnt & Hhf & Hlast).
      split; [exact H0|]. split; [lia|]. split.
      * intros Hf. destruct (Hhf Hf) as [? _]. discriminate.
      * intros Hpos Hpos'. specialize (Hlast Hpos Hpos').
        destruct evs as [|ev evs]; [discriminate|].
        cbn [app]. rewrite last_cons_cons. exact Hlast.
Qed.

(** X15.  In strict mode [unmount_all] comes back to its caller only after
    a successful unmount: the last call it made is [umount2(basepath, 0)]
    answered 0, every attempt that failed before it failed with EBUSY, and
    it has waited fewer than nineteen times. *)
Theorem unmount_all_strict_returns (env : oracle) strerror fuel w w' :
  unmount_all env strerror fuel true w = (Ret tt, w') →
  ∃ evs,
    w_trace w' = w_trace w ++ evs
    ∧ last evs = Some (c_umount2 basepath 0, Ok 0)
    ∧ Forall busy_or_ok evs
    ∧ usleeps evs < 19.
Proof.
  unfold unmount_all. unfold bind at 1.
  destruct (unmount_loop env strerror fuel 19 0 false w) as [o w1] eqn:Hloop.
  destruct (unmount_loop_inv env strerror fuel 19 0 false w o w1 ltac:(lia) Hloop)
    as (evs & Htr & Hle & Hout).
  destruct o as [[rl hf]| | | |]; try discriminate.
  destruct Hout as (H0 & Hcnt & Hhf & Hlast).
  destruct (rl =? 0) eqn:Hz.
  - unfold bind, print_stderr, ret, exit. cbn. discriminate.
  - unfold bind at 1, ret at 1. cbv beta iota.
    destruct hf; cbn [andb]; [discriminate|].
    intros H. injection H as <-. exists evs.
    apply Z.eqb_neq in Hz.
    split; [exact Htr|]. split; [apply Hlast; lia|].
    split; [apply Hhf; reflexivity | lia].
Qed.

Lemma unmount_all_strict_returns_witness :
  ∃ evs,
    w_trace (snd (unmount_all (busy_env 2) errno_name 20 true initial_world))
    = w_trace initial_world ++ evs
    ∧ last evs = Some (c_umount2 basepath 0, Ok 0)
    ∧ Forall busy_or_ok evs
    ∧ usleeps evs < 19.
Proof.
  apply (unmount_all_strict_returns (busy_env 2) errno_name 20 initial_world).
  vm_compute. reflexivity.
Defined.

(** X16.  Whatever the environment answers, [unmount_all] waits at most
    nineteen times; it never aborts, and it leaves the process only by
    [exit(1)] and only in strict mode: in relaxed mode it always comes back
    (or is still retrying). *)
Theorem unmount_all_bounded (env : oracle) strerror fuel strict w :
  ∃ evs,
    w_trace (snd (unmount_all env strerror fuel strict w)) = w_trace w ++ evs
    ∧ usleeps evs ≤ 19
    ∧ match fst (unmount_all env strerror fuel strict w) with
      | Ret _ | Fuel => True
      | Exit code => code = 1 ∧ strict = true
      | _ => False
      end.
Proof.
  destruct (unmount_all env strerror fuel strict w) as [o' w''] eqn:Hall.
  cbn [fst snd]. unfold unmount_all in Hall. unfold bind at 1 in Hall.
  destruct (unmount_loop env strerror fuel 19 0 false w) as [o w1] eqn:Hloop.
  destruct (unmount_loop_inv env strerror fuel 19 0 false w o w1 ltac:(lia) Hloop)
    as (evs & Htr & Hle & Hout).
  exists evs.
  destruct o as [[rl hf]| | | |]; try contradiction.
  - destruct (rl =? 0); unfold bind, print_stderr, ret, exit in Hall;
      [|destruct hf]; destruct strict; cbn [andb] in Hall;
      injection Hall as <- <-; cbn [w_trace to_stderr];
      (split; [exact Htr|]); (split; [exact Hle|]);
      first [exact Logic.I | split; reflexivity].
  - injection Hall as <- <-. split; [exact Htr|].
    split; [exact Hle | exact Logic.I].
Qed.

Lemma unmount_loop_ends (env : oracle) strerror :
  (∀ h, env h (c_umount2 basepath 0) = Ok 0
        ∨ env h (c_umount2 basepath 0) = Err EBUSY) →
  ∀ fuel retry_limit num_retries has_failure w,
  0 ≤ retry_limit < Z.of_nat fuel →
  ∃ rl' w' evs,
    unmount_loop env strerror fuel retry_limit num_retries has_failure w
    = (Ret (rl', has_failure), w')
    ∧ w_trace w' = w_trace w ++ evs
    ∧ umount_attempts evs ≤ retry_limit
    ∧ (rl' = 0 → umount_attempts evs = retry_limit).
Proof.
  intros Henv. induction fuel as [|fuel IH]; intros rl nr hf w Hfuel; [lia|].
  destruct (Z.eq_dec rl 0) as [->|Hpos].
  - rewrite unmount_loop_done by lia. exists 0, w, []. rewrite app_nil_r.
    repeat split; reflexivity.
  - destruct (Henv (w_trace w)) as [Hok | Hbusy].
    + rewrite unmount_loop_step_ok by (exact Hok || lia).
      eexists rl, _, [_]. split; [reflexivity|].
      split; [reflexivity|]. change (umount_attempts [_]) with 1. lia.
    + destruct (unmount_loop_step_busy env strerror fuel rl nr hf w
                  ltac:(lia) Hbusy)
        as (w2 & r2 & msg & Htr2 & _ & _ & _ & ->).
      destruct (IH (rl - 1) (nr + 1) hf w2 ltac:(lia))
        as (rl' & w' & evs & Hrun & Htr & Hatt & Hzero).
      eexists rl', w', (_ ++ evs). split; [exact Hrun|].
      split; [rewrite Htr, Htr2, <- app_assoc; reflexivity|].
      rewrite umount_attempts_app.
      change (umount_attempts [_; _]) with 1. lia.
Qed.

(** X17.  When the unmount primitive only ever answers success or EBUSY,
    [unmount_all] ends within twenty rounds: it makes at most nineteen
    attempts and then returns, or, in strict mode after nineteen busy
    answers, exits with code 1. *)
Theorem unmount_all_ends (env : oracle) strerror fuel strict w :
  (∀ h, env h (c_umount2 basepath 0) = Ok 0
        ∨ env h (c_umount2 basepath 0) = Err EBUSY) →
  (19 < fuel)%nat →
  ∃ o w' evs,
    unmount_all env strerror fuel strict w = (o, w')
    ∧ w_trace w' = w_trace w ++ evs
    ∧ umount_attempts evs ≤ 19
    ∧ (o = Ret tt ∨ (o = Exit 1 ∧ strict = true ∧ umount_attempts evs = 19)).
Proof.
  intros Henv Hfuel.
  destruct (unmount_loop_ends env strerror Henv fuel 19 0 false w ltac:(lia))
    as (rl' & w1 & evs & Hrun & Htr & Hatt & Hzero).
  unfold unmount_all. unfold bind at 1. rewrite Hrun.
  destruct (rl' =? 0) eqn:Hz.
  - apply Z.eqb_eq in Hz. specialize (Hzero Hz).
    unfold bind, print_stderr, ret, exit. cbn [andb].
    destruct strict; eexists _, _, evs; (split; [reflexivity|]);
      (split; [exact Htr|]); (split; [exact Hatt|]); auto.
  - unfold bind, ret. cbn [andb].
    eexists _, _, evs. split; [reflexivity|].
    split; [exact Htr|]. split; [exact Hatt|]. left. reflexivity.
Qed.

Lemma unmount_all_ends_witness :
  ∃ o w' evs,
    unmount_all (busy_env 5) errno_name 20 true initial_world = (o, w')
    ∧ w_trace w' = w_trace initial_world ++ evs
    ∧ umount_attempts evs ≤ 19
    ∧ (o = Ret tt ∨ (o = Exit 1 ∧ true = true ∧ umount_attempts evs = 19)).
Proof.
  apply (unmount_all_ends (busy_env 5) errno_name 20 true initial_world).
  - intros h. unfold busy_env.
    destruct (umount_attempts h <? 5); [right | left]; reflexivity.
  - lia.
Defined.

(** X18.  The backoff schedule where it is exact: the unmount primitive is
    busy on the first [k] attempts, [k] at most 16, and then succeeds.  In
    either mode [unmount_all] returns after [k + 1] attempts and has asked
    [usleep] for 100 * (2^k - 1) milliseconds in all, which is less than
    the 32-bit limit of a single call only up to there. *)
Theorem unmount_all_backoff_total (env : oracle) strerror (k : nat) fuel strict w :
  (k ≤ 16)%nat → (k < fuel)%nat →
  (∀ evs, umount_attempts evs < Z.of_nat k →
          env (w_trace w ++ evs) (c_umount2 basepath 0) = Err EBUSY) →
  (∀ evs, umount_attempts evs = Z.of_nat k →
          env (w_trace w ++ evs) (c_umount2 basepath 0) = Ok 0) →
  ∃ w' evs,
    unmount_all env strerror fuel strict w = (Ret tt, w')
    ∧ w_trace w' = w_trace w ++ evs
    ∧ umount_attempts evs = Z.of_nat k + 1
    ∧ total_usleep evs = 1000 * (100 * (2 ^ Z.of_nat k - 1)).
Proof.
  intros Hk Hfuel Hbusy Hok.
  destruct (unmount_busy_then_ok env strerror k fuel strict w
              ltac:(lia) Hfuel Hbusy Hok)
    as (w' & evs & Hrun & Htr & Hatt & Hsum & _).
  exists w', evs. rewrite <- (sum_backoff_exact k Hk). auto.
Qed.

Lemma unmount_all_backoff_total_witness :
  ∃ w' evs,
    unmount_all (busy_env 3) errno_name 20 true initial_world = (Ret tt, w')
    ∧ w_trace w' = w_trace initial_world ++ evs
    ∧ umount_attempts evs = Z.of_nat 3 + 1
    ∧ total_usleep evs = 1000 * (100 * (2 ^ Z.of_nat 3 - 1)).
Proof.
  apply (unmount_all_backoff_total (busy_env 3) errno_name 3 20 true initial_world).
  - lia.
  - lia.
  - intros evs H. unfold busy_env. cbn [w_trace initial_world app].
    destruct (umount_attempts evs <? 3) eqn:Hlt; [reflexivity|].
    apply Z.ltb_ge in Hlt. cbn in H. lia.
  - intros evs H. unfold busy_env. cbn [w_trace initial_world app].
    destruct (umount_attempts evs <? 3) eqn:Hlt; [|reflexivity].
    apply Z.ltb_lt in Hlt. cbn in H. lia.
Defined.

(** ** [mountall] *)

Lemma undo_mounts_trace (env : oracle) n : ∀ w,
  ∃ w' evs,
    undo_mounts env n w = (Ret tt, w')
    ∧ w_trace w' = w_trace w ++ evs
    ∧ length evs = n
    ∧ Forall (λ ev, fst ev = c_umount2 basepath MNT_FORCE) evs
    ∧ w_stderr w' = w_stderr w ∧ w_stdout w' = w_stdout w.
Proof.
  induction n as [|n IH]; intros w.
  - exists w, []. rewrite app_nil_r. repeat split; constructor.
  - cbn [undo_mounts]. unfold bind at 1. rewrite syscall_eq. cbv beta iota.
    destruct (IH (record_event (c_umount2 basepath MNT_FORCE,
                                env (w_trace w) (c_umount2 basepath MNT_FORCE)) w))
      as (w' & evs & Hrun & Htr & Hlen & Hall & Herr & Hout).
    exists w', ((c_umount2 basepath MNT_FORCE,
                 env (w_trace w) (c_umount2 basepath MNT_FORCE)) :: evs).
    split; [exact Hrun|].
    split; [rewrite Htr; cbn [w_trace record_event]; rewrite <- app_assoc;
            reflexivity|].
    split; [cbn [length]; congruence|].
    split; [constructor; [reflexivity | exact Hall]|].
    split; [rewrite Herr | rewrite Hout]; reflexivity.
Qed.

(** X19.  [mountall] makes one [mount] call.  Answered 0, it returns with
    nothing else done.  Otherwise it never returns: it issues [failpos]
    forced unmounts of the mount point, prints one diagnostic that names
    the error of the [mount] call, not that of a forced unmount that failed
    after it, and exits with code 1. *)
Theorem mountall_outcomes (env : oracle) strerror failpos w :
  let c := c_mount device basepath fsys MS_NOATIME in
  let r := env (w_trace w) c in
  match r with
  | Ok 0 => mountall env strerror failpos w = (Ret tt, record_event (c, r) w)
  | _ =>
      ∃ w' evs,
        mountall env strerror failpos w = (Exit 1, w')
        ∧ w_trace w' = w_trace w ++ (c, r) :: evs
        ∧ length evs = Z.to_nat failpos
        ∧ Forall (λ ev, fst ev = c_umount2 basepath MNT_FORCE) evs
        ∧ w_stdout w' = w_stdout w
        ∧ w_stderr w'
          = w_stderr w
            ++ [line_of ["Could not mount file system "; fsys; " in "; device;
                         " at "; basepath; " (";
                         strerror (match r with Ok _ => w_errno w | Err e => e end);
                         ")"]]
  end.
Proof.
  intros c r.
  assert (Hfail : negb (match r with Ok v => v | Err _ => -1 end =? 0) = true →
    ∃ w' evs,
      mountall env strerror failpos w = (Exit 1, w')
      ∧ w_trace w' = w_trace w ++ (c, r) :: evs
      ∧ length evs = Z.to_nat failpos
      ∧ Forall (λ ev, fst ev = c_umount2 basepath MNT_FORCE) evs
      ∧ w_stdout w' = w_stdout w
      ∧ w_stderr w'
        = w_stderr w
          ++ [line_of ["Could not mount file system "; fsys; " in "; device;
                       " at "; basepath; " (";
                       strerror (match r with Ok _ => w_errno w | Err e => e end);
                       ")"]]).
  { intros Hnz. unfold mountall. fold c.
    unfold bind at 1. rewrite syscall_eq. fold r. cbv beta iota.
    rewrite Hnz. unfold bind at 1, get_errno at 1. cbv beta iota.
    unfold bind at 1.
    destruct (undo_mounts_trace env (Z.to_nat failpos) (record_event (c, r) w))
      as (w1 & evs & Hrun & Htr & Hlen & Hall & Herr & Hout).
    rewrite Hrun. unfold bind, print_stderr, exit.
    eexists _, evs. split; [reflexivity|].
    cbn [w_trace w_stdout w_stderr to_stderr].
    split; [rewrite Htr; cbn [w_trace record_event]; rewrite <- app_assoc;
            reflexivity|].
    split; [exact Hlen|]. split; [exact Hall|].
    split; [rewrite Hout; reflexivity|].
    rewrite Herr. cbn [w_stderr record_event w_errno snd].
    destruct r; reflexivity. }
  destruct r as [[|p|p]|e] eqn:Hr; try (apply Hfail; reflexivity).
  unfold mountall. fold c. unfold bind at 1. rewrite syscall_eq. fold r.
  rewrite Hr. reflexivity.
Qed.

(** ** [mkdir_p] *)

Lemma append_cons x b r : String x b +:+ r = String x (b +:+ r).
Proof. reflexivity. Qed.

Lemma append_snoc b c r : (b +:+ String c EmptyString) +:+ r = b +:+ String c r.
Proof.
  induction b as [|x b IH]; [reflexivity|]. rewrite !append_cons, IH. reflexivity.
Qed.

Lemma length_append b r :
  String.length (b +:+ r) = (String.length b + String.length r)%nat.
Proof.
  induction b as [|x b IH]; [reflexivity|].
  rewrite append_cons. cbn [String.length]. rewrite IH. reflexivity.
Qed.

Lemma length_snoc b c : String.length (b +:+ String c EmptyString) = S (String.length b).
Proof. rewrite length_append. cbn [String.length]. lia. Qed.

Lemma get_append_length b r i :
  String.get (String.length b + i) (b +:+ r) = String.get i r.
Proof.
  induction b as [|x b IH]; [reflexivity|].
  rewrite append_cons. cbn [String.length Nat.add String.get]. exact IH.
Qed.

Lemma substring_append_length b r :
  String.substring 0 (String.length b) (b +:+ r) = b.
Proof.
  induction b as [|x b IH]; [destruct r; reflexivity|].
  rewrite append_cons. cbn [String.length String.substring]. rewrite IH.
  reflexivity.
Qed.

Lemma ancestors_from_step b c r :
  ancestors_from (String.length b) (b +:+ String c r)
  = (if Ascii.eqb c "/" then [b] else [])
    ++ ancestors_from (String.length (b +:+ String c EmptyString))
         ((b +:+ String c EmptyString) +:+ r).
Proof.
  unfold ancestors_from. rewrite append_snoc, length_snoc, length_append.
  cbn [String.length].
  replace (String.length b + S (String.length r) - String.length b)%nat
    with (S (String.length r)) by lia.
  replace (String.length b + S (String.length r) - S (String.length b))%nat
    with (String.length r) by lia.
  cbn [seq]. rewrite filter_cons.
  assert (Hs : slash_at (b +:+ String c r) (String.length b) = Ascii.eqb c "/").
  { unfold slash_at. rewrite <- (Nat.add_0_r (String.length b)) at 1.
    rewrite get_append_length. reflexivity. }
  rewrite Hs. destruct (Ascii.eqb c "/"); case_decide; try discriminate;
    try congruence.
  - cbn [map app]. rewrite substring_append_length. reflexivity.
  - reflexivity.
Qed.

Lemma component_starts_from_step b c r ch :
  component_starts_from (String.length b) (b +:+ String c r) ch
  = (Ascii.eqb c "/"
     && match r with String x _ => Ascii.eqb x ch | EmptyString => false end)
    || component_starts_from (String.length (b +:+ String c EmptyString))
         ((b +:+ String c EmptyString) +:+ r) ch.
Proof.
  unfold component_starts_from. rewrite append_snoc, length_snoc, length_append.
  cbn [String.length].
  replace (String.length b + S (String.length r) - String.length b)%nat
    with (S (String.length r)) by lia.
  replace (String.length b + S (String.length r) - S (String.length b))%nat
    with (String.length r) by lia.
  cbn [seq existsb]. f_equal. f_equal.
  - unfold slash_at. rewrite <- (Nat.add_0_r (String.length b)) at 1.
    rewrite get_append_length. reflexivity.
  - replace (S (String.length b)) with (String.length b + 1)%nat by lia.
    rewrite get_append_length. cbn. destruct r; reflexivity.
Qed.

Lemma next_flags rest (next_f next_d : bool) :
  match rest with
  | String "f" _ => (true, next_d)
  | String "d" _ => (next_f, true)
  | _ => (next_f, next_d)
  end
  = (next_f || match rest with String x _ => Ascii.eqb x "f" | EmptyString => false end,
     next_d || match rest with String x _ => Ascii.eqb x "d" | EmptyString => false end).
Proof.
  destruct rest as [|x rest]; [now rewrite !orb_false_r|].
  destruct x as [[] [] [] [] [] [] [] []]; cbn [Ascii.eqb Bool.eqb];
    rewrite ?orb_false_r, ?orb_true_r; reflexivity.
Qed.

Lemma mkdir_p_loop_tolerant (env : oracle) dir_mode :
  tolerant env →
  ∀ rest before next_f next_d w,
  ∃ w' (evs : list event),
    mkdir_p_loop env before rest dir_mode next_f next_d w
    = (Ret (Some (next_f || component_starts_from (String.length before)
                               (before +:+ rest) "f",
                  next_d || component_starts_from (String.length before)
                               (before +:+ rest) "d")), w')
    ∧ w_trace w' = w_trace w ++ evs
    ∧ map fst evs = map (λ q, c_mkdir q dir_mode)
                        (ancestors_from (String.length before) (before +:+ rest))
    ∧ w_pre w' = w_pre w.
Proof.
  intros Henv. induction rest as [|c rest IH]; intros before nf nd w.
  - exists w, []. cbn [mkdir_p_loop].
    unfold component_starts_from, ancestors_from.
    rewrite length_append. cbn [String.length].
    replace (String.length before + 0 - String.length before)%nat with O by lia.
    cbn [seq existsb]. rewrite !orb_false_r, app_nil_r.
    repeat split; reflexivity.
  - cbn [mkdir_p_loop].
    rewrite ancestors_from_step, !component_starts_from_step.
    destruct (Ascii.eqb c "/") eqn:Hc.
    + apply Ascii.eqb_eq in Hc. subst c.
      unfold bind at 1. rewrite syscall_eq. cbv beta iota.
      set (r := env (w_trace w) (c_mkdir before dir_mode)).
      unfold bind at 1, get_errno at 1. cbv beta iota.
      assert (Hgo : negb (match r with Ok v => v | Err _ => -1 end =? 0)
                    && negb (w_errno (record_event (c_mkdir before dir_mode, r) w)
                             =? EEXIST) = false).
      { pose proof (Henv (w_trace w) (c_mkdir before dir_mode)) as Hr.
        cbv beta iota in Hr. fold r in Hr. destruct Hr as [-> | ->]; reflexivity. }
      rewrite Hgo, next_flags.
      destruct (IH (before +:+ "/")
                  (nf || match rest with
                         | String x _ => Ascii.eqb x "f" | EmptyString => false end)
                  (nd || match rest with
                         | String x _ => Ascii.eqb x "d" | EmptyString => false end)
                  (record_event (c_mkdir before dir_mode, r) w))
        as (w' & evs & Hrun & Htr & Hcalls & Hpre).
      exists w', ((c_mkdir before dir_mode, r) :: evs).
      split; [rewrite Hrun, !orb_assoc; reflexivity|].
      split; [rewrite Htr; cbn [w_trace record_event]; rewrite <- app_assoc;
              reflexivity|].
      split; [|exact Hpre].
      cbn [map app fst]. rewrite Hcalls. reflexivity.
    + destruct (IH (before +:+ String c EmptyString) nf nd w)
        as (w' & evs & Hrun & Htr & Hcalls & Hpre).
      exists w', evs. split; [exact Hrun|]. split; [exact Htr|].
      split; [exact Hcalls | exact Hpre].
Qed.

Lemma mkdir_p_creat_tolerant (env : oracle) path file_mode w :
  tolerant env →
  ∃ w' (evs : list event),
    (fd <~ syscall env (c_creat path file_mode) ;;
     if fd >=? 0 then (syscall env (c_close fd) ;;; ret 0)
     else (e <~ get_errno ;; ret (if negb (e =? EEXIST) then -1 else 0))) w
    = (Ret 0, w')
    ∧ w_trace w' = w_trace w ++ evs
    ∧ filter (λ c, is_close c = false) (map fst evs) = [c_creat path file_mode]
    ∧ w_pre w' = w_pre w.
Proof.
  intros Henv. unfold bind at 1. rewrite syscall_eq. cbv beta iota.
  pose proof (Henv (w_trace w) (c_creat path file_mode)) as Hcr.
  cbv beta iota in Hcr. destruct Hcr as [(fd & Hfd & ->) | ->]; cbv beta iota.
  - destruct (fd >=? 0) eqn:Hge; [|lia].
    unfold bind at 1. rewrite syscall_eq. cbv beta iota. unfold ret.
    eexists _, [_; _]. split; [reflexivity|].
    split; [cbn [w_trace record_event]; rewrite <- app_assoc; reflexivity|].
    split; reflexivity.
  - change (-1 >=? 0) with false. cbv iota.
    unfold bind at 1, get_errno at 1. cbv beta iota. unfold ret.
    eexists _, [_]. split; [reflexivity|]. repeat split; reflexivity.
Qed.

Lemma mkdir_p_leaf_tolerant (env : oracle) path dir_mode w :
  tolerant env →
  ∃ w' (evs : list event),
    (r <~ syscall env (c_mkdir path dir_mode) ;;
     e <~ get_errno ;;
     ret (if negb (r =? 0) && negb (e =? EEXIST) then -1 else 0)) w
    = (Ret 0, w')
    ∧ w_trace w' = w_trace w ++ evs
    ∧ filter (λ c, is_close c = false) (map fst evs) = [c_mkdir path dir_mode]
    ∧ w_pre w' = w_pre w.
Proof.
  intros Henv. unfold bind at 1. rewrite syscall_eq. cbv beta iota.
  pose proof (Henv (w_trace w) (c_mkdir path dir_mode)) as Hmk.
  cbv beta iota in Hmk.
  destruct Hmk as [-> | ->]; cbv beta iota;
    unfold bind at 1, get_errno at 1; cbv beta iota; unfold ret;
    eexists _, [_]; (split; [reflexivity|]); repeat split; reflexivity.
Qed.

Lemma filter_not_close_mkdirs dir_mode (ps : list string) :
  filter (λ c, is_close c = false) (map (λ q, c_mkdir q dir_mode) ps)
  = map (λ q, c_mkdir q dir_mode) ps.
Proof.
  induction ps as [|p ps IH]; [reflexivity|].
  cbn [map]. rewrite filter_cons_True by reflexivity. now rewrite IH.
Qed.

Lemma mkdir_p_tolerant (env : oracle) c0 rest dir_mode file_mode w :
  tolerant env →
  strlen (String c0 rest) ≤ PATH_MAX - 1 →
  ∃ w' (evs : list event),
    mkdir_p env (String c0 rest) dir_mode file_mode w = (Ret 0, w')
    ∧ w_trace w' = w_trace w ++ evs
    ∧ filter (λ c, is_close c = false) (map fst evs)
      = mkdir_p_plan (String c0 rest) dir_mode file_mode
    ∧ w_pre w' = w_pre w.
Proof.
  intros Henv Hlen. set (path := String c0 rest) in *.
  unfold mkdir_p. unfold bind at 1, set_errno at 1. cbv beta iota.
  destruct (strlen path >? PATH_MAX - 1) eqn:Hgt; [lia|]. clear Hgt.
  unfold path at 1. cbv iota. unfold bind at 1.
  destruct (mkdir_p_loop_tolerant env dir_mode Henv rest (String c0 EmptyString)
              false false (with_errno 0 w))
    as (w1 & evs1 & Hloop & Htr1 & Hcalls1 & Hpre1).
  rewrite Hloop. cbv beta iota.
  change (String c0 EmptyString +:+ rest) with path in *.
  change (String.length (String c0 EmptyString)) with 1%nat in *.
  cbn [orb]. fold (component_starts path "f") (component_starts path "d").
  fold (ancestors path) in Hcalls1.
  cbn [w_trace with_errno] in Htr1.
  unfold mkdir_p_plan.
  destruct (mkdir_p_creat_tolerant env path file_mode w1 Henv)
    as (w2 & evs2 & Hcreat & Htr2 & Hcalls2 & Hpre2).
  destruct (component_starts path "f").
  - unfold bind at 1. rewrite Hcreat. cbv beta iota.
    change (0 <? 0) with false. cbv iota.
    destruct (mkdir_p_leaf_tolerant env path dir_mode w2 Henv)
      as (w3 & evs3 & Hleaf & Htr3 & Hcalls3 & Hpre3).
    destruct (component_starts path "d").
    + unfold bind at 1. rewrite Hleaf. cbv beta iota.
      exists w3, (evs1 ++ evs2 ++ evs3). split; [reflexivity|].
      split; [rewrite Htr3, Htr2, Htr1, <- !app_assoc; reflexivity|].
      unfold event in *; rewrite !map_app, !filter_app, Hcalls2, Hcalls3, Hcalls1.
      rewrite filter_not_close_mkdirs. split; [reflexivity|]. cbn [w_pre with_errno] in *. congruence.
    + unfold bind at 1, ret at 1. cbv beta iota.
      exists w2, (evs1 ++ evs2). split; [reflexivity|].
      split; [rewrite Htr2, Htr1, <- !app_assoc; reflexivity|].
      unfold event in *; rewrite !map_app, !filter_app, Hcalls2, Hcalls1.
      rewrite filter_not_close_mkdirs. split; [reflexivity|]. cbn [w_pre with_errno] in *. congruence.
  - unfold bind at 1, ret at 1. cbv beta iota.
    change (0 <? 0) with false. cbv iota.
    destruct (mkdir_p_leaf_tolerant env path dir_mode w1 Henv)
      as (w3 & evs3 & Hleaf & Htr3 & Hcalls3 & Hpre3).
    destruct (component_starts path "d").
    + unfold bind at 1. rewrite Hleaf. cbv beta iota.
      exists w3, (evs1 ++ evs3). split; [reflexivity|].
      split; [rewrite Htr3, Htr1, <- !app_assoc; reflexivity|].
      unfold event in *; rewrite !map_app, !filter_app, Hcalls3, Hcalls1.
      rewrite filter_not_close_mkdirs. split; [reflexivity|]. cbn [w_pre with_errno] in *. congruence.
    + unfold bind at 1, ret at 1. cbv beta iota.
      exists w1, evs1. split; [reflexivity|].
      split; [exact Htr1|].
      unfold event in *; rewrite Hcalls1, filter_not_close_mkdirs, !app_nil_r.
      split; [reflexivity|]. cbn [w_pre with_errno] in *. congruence.
Qed.

(** X20.  With a path of at most PATH_MAX - 1 characters and an environment
    in which creating something that exists is the only failure, [mkdir_p]
    returns 0 and, [close] aside, its calls are exactly these, in order: a
    [mkdir] of each ancestor of the path, shortest first; then a [creat] of
    the path when some component starts with 'f'; then a [mkdir] of the
    path when some component starts with 'd'. *)
Theorem mkdir_p_follows_plan (env : oracle) c0 rest dir_mode file_mode w :
  tolerant env →
  strlen (String c0 rest) ≤ PATH_MAX - 1 →
  ∃ w' (evs : list event),
    mkdir_p env (String c0 rest) dir_mode file_mode w = (Ret 0, w')
    ∧ w_trace w' = w_trace w ++ evs
    ∧ filter (λ c, is_close c = false) (map fst evs)
      = mkdir_p_plan (String c0 rest) dir_mode file_mode.
Proof.
  intros Henv Hlen.
  destruct (mkdir_p_tolerant env c0 rest dir_mode file_mode w Henv Hlen)
    as (w' & evs & Hrun & Htr & Hcalls & _).
  exists w', evs. auto.
Qed.

Lemma mkdir_p_follows_plan_witness :
  ∃ w' (evs : list event),
    mkdir_p ideal_env (String "/" "mnt/test-jfs-i1-s0/d-01/f-00") 493 420
      initial_world = (Ret 0, w')
    ∧ w_trace w' = w_trace initial_world ++ evs
    ∧ filter (λ c, is_close c = false) (map fst evs)
      = mkdir_p_plan (String "/" "mnt/test-jfs-i1-s0/d-01/f-00") 493 420.
Proof.
  apply (mkdir_p_follows_plan ideal_env "/" "mnt/test-jfs-i1-s0/d-01/f-00"
           493 420 initial_world).
  - intros h c. destruct c; cbn; auto. left. exists 3. split; [lia | reflexivity].
  - vm_compute. discriminate.
Defined.

Lemma mkdir_p_loop_stops (env : oracle) dir_mode p e :
  (∀ h, env h (c_mkdir p dir_mode) = Err e) → e ≠ EEXIST →
  ∀ rest before ps qs next_f next_d w,
  ancestors_from (String.length before) (before +:+ rest) = ps ++ p :: qs →
  (∀ h q, In q ps → env h (c_mkdir q dir_mode) = Ok 0
                    ∨ env h (c_mkdir q dir_mode) = Err EEXIST) →
  ∃ w' (evs : list event),
    mkdir_p_loop env before rest dir_mode next_f next_d w = (Ret None, w')
    ∧ w_trace w' = w_trace w ++ evs
    ∧ map fst evs = map (λ q, c_mkdir q dir_mode) (ps ++ [p])
    ∧ w_errno w' = e.
Proof.
  intros Hfail He. induction rest as [|c rest IH]; intros before ps qs nf nd w Hanc Hps.
  - exfalso. unfold ancestors_from in Hanc. rewrite length_append in Hanc.
    cbn [String.length] in Hanc.
    replace (String.length before + 0 - String.length before)%nat with O in Hanc
      by lia.
    destruct ps; discriminate.
  - cbn [mkdir_p_loop]. rewrite ancestors_from_step in Hanc.
    destruct (Ascii.eqb c "/") eqn:Hc.
    + apply Ascii.eqb_eq in Hc. subst c.
      unfold bind at 1. rewrite syscall_eq. cbv beta iota.
      unfold bind at 1, get_errno at 1. cbv beta iota.
      destruct ps as [|q ps].
      * cbn [app] in Hanc. injection Hanc as -> _.
        rewrite Hfail. cbn [w_errno record_event snd].
        destruct (e =? EEXIST) eqn:Hee; [apply Z.eqb_eq in Hee; contradiction|].
        eexists _, [_]. split; [reflexivity|].
        repeat split; reflexivity.
      * cbn [app] in Hanc. injection Hanc as -> Hanc.
        set (r := env (w_trace w) (c_mkdir q dir_mode)).
        assert (Hgo : negb (match r with Ok v => v | Err _ => -1 end =? 0)
                      && negb (w_errno (record_event (c_mkdir q dir_mode, r) w)
                               =? EEXIST) = false).
        { destruct (Hps (w_trace w) q (or_introl eq_refl)) as [Hr | Hr];
            fold r in Hr; rewrite Hr; reflexivity. }
        rewrite Hgo, next_flags.
        match goal with
        | |- context [mkdir_p_loop env _ rest dir_mode ?f ?d ?w1] =>
            destruct (IH (q +:+ "/") ps qs f d w1 Hanc
                        (λ h q' Hin, Hps h q' (or_intror Hin)))
              as (w' & evs & Hrun & Htr & Hcalls & Herr)
        end.
        exists w', ((c_mkdir q dir_mode, r) :: evs).
        split; [exact Hrun|].
        split; [rewrite Htr; cbn [w_trace record_event]; rewrite <- app_assoc;
                reflexivity|].
        split; [cbn [map app fst]; rewrite Hcalls; reflexivity | exact Herr].
    + cbn [app] in Hanc.
      exact (IH (before +:+ String c EmptyString) ps qs nf nd w Hanc Hps).
Qed.

(** X21.  [mkdir_p] stops at the first ancestor it cannot create: when the
    [mkdir] of an ancestor fails with an error other than EEXIST, after the
    ancestors before it were created or existed, [mkdir_p] returns -1 right
    after that call, with its error in [errno]; the ancestors after it and
    the path itself are not attempted. *)
Theorem mkdir_p_stops_at_failure (env : oracle) c0 rest dir_mode file_mode
    ps p qs e w :
  strlen (String c0 rest) ≤ PATH_MAX - 1 →
  ancestors (String c0 rest) = ps ++ p :: qs →
  (∀ h q, In q ps → env h (c_mkdir q dir_mode) = Ok 0
                    ∨ env h (c_mkdir q dir_mode) = Err EEXIST) →
  (∀ h, env h (c_mkdir p dir_mode) = Err e) → e ≠ EEXIST →
  ∃ w' (evs : list event),
    mkdir_p env (String c0 rest) dir_mode file_mode w = (Ret (-1), w')
    ∧ w_trace w' = w_trace w ++ evs
    ∧ map fst evs = map (λ q, c_mkdir q dir_mode) (ps ++ [p])
    ∧ w_errno w' = e.
Proof.
  intros Hlen Hanc Hps Hfail He. set (path := String c0 rest) in *.
  unfold mkdir_p. unfold bind at 1, set_errno at 1. cbv beta iota.
  destruct (strlen path >? PATH_MAX - 1) eqn:Hgt; [lia|]. clear Hgt.
  unfold path at 1. cbv iota. unfold bind at 1.
  destruct (mkdir_p_loop_stops env dir_mode p e Hfail He rest
              (String c0 EmptyString) ps qs false false (with_errno 0 w) Hanc Hps)
    as (w1 & evs & Hloop & Htr & Hcalls & Herr).
  rewrite Hloop. cbv beta iota. unfold ret.
  exists w1, evs. split; [reflexivity|].
  split; [exact Htr|]. split; [exact Hcalls | exact Herr].
Qed.

Lemma mkdir_p_stops_at_failure_witness :
  ∃ w' (evs : list event),
    mkdir_p (refuse_mkdir_env "/a/b") (String "/" "a/b/c") 493 420 initial_world
    = (Ret (-1), w')
    ∧ w_trace w' = w_trace initial_world ++ evs
    ∧ map fst evs = map (λ q, c_mkdir q 493) (["/a"] ++ ["/a/b"])
    ∧ w_errno w' = EINVAL.
Proof.
  apply (mkdir_p_stops_at_failure (refuse_mkdir_env "/a/b") "/" "a/b/c" 493 420
           ["/a"] "/a/b" [] EINVAL initial_world).
  - vm_compute. discriminate.
  - vm_compute. reflexivity.
  - intros h q [<- | []]. left. reflexivity.
  - intros h. reflexivity.
  - unfold EINVAL, EEXIST. lia.
Defined.

(** ** A record without a field *)

Lemma strtok_no_fields delim s :
  fields delim s = [] → strtok s delim = (None, EmptyString).
Proof.
  intros H. rewrite <- fields_skip_delims in H. unfold strtok.
  destruct (skip_delims delim s) as [|c s1] eqn:Hs; [reflexivity|].
  pose proof (skip_delims_head _ _ _ _ Hs) as Hc.
  destruct (cut_token_fields delim s1 c Hc) as [Hf _].
  rewrite Hf in H. discriminate.
Qed.

(** X22.  A record without a field, such as an empty line of the log, is
    not skipped: in every environment the round of the replay loop that
    reads it ends in undefined behaviour, the dereference of the missing
    first field (or of a line buffer that could not be allocated), having
    made only allocation calls: nothing is mounted and nothing replayed. *)
Theorem replay_line_without_fields (env : oracle) strerror failpos fuel linebuf w :
  fields ", " (line_buffer linebuf) = [] →
  ∃ w' (evs : list event),
    replay_line env strerror failpos fuel linebuf w = (Undef, w')
    ∧ w_trace w' = w_trace w ++ evs
    ∧ Forall (λ ev, is_allocation (fst ev) = true) evs.
Proof.
  intros Hblank. unfold replay_line. unfold bind at 1. rewrite alloc_eq.
  cbv beta iota.
  destruct (env (w_trace w) (c_malloc (to_size (strlen linebuf + 1)))) as [v|e];
    cbv beta iota; cbn [negb].
  2:{ eexists _, [_]. split; [reflexivity|]. split; [reflexivity|].
      repeat constructor. }
  unfold bind at 1, get_seq at 1. cbv beta iota.
  unfold bind at 1, print_stdout at 1. cbv beta iota.
  unfold bind at 1.
  unfold extract_fields, _vector_init.
  unfold bind at 1. unfold bind at 1. rewrite alloc_eq. cbv beta iota.
  unfold ret at 1. cbv beta iota.
  rewrite (strtok_no_fields _ _ Hblank). cbn [extract_loop].
  unfold ret at 1. cbv beta iota.
  unfold bind at 1, vector_get_deref, _vector_get. cbn [vlen].
  change ((0 <? 0) || (0 >=? 0)) with true. cbv iota.
  unfold undef. eexists _, [_; _]. split; [reflexivity|].
  split; [cbn [w_trace record_event to_stdout]; rewrite <- app_assoc; reflexivity|].
  repeat constructor.
Qed.

Lemma replay_line_without_fields_witness :
  ∃ w' (evs : list event),
    replay_line ideal_env errno_name 0 20 (String "010" EmptyString) initial_world
    = (Undef, w')
    ∧ w_trace w' = w_trace initial_world ++ evs
    ∧ Forall (λ ev, is_allocation (fst ev) = true) evs.
Proof.
  apply (replay_line_without_fields ideal_env errno_name 0 20
           (String "010" EmptyString) initial_world).
  reflexivity.
Defined.

(** ** Prepopulation *)

Lemma creations_of_plan path dir_mode file_mode (calls : list call) :
  filter (λ c, is_close c = false) calls = mkdir_p_plan path dir_mode file_mode →
  filter (λ c, is_creation c = true) calls = mkdir_p_plan path dir_mode file_mode.
Proof.
  intros H.
  assert (Hplan : filter (λ c, is_creation c = true)
                    (mkdir_p_plan path dir_mode file_mode)
                  = mkdir_p_plan path dir_mode file_mode).
  { unfold mkdir_p_plan. rewrite !filter_app.
    f_equal; [|f_equal].
    - induction (ancestors path) as [|p ps IH]; [reflexivity|].
      cbn [map]. rewrite filter_cons_True by reflexivity. now rewrite IH.
    - destruct (component_starts path "f"); reflexivity.
    - destruct (component_starts path "d"); reflexivity. }
  rewrite <- Hplan, <- H, list_filter_filter.
  apply list_filter_iff. intros c. destruct c; cbn; intuition congruence.
Qed.

Lemma prepopulate_tolerant (env : oracle) entries w :
  tolerant env →
  (∀ h n size, ∃ v, env h (c_calloc n size) = Ok v) →
  Forall (λ line, strlen (basepath +:+ line) ≤ PATH_MAX - 1) entries →
  w_pre w + Z.of_nat (length entries) ≤ INT_MAX →
  ∃ w' (evs : list event),
    prepopulate env entries w = (Ret tt, w')
    ∧ w_trace w' = w_trace w ++ evs
    ∧ filter (λ c, is_creation c = true) (map fst evs)
      = concat (map (λ line, mkdir_p_plan (basepath +:+ line) 493 420) entries)
    ∧ w_pre w' = w_pre w + Z.of_nat (length entries).
Proof.
  revert w.
  induction entries as [|line entries IH]; intros w Henv Hcalloc Hfit Hpre.
  - exists w, []. rewrite app_nil_r. cbn [length]. repeat split; try reflexivity.
    cbn. lia.
  - cbn [prepopulate]. unfold bind at 1, get_pre at 1. cbv beta iota.
    unfold bind at 1, print_stdout at 1. cbv beta iota.
    unfold bind at 1. rewrite alloc_eq. cbv beta iota.
    destruct (Hcalloc (w_trace (to_stdout (line_of ["pre="; fmt_d (w_pre w); " "]) w))
                1 (to_size (strlen basepath + strlen line + 1))) as [v Hv].
    rewrite Hv. cbv beta iota. cbn [negb].
    unfold bind at 1, print_stdout at 1. cbv beta iota.
    unfold bind at 1.
    inversion Hfit as [|? ? Hline Hrest]; subst.
    change (basepath +:+ line)
      with (String "/" ("mnt/test-jfs-i1-s0" +:+ line)) in Hline |- *.
    match goal with
    | |- context [mkdir_p env ?p 493 420 ?w1] =>
        destruct (mkdir_p_tolerant env "/" ("mnt/test-jfs-i1-s0" +:+ line)
                    493 420 w1 Henv Hline)
          as (w2 & evs2 & Hrun & Htr2 & Hcalls2 & Hpre2)
    end.
    rewrite Hrun. cbv beta iota. change (0 <? 0) with false. cbv iota.
    cbn [w_trace w_pre to_stdout record_event] in Htr2, Hpre2.
    unfold bind at 1, incr_int.
    cbn [length] in Hpre.
    destruct (w_pre w =? INT_MAX) eqn:Hmax; [lia|].
    unfold ret at 1. cbv beta iota.
    unfold bind at 1, set_pre at 1. cbv beta iota.
    destruct (IH (with_pre (w_pre w + 1) w2) Henv Hcalloc Hrest)
      as (w' & evs & Hrun' & Htr & Hcalls & Hpre').
    { cbn [w_pre with_pre]. lia. }
    exists w', ((c_calloc 1 (to_size (strlen basepath + strlen line + 1)), Ok v)
                :: evs2 ++ evs).
    split; [exact Hrun'|].
    split; [rewrite Htr; cbn [w_trace with_pre]; rewrite Htr2, <- !app_assoc;
            reflexivity|].
    split.
    + cbn [map concat fst]. rewrite filter_cons_False by (cbn; discriminate).
      rewrite map_app, filter_app. unfold event in *. rewrite Hcalls.
      f_equal. apply creations_of_plan. exact Hcalls2.
    + rewrite Hpre'. cbn [w_pre with_pre length]. lia.
Qed.

(** X23.  Prepopulation is repeatable.  In an environment in which creating
    something that exists is the only failure and [calloc] succeeds, with
    entries whose full paths fit in PATH_MAX - 1 characters and a counter
    that does not overflow, [prepopulate] returns; the directories and
    files it asks for are, entry after entry, what [mkdir_p] is to create
    for the base path followed by the entry; and the counter [pre] has
    advanced by the number of entries. *)
Theorem prepopulate_creates (env : oracle) entries w :
  tolerant env →
  (∀ h n size, ∃ v, env h (c_calloc n size) = Ok v) →
  Forall (λ line, strlen (basepath +:+ line) ≤ PATH_MAX - 1) entries →
  w_pre w + Z.of_nat (length entries) ≤ INT_MAX →
  ∃ w' (evs : list event),
    prepopulate env entries w = (Ret tt, w')
    ∧ w_trace w' = w_trace w ++ evs
    ∧ filter (λ c, is_creation c = true) (map fst evs)
      = concat (map (λ line, mkdir_p_plan (basepath +:+ line) 493 420) entries)
    ∧ w_pre w' = w_pre w + Z.of_nat (length entries).
Proof. exact (prepopulate_tolerant env entries w). Qed.

Lemma prepopulate_creates_witness :
  ∃ w' (evs : list event),
    prepopulate ideal_env file_dir_array initial_world = (Ret tt, w')
    ∧ w_trace w' = w_trace initial_world ++ evs
    ∧ filter (λ c, is_creation c = true) (map fst evs)
      = concat (map (λ line, mkdir_p_plan (basepath +:+ line) 493 420)
                    file_dir_array)
    ∧ w_pre w' = w_pre initial_world + Z.of_nat (length file_dir_array).
Proof.
  apply (prepopulate_creates ideal_env file_dir_array initial_world).
  - intros h c. destruct c; cbn; auto. left. exists 3. split; [lia | reflexivity].
  - intros h n size. exists 1. reflexivity.
  - repeat constructor; vm_compute; discriminate.
  - vm_compute. discriminate.
Defined.

(** X24.  A failed prepopulation leaves the file system mounted.  When the
    log opens, the mount succeeds and the first directory that [mkdir_p]
    asks for cannot be created, for a reason other than EEXIST, [main]
    reports the error and exits with EXIT_FAILURE right after that
    [mkdir]: no unmount is attempted. *)
Theorem main_exits_mounted (env : oracle) strerror failpos fuel log w e :
  (∀ h, ∃ v, env h (c_fopen sequence_log_file_name) = Ok v) →
  (∀ h, env h (c_mount device basepath fsys MS_NOATIME) = Ok 0) →
  (∀ h n size, ∃ v, env h (c_calloc n size) = Ok v) →
  (∀ h, env h (c_mkdir "/mnt" 493) = Err e) → e ≠ EEXIST →
  ∃ w' (evs : list event),
    main env strerror failpos fuel log w = (Exit EXIT_FAILURE, w')
    ∧ w_trace w' = w_trace w ++ evs
    ∧ map fst evs
      = [c_fopen sequence_log_file_name;
         c_mount device basepath fsys MS_NOATIME;
         c_calloc 1 (to_size (strlen basepath + strlen "/d-01" + 1));
         c_mkdir "/mnt" 493]
    ∧ umount_attempts evs = 0
    ∧ last (w_stderr w') = Some "mkdir_p error happened!".
Proof.
  intros Hfopen Hmount Hcalloc Hmkdir He.
  unfold main. unfold bind at 1. rewrite alloc_eq. cbv beta iota.
  destruct (Hfopen (w_trace w)) as [v Hv]. rewrite Hv. cbv beta iota. cbn [negb].
  unfold bind at 1. unfold mountall. unfold bind at 1. rewrite syscall_eq.
  rewrite Hmount. cbv beta iota. change (negb (0 =? 0)) with false. cbv iota.
  unfold ret at 1. cbv beta iota.
  unfold bind at 1. unfold file_dir_array. cbn [prepopulate].
  unfold bind at 1, get_pre at 1. cbv beta iota.
  unfold bind at 1, print_stdout at 1. cbv beta iota.
  unfold bind at 1. rewrite alloc_eq. cbv beta iota.
  match goal with
  | |- context [env ?h (c_calloc ?n ?s)] =>
      destruct (Hcalloc h n s) as [v' Hv']; rewrite Hv'
  end.
  cbv beta iota. cbn [negb].
  unfold bind at 1, print_stdout at 1. cbv beta iota.
  unfold bind at 1. unfold mkdir_p.
  unfold bind at 1, set_errno at 1. cbv beta iota.
  change (strlen (basepath +:+ "/d-01") >? PATH_MAX - 1) with false. cbv iota.
  change (basepath +:+ "/d-01") with (String "/" "mnt/test-jfs-i1-s0/d-01").
  cbv iota. unfold bind at 1.
  match goal with
  | |- context [mkdir_p_loop env ?b ?r 493 false false ?w1] =>
      destruct (mkdir_p_loop_stops env 493 "/mnt" e Hmkdir He r b []
                  ["/mnt/test-jfs-i1-s0"] false false w1)
        as (w2 & evs2 & Hloop & Htr2 & Hcalls2 & Herr2);
        [vm_compute; reflexivity | intros h q [] |]
  end.
  rewrite Hloop. cbv beta iota. unfold ret at 1. cbv beta iota.
  change (-1 <? 0) with true. cbv iota.
  unfold bind, print_stderr, exit.
  cbn [w_trace with_errno to_stdout record_event] in Htr2.
  destruct evs2 as [|[c2 r2] [|? ?]]; try discriminate.
  cbn [map app fst] in Hcalls2. injection Hcalls2 as ->.
  eexists _, [_; _; _; _]. split; [reflexivity|]. cbn [w_trace to_stderr].
  split; [rewrite Htr2, <- !app_assoc; reflexivity|].
  split; [reflexivity|]. split; [reflexivity|].
  cbn [w_stderr to_stderr]. apply last_snoc.
Qed.

Lemma main_exits_mounted_witness :
  ∃ w' (evs : list event),
    main (refuse_mkdir_env "/mnt") errno_name 0 20 sample_log initial_world
    = (Exit EXIT_FAILURE, w')
    ∧ w_trace w' = w_trace initial_world ++ evs
    ∧ map fst evs
      = [c_fopen sequence_log_file_name;
         c_mount device basepath fsys MS_NOATIME;
         c_calloc 1 (to_size (strlen basepath + strlen "/d-01" + 1));
         c_mkdir "/mnt" 493]
    ∧ umount_attempts evs = 0
    ∧ last (w_stderr w') = Some "mkdir_p error happened!".
Proof.
  apply (main_exits_mounted (refuse_mkdir_env "/mnt") errno_name 0 20 sample_log
           initial_world EINVAL).
  - intros h. exists 1. reflexivity.
  - intros h. reflexivity.
  - intros h n size. exists 1. reflexivity.
  - intros h. reflexivity.
  - unfold EINVAL, EEXIST. lia.
Defined.

(** ** The handlers on a complete record *)

Lemma vector_get_deref_holds {A} (vec : vector A) l i w :
  holds vec l → 0 ≤ i < Z.of_nat (length l) →
  ∃ x, l !! Z.to_nat i = Some x ∧ vector_get_deref vec i w = (Ret x, w).
Proof.
  intros [Hdata Hlen] Hi. unfold vector_get_deref, _vector_get.
  rewrite Hdata, Hlen.
  destruct (i <? 0) eqn:H1; [lia|]. destruct (i >=? Z.of_nat (length l)) eqn:H2; [lia|].
  cbn [orb]. destruct (lookup_lt_is_Some_2 l (Z.to_nat i) ltac:(lia)) as [x Hx].
  rewrite Hx. eauto.
Qed.

(** One step of a handler that cannot fail: a field that is there, a number
    conversion, a request, a print. *)
Ltac handler_step Hholds :=
  lazymatch goal with
  | |- context [bind (vector_get_deref ?v ?i) _ ?w] =>
      let x := fresh "field" in
      let E := fresh "E" in
      destruct (vector_get_deref_holds v _ i w Hholds ltac:(lia)) as [x [_ E]];
      unfold bind at 1; rewrite E; cbv beta iota
  | |- context [bind (strtol ?s ?b) _ ?w] =>
      let v := fresh "v" in
      let w1 := fresh "w" in
      let E := fresh "E" in
      let Ht := fresh "Ht" in
      let Ho := fresh "Ho" in
      let He := fresh "He" in
      destruct (strtol_returns s b w) as (v & w1 & E & Ht & Ho & He & _);
      unfold bind at 1; rewrite E; cbv beta iota
  | |- context [bind (atol ?s) _ ?w] =>
      let v := fresh "v" in
      let w1 := fresh "w" in
      let E := fresh "E" in
      let Ht := fresh "Ht" in
      let Ho := fresh "Ho" in
      let He := fresh "He" in
      destruct (strtol_returns s 10 w) as (v & w1 & E & Ht & Ho & He & _);
      unfold bind at 1, atol at 1; rewrite E; cbv beta iota
  | |- context [bind (strtoul ?s ?b) _ ?w] =>
      let v := fresh "v" in
      let w1 := fresh "w" in
      let E := fresh "E" in
      let Ht := fresh "Ht" in
      let Ho := fresh "Ho" in
      let He := fresh "He" in
      destruct (strtoul_returns s b w) as (v & w1 & E & Ht & Ho & He & _);
      unfold bind at 1; rewrite E; cbv beta iota
  end.

Lemma simple_handlers_run (env : oracle) (strerror : Z → string)
    (argvec : vector string) l w :
  holds argvec l →
  Forall (λ handler,
            (fst handler ≤ length l)%nat →
            ∃ r w' (evs : list event),
              snd handler argvec w = (Ret r, w')
              ∧ w_trace w' = w_trace w ++ evs
              ∧ (1 ≤ length evs ≤ 2)%nat
              ∧ Forall (λ ev, is_fs_call (fst ev) = true) evs
              ∧ length (w_stdout w') = S (length (w_stdout w))
              ∧ w_stderr w' = w_stderr w)
         (simple_handlers env strerror).
Proof.
  intros Hholds. unfold simple_handlers.
  repeat apply Forall_cons_2; [..| apply Forall_nil_2];
    cbn [fst snd]; intros Hlen;
    unfold do_create_file, do_truncate, do_unlink, do_symlink, do_link, do_mkdir,
      do_rmdir, do_setxattr, do_removexattr, do_chown, do_chgrp, do_chmod;
    repeat handler_step Hholds.
  all: try unfold create_file.
  all: unfold bind at 1; try unfold bind at 1; rewrite syscall_eq; cbv beta iota.
  all: try (lazymatch goal with
            | |- context [if ?b then bind (syscall _ (c_close _)) _ else _] =>
                destruct b
            end;
            [unfold bind at 1; unfold bind at 1; rewrite syscall_eq; cbv beta iota|];
            unfold ret at 1; cbv beta iota; unfold bind at 1, ret at 1;
            cbv beta iota).
  all: unfold bind, get_errno, print_stdout, ret.
  all: eexists _, _, _; split; [reflexivity|].
  all: cbn [w_trace w_stdout w_stderr to_stdout record_event].
  all: split;
    [ repeat match goal with
             | H : w_trace ?a = w_trace _ |- context [w_trace ?a] => rewrite H
             end;
      rewrite <- ?app_assoc; reflexivity |].
  all: split; [cbn [length app]; lia|].
  all: split; [repeat constructor|].
  all: split;
    [ rewrite length_app;
      repeat match goal with
             | H : w_stdout ?a = w_stdout _ |- context [w_stdout ?a] => rewrite H
             end;
      cbn [length]; lia
    | repeat match goal with
             | H : w_stderr ?a = w_stderr _ |- context [w_stderr ?a] => rewrite H
             end;
      reflexivity ].
Qed.








(** ** A run that completes *)

Lemma c_str_length s : (String.length (c_str s) ≤ String.length s)%nat.
Proof.
  induction s as [|c s IH]; [reflexivity|]. cbn [c_str].
  destruct (Ascii.eqb c "000"); cbn [String.length]; lia.
Qed.

Lemma drop_last_newline_length s :
  (String.length (drop_last_newline s) ≤ String.length s)%nat.
Proof.
  induction s as [|c s IH]; [reflexivity|]. cbn [drop_last_newline].
  destruct s as [|c' s'].
  - destruct (Ascii.eqb c "010"); cbn [String.length]; lia.
  - cbn [String.length] in *. lia.
Qed.

Lemma line_buffer_length linebuf :
  (String.length (line_buffer linebuf) ≤ String.length linebuf)%nat.
Proof.
  unfold line_buffer. pose proof (c_str_length linebuf).
  pose proof (drop_last_newline_length (c_str linebuf)).
  destruct (String.length (c_str linebuf) =? String.length linebuf)%nat; lia.
Qed.

Lemma fields_head_short delim s : ∀ f g rest,
  fields delim s = f :: g :: rest → (String.length f < String.length s)%nat.
Proof.
  induction s as [|c s IH]; intros f g rest; [discriminate|].
  cbn [fields]. destruct (is_delim delim c).
  { intros H. specialize (IH _ _ _ H). cbn [String.length]. lia. }
  destruct s as [|c' s']; [discriminate|].
  destruct (is_delim delim c').
  { intros H. injection H as <- _. cbn [String.length]. lia. }
  destruct (fields delim (String c' s')) as [|f' fs] eqn:Hf; [discriminate|].
  intros H. injection H as <- ->.
  specialize (IH _ _ _ eq_refl). cbn [String.length] in *. lia.
Qed.

Lemma dispatch_returns (env : oracle) strerror funcname (argvec : vector string)
    l seq len w :
  holds argvec l →
  (String.length funcname < Z.to_nat len)%nat →
  funcname ≠ "write_file" →
  (fields_needed funcname ≤ length l)%nat →
  ∃ w', dispatch env strerror funcname argvec seq len w = (Ret tt, w').
Proof.
  intros Hholds Hlen Hnw Hneed.
  pose proof (simple_handlers_run env strerror argvec l w Hholds) as HF.
  unfold simple_handlers in HF.
  repeat lazymatch type of HF with
         | Forall _ (_ :: _) =>
             let H := fresh "Hh" in
             apply Forall_cons_1 in HF; destruct HF as [H HF]; cbn [fst snd] in H
         end.
  clear HF. unfold dispatch. cbv zeta.
  rewrite !strncmp_eq_long by exact Hlen.
  unfold fields_needed in Hneed.
  repeat lazymatch goal with
         | |- context [String.eqb funcname ?name] =>
             destruct (String.eqb funcname name) eqn:Heq;
             [ apply String.eqb_eq in Heq;
               first
                 [ contradiction
                 | unfold bind, ret;
                   lazymatch goal with
                   | |- context [?h env strerror argvec w] =>
                       lazymatch goal with
                       | Hh : _ → ∃ r w' evs, h env strerror argvec w = _ ∧ _ |- _ =>
                           destruct (Hh Hneed) as (r & w' & evs & -> & _)
                       end
                   end;
                   eauto ]
             | clear Heq ]
         end.
  unfold print_stdout. eauto.
Qed.

Lemma mountall_ok (env : oracle) strerror failpos w :
  env (w_trace w) (c_mount device basepath fsys MS_NOATIME) = Ok 0 →
  mountall env strerror failpos w
  = (Ret tt, record_event (c_mount device basepath fsys MS_NOATIME, Ok 0) w).
Proof.
  intros H. unfold mountall. unfold bind at 1. rewrite syscall_eq, H. reflexivity.
Qed.

Lemma unmount_all_ok (env : oracle) strerror fuel strict w :
  env (w_trace w) (c_umount2 basepath 0) = Ok 0 →
  unmount_all env strerror (S fuel) strict w
  = (Ret tt, record_event (c_umount2 basepath 0, Ok 0) w).
Proof.
  intros H. unfold unmount_all. unfold bind at 1.
  rewrite unmount_loop_step_ok by (exact H || lia). reflexivity.
Qed.

Lemma replay_line_runs (env : oracle) strerror failpos fuel linebuf w :
  cooperative env → complete_record linebuf → w_seq w < INT_MAX →
  ∃ w', replay_line env strerror failpos (S fuel) linebuf w = (Ret tt, w')
        ∧ w_seq w' = w_seq w + 1 ∧ w_errno w' = 0.
Proof.
  intros (Hnf & _ & Hmount & Humount)
         (op & rest & Hfields & Hrest & Hop & Hneed & Hfit) Hseq.
  unfold replay_line. unfold bind at 1. rewrite (alloc_never_fails env Hnf).
  cbv beta iota. cbn [negb].
  unfold bind at 1, get_seq at 1. cbv beta iota.
  unfold bind at 1, print_stdout at 1. cbv beta iota.
  unfold bind at 1.
  pose proof (line_buffer_length linebuf) as Hshort.
  match goal with
  | |- context [extract_fields env ?line ", " ?w1] =>
      destruct (extract_fields_comma_space env Hnf line w1 ltac:(lia))
        as (argvec & w2 & -> & Hdata & Hvlen & _)
  end.
  cbv beta iota. rewrite Hfields in Hdata, Hvlen.
  assert (Hholds : holds argvec (op :: rest)) by (split; assumption).
  destruct (vector_get_deref_holds argvec (op :: rest) 0 w2 Hholds)
    as (x & Hx & Hget); [cbn [length]; lia|].
  cbn in Hx. injection Hx as <-.
  unfold bind at 1. rewrite Hget. cbv beta iota.
  unfold bind at 1. rewrite mountall_ok by apply Hmount. cbv beta iota.
  unfold bind at 1.
  match goal with
  | |- context [dispatch env strerror op argvec ?s ?len ?w3] =>
      destruct (dispatch_returns env strerror op argvec (op :: rest) s len w3 Hholds)
        as (w4 & ->); [| exact Hop | exact Hneed |]
  end.
  { destruct rest as [|g rest']; [contradiction|].
    pose proof (fields_head_short _ _ _ _ _ Hfields). unfold strlen.
    rewrite Nat2Z.id. lia. }
  cbv beta iota. cbn [w_seq record_event to_stdout].
  unfold bind at 1, incr_int.
  destruct (w_seq w =? INT_MAX) eqn:Hmax; [lia|].
  unfold ret at 1. cbv beta iota.
  unfold bind at 1, set_seq at 1. cbv beta iota.
  unfold bind at 1, unmount_all_strict.
  rewrite unmount_all_ok by apply Humount. cbv beta iota.
  unfold set_errno. eexists. split; [reflexivity|]. split; reflexivity.
Qed.

Lemma replay_lines_run (env : oracle) strerror failpos fuel lines : ∀ w,
  cooperative env → Forall complete_record lines →
  w_seq w + Z.of_nat (length lines) ≤ INT_MAX →
  ∃ w', replay_lines env strerror failpos (S fuel) lines w = (Ret tt, w')
        ∧ w_seq w' = w_seq w + Z.of_nat (length lines).
Proof.
  induction lines as [|linebuf lines IH]; intros w Henv Hall Hseq.
  - exists w. split; [reflexivity | cbn; lia].
  - inversion Hall as [|? ? Hline Hrest]; subst. cbn [length] in Hseq.
    cbn [replay_lines]. unfold bind at 1.
    destruct (replay_line_runs env strerror failpos fuel linebuf w Henv Hline
                ltac:(lia)) as (w1 & -> & Hseq1 & _).
    cbv beta iota.
    destruct (IH w1 Henv Hrest ltac:(lia)) as (w' & -> & Hseq').
    exists w'. split; [reflexivity|]. rewrite Hseq', Hseq1. cbn [length]. lia.
Qed.

Lemma seq_stable s : stable (λ w, w_seq w = s).
Proof. split; intros; assumption. Qed.

Lemma seq_tolerates s c : tolerates (λ w, w_seq w = s) c.
Proof. intros r w H. exact H. Qed.

(** X26.  A run that completes.  In a cooperative environment, when every
    line of the log is a complete record of an operation other than
    write_file and the two counters do not overflow, [main] returns 0: the
    log is opened, the tree prepopulated, and every record replayed; the
    sequence counter has advanced by the number of lines. *)
Theorem main_completes (env : oracle) strerror failpos fuel log w :
  cooperative env →
  Forall complete_record (getlines log) →
  w_pre w + 4 ≤ INT_MAX →
  w_seq w + Z.of_nat (length (getlines log)) ≤ INT_MAX →
  ∃ w', main env strerror failpos (S fuel) log w = (Ret 0, w')
        ∧ w_seq w' = w_seq w + Z.of_nat (length (getlines log)).
Proof.
  intros Henv Hlines Hpre Hseq.
  pose proof Henv as (Hnf & Htol & Hmount & Humount).
  unfold main. unfold bind at 1. rewrite (alloc_never_fails env Hnf).
  cbv beta iota. cbn [negb].
  unfold bind at 1. rewrite mountall_ok by apply Hmount. cbv beta iota.
  unfold bind at 1.
  match goal with
  | |- context [prepopulate env file_dir_array ?w1] =>
      destruct (prepopulate_tolerant env file_dir_array w1 Htol)
        as (w2 & evs & Hrun & _ & _ & _);
        [ intros h n size; apply Hnf
        | repeat constructor; vm_compute; discriminate
        | exact Hpre
        | pose proof (keeps_snd (λ w, w_seq w = w_seq w1)
                        (prepopulate env file_dir_array) w1
                        (keeps_prepopulate env _ (seq_stable _)
                           (λ n size, seq_tolerates _ _)
                           (λ c _, seq_tolerates _ _) file_dir_array)
                        eq_refl) as Hseq2 ]
  end.
  rewrite Hrun in Hseq2 |- *. cbn [snd w_seq record_event] in Hseq2.
  cbv beta iota. unfold bind at 1, unmount_all_strict.
  rewrite unmount_all_ok by apply Humount. cbv beta iota.
  unfold bind at 1.
  match goal with
  | |- context [replay_lines env strerror failpos (S fuel) ?ls ?w3] =>
      destruct (replay_lines_run env strerror failpos fuel ls w3 Henv Hlines)
        as (w4 & -> & Hseq4)
  end.
  { cbn [w_seq record_event]. lia. }
  cbv beta iota. unfold ret. exists w4. split; [reflexivity|].
  rewrite Hseq4. cbn [w_seq record_event]. lia.
Qed.

Lemma main_completes_witness :
  ∃ w', main ideal_env errno_name 0 (S 0)
          ("mkdir, /mnt/test-jfs-i1-s0/d-02, 0755" +:+ String "010" EmptyString
           +:+ "unlink, /mnt/test-jfs-i1-s0/d-01/f-00") initial_world
        = (Ret 0, w')
        ∧ w_seq w'
          = w_seq initial_world
            + Z.of_nat (length (getlines
                ("mkdir, /mnt/test-jfs-i1-s0/d-02, 0755" +:+ String "010" EmptyString
                 +:+ "unlink, /mnt/test-jfs-i1-s0/d-01/f-00"))).
Proof.
  apply (main_completes ideal_env errno_name 0 0
           ("mkdir, /mnt/test-jfs-i1-s0/d-02, 0755" +:+ String "010" EmptyString
            +:+ "unlink, /mnt/test-jfs-i1-s0/d-01/f-00") initial_world).
  - split; [intros h c; destruct c; cbn; eauto|].
    split; [|split; intros h; reflexivity].
    intros h c. destruct c; cbn; auto. left. exists 3. split; [lia | reflexivity].
  - match goal with
    | |- Forall _ ?ls => let v := eval vm_compute in ls in change ls with v
    end.
    apply Forall_cons_2; [|apply Forall_cons_2; [|apply Forall_nil_2]].
    + eexists _, _. split; [vm_compute; reflexivity|].
      split; [discriminate|]. split; [discriminate|].
      split; [vm_compute; lia | vm_compute; reflexivity].
    + eexists _, _. split; [vm_compute; reflexivity|].
      split; [discriminate|]. split; [discriminate|].
      split; [vm_compute; lia | vm_compute; reflexivity].
  - vm_compute. discriminate.
  - vm_compute. discriminate.
Defined.

(** * The rounds of the replay loop (C7) *)
























